(** * coretrace-logger: a shallow embedding of the logging core

    The development follows [include/coretrace/logger.hpp] (the two
    [log] templates) and the translation unit that implements the
    logger (global state, environment defaults, module table, prefix,
    numeric formatting and [write_log_line]).

    Conventions of the embedding.
    - A [char] is an [ascii]; a [std::string_view] and the bytes behind a
      [const char *] are [list ascii].  Reading through a [const char *]
      stops at the first NUL byte (or at the end of the modelled memory).
    - Fixed arrays ([char buf[N]], the rows of the module table) are
      lists written by index with stdpp's insert; the source never
      writes out of range on the states reached from the initial one.
    - The [int] flags that only ever hold 0 or 1 are [bool]; counters and
      sizes are [nat]; values that take part in arithmetic are [Z].
    - The globals, the process environment and the bytes handed to the
      sinks form one [World]; the operations are written in a small
      state-and-exception monad over it.  The two mutexes only matter
      under concurrency and are not part of this sequential model.
    - A custom sink is a function pointer.  The writers are given twice:
      first with a sink that returns from every invocation, which is all
      that the statements about the bytes written need, then, in
      [Throwing], with a sink that may throw, for the statements about
      the failures that reach the caller. *)

From Stdlib Require Import ZArith Lia List Ascii String Bool.
From stdpp Require Import base list.
Import ListNotations.

Local Open Scope Z_scope.
Local Open Scope list_scope.

(** ** Characters and strings *)

Abbreviation string_view := (list ascii) (only parsing).

Definition sv (s : string) : list ascii := list_ascii_of_string s.

Definition NUL : ascii := Ascii.zero.

Definition is_nul (c : ascii) : bool := Ascii.eqb c NUL.

(** [static_cast<char>(n)] for an [int] [n]: the low eight bits. *)
Definition char_of_Z (n : Z) : ascii := ascii_of_N (Z.to_N (n mod 256)).

(** A [std::string_view] built from a [const char *]: the bytes before the
    terminator. *)
Fixpoint c_str (p : list ascii) : list ascii :=
  match p with
  | [] => []
  | c :: p' => if is_nul c then [] else c :: c_str p'
  end.

(** A string that can be passed as a C string: no embedded NUL byte. *)
Definition nul_free (s : list ascii) : bool := forallb (fun c => negb (is_nul c)) s.

Fixpoint sv_eq_loop (a b : list ascii) : bool :=
  match a, b with
  | x :: a', y :: b' => if negb (Ascii.eqb x y) then false else sv_eq_loop a' b'
  | _, _ => true
  end.

Definition sv_eq (a b : list ascii) : bool :=
  if negb (Nat.eqb (length a) (length b)) then false else sv_eq_loop a b.

(** ** Module table *)

Definition MAX_MODULES : nat := 32.
Definition MODULE_NAME_LEN : nat := 32.

Record ModuleTable := {
  names : list (list ascii);   (* char names[MAX_MODULES][MODULE_NAME_LEN] *)
  count : nat;
  filter_active : bool
}.

(** The search loop shared by [add_module_locked], [disable_module] and
    [module_is_enabled]: the first index [i < count] with
    [sv_eq(name, std::string_view(names[i]))]. *)
Fixpoint find_module_from (name : list ascii) (rows : list (list ascii))
    (n i : nat) : option nat :=
  match n, rows with
  | S n', row :: rows' =>
      if sv_eq name (c_str row) then Some i
      else find_module_from name rows' n' (S i)
  | _, _ => None
  end.

Definition find_module (name : list ascii) (t : ModuleTable) : option nat :=
  find_module_from name (names t) (count t) 0%nat.

(** [for (i = 0; i < name.size(); ++i) row[i] = name[i];] *)
Fixpoint store_chars (src : list ascii) (i : nat) (row : list ascii) : list ascii :=
  match src with
  | [] => row
  | c :: src' => store_chars src' (S i) (<[i := c]> row)
  end.

Definition store_name (name : list ascii) (row : list ascii) : list ascii :=
  <[length name := NUL]> (store_chars name 0%nat row).

Definition add_module_locked (name : list ascii) (t : ModuleTable) : ModuleTable :=
  match find_module name t with
  | Some _ => t
  | None =>
      if (count t <? MAX_MODULES)%nat then
        {| names := alter (store_name name) (count t) (names t);
           count := S (count t);
           filter_active := true |}
      else t
  end.

(** [for (j = i; j < count - 1; ++j) memcpy(names[j], names[j + 1], ...)],
    run for [n] iterations starting at [j]. *)
Fixpoint shift_rows (rows : list (list ascii)) (j n : nat) : list (list ascii) :=
  match n with
  | O => rows
  | S n' =>
      match rows !! S j with
      | Some next => shift_rows (<[j := next]> rows) (S j) n'
      | None => shift_rows rows (S j) n'
      end
  end.

(** The body of [disable_module] under the state lock. *)
Definition remove_module_locked (name : list ascii) (t : ModuleTable) : ModuleTable :=
  match find_module name t with
  | Some i =>
      {| names := shift_rows (names t) i (count t - 1 - i);
         count := (count t - 1)%nat;
         filter_active :=
           if Nat.eqb (count t - 1) 0 then false else filter_active t |}
  | None => t
  end.

(** The body of [enable_all_modules] under the state lock. *)
Definition clear_modules_locked (t : ModuleTable) : ModuleTable :=
  {| names := names t; count := 0%nat; filter_active := false |}.

(** The body of [module_is_enabled] under the state lock. *)
Definition module_is_enabled_locked (name : list ascii) (t : ModuleTable) : bool :=
  if negb (filter_active t) then true
  else match find_module name t with Some _ => true | None => false end.

(** ** Parsing of [CT_DEBUG] *)

(** The inner scan of the [CT_DEBUG] parser, which advances [end] up to
    the next comma or the terminator: the bytes between [start] and [end],
    and the memory from [end] on. *)
Fixpoint scan_token (p : list ascii) : list ascii * list ascii :=
  match p with
  | [] => ([], [])
  | c :: p' =>
      if is_nul c || Ascii.eqb c ","%char then ([], p)
      else let '(tok, e) := scan_token p' in (c :: tok, e)
  end.

(** Dereferencing a [const char *] as a loop condition: the loop stops at
    the terminator. *)
Definition at_end (p : list ascii) : bool :=
  match p with
  | [] => true
  | c :: _ => is_nul c
  end.

(** The outer loop of the [CT_DEBUG] parser.  Every iteration consumes
    at least one byte of the string, so [fuel] iterations are enough for
    a string of [fuel] bytes (see [seed_loop_fuel]). *)
Fixpoint seed_loop (fuel : nat) (start : list ascii) (t : ModuleTable) : ModuleTable :=
  match fuel with
  | O => t
  | S fuel' =>
      if at_end start then t
      else
        let tok := fst (scan_token start) in
        let e := snd (scan_token start) in
        let t' :=
          if (0 <? length tok)%nat && (length tok <? MODULE_NAME_LEN)%nat
          then add_module_locked tok t else t in
        seed_loop fuel' (if at_end e then e else tl e) t'
  end.

Definition seed_modules (env_debug : list ascii) (t : ModuleTable) : ModuleTable :=
  seed_loop (length env_debug) env_debug t.

(** ** Case-insensitive comparison of C strings *)

(** The byte a [const char *] points at; the terminator past the end. *)
Definition deref (p : list ascii) : ascii := hd NUL p.

Definition code (c : ascii) : Z := Z.of_N (N_of_ascii c).

(** The folding of ['A'..'Z'] that [cstr_ieq] applies to each byte. *)
Definition lower (c : ascii) : ascii :=
  if (65 <=? code c) && (code c <=? 90) then char_of_Z (code c + 32) else c.

Fixpoint cstr_ieq (a b : list ascii) : bool :=
  match a, b with
  | x :: a', y :: b' =>
      if is_nul x || is_nul y then Ascii.eqb (deref a) (deref b)
      else if negb (Ascii.eqb (lower x) (lower y)) then false
      else cstr_ieq a' b'
  | _, _ => Ascii.eqb (deref a) (deref b)
  end.

(** ** Levels, call sites, sinks *)

Inductive Level := Info | Warn | Error.

Definition level_to_int (l : Level) : Z :=
  match l with Info => 0 | Warn => 1 | Error => 2 end.

Record source_location := {
  file_name : option (list ascii);   (* nullable C string *)
  line : Z
}.

Record LogEntry := { level : Level; loc : source_location }.

(** A custom sink is a function pointer; the model keeps its identity. *)
Definition SinkFn := nat.

Inductive Dest := Stderr | Custom (fn : SinkFn).

(** ** The world: globals, process environment, output *)

Record Logger := {
  g_log_enabled : bool;
  g_prefix_buf : list ascii;           (* char g_prefix_buf[64] *)
  g_prefix_len : nat;
  g_min_level : Z;
  g_min_level_set_explicitly : bool;
  g_modules : ModuleTable;
  g_modules_set_explicitly : bool;
  g_thread_safe : bool;
  g_sink : option SinkFn;              (* nullptr is None *)
  g_timestamps_enabled : bool;
  g_source_location_enabled : bool;
  g_init_once : bool;                  (* pthread_once_t: the routine has run *)
  use_color_cached : Z;                (* static int cached = -1 in use_color *)
  pid_cached : Z                       (* static int cached = 0 in pid *)
}.

(** What [clock_gettime(CLOCK_REALTIME)] and [gmtime_r] return. *)
Record WallClock := {
  tv_nsec : Z;
  tm_year : Z; tm_mon : Z; tm_mday : Z;
  tm_hour : Z; tm_min : Z; tm_sec : Z
}.

Record Process := {
  env_CT_LOG_LEVEL : option (list ascii);
  env_CT_DEBUG : option (list ascii);
  env_NO_COLOR : option (list ascii);
  stderr_isatty : bool;
  os_getpid : Z;
  wall_clock : WallClock
}.

Record World := {
  globals : Logger;
  process : Process;
  out : list (Dest * list ascii)       (* one entry per sink invocation *)
}.

Definition prefix_buf_size : nat := 64.

Definition initial_modules : ModuleTable :=
  {| names := replicate MAX_MODULES (replicate MODULE_NAME_LEN NUL);
     count := 0%nat; filter_active := false |}.

Definition initial_logger : Logger :=
  {| g_log_enabled := false;
     g_prefix_buf := sv "==ct==" ++ replicate 58 NUL;
     g_prefix_len := 6%nat;
     g_min_level := 0;
     g_min_level_set_explicitly := false;
     g_modules := initial_modules;
     g_modules_set_explicitly := false;
     g_thread_safe := true;
     g_sink := None;
     g_timestamps_enabled := false;
     g_source_location_enabled := false;
     g_init_once := false;
     use_color_cached := -1;
     pid_cached := 0 |}.

Definition initial_world (p : Process) : World :=
  {| globals := initial_logger; process := p; out := [] |}.

(** Stores to the individual globals. *)
Definition store_log_enabled (v : bool) (g : Logger) : Logger :=
  {| g_log_enabled := v; g_prefix_buf := g_prefix_buf g; g_prefix_len := g_prefix_len g;
     g_min_level := g_min_level g; g_min_level_set_explicitly := g_min_level_set_explicitly g;
     g_modules := g_modules g; g_modules_set_explicitly := g_modules_set_explicitly g;
     g_thread_safe := g_thread_safe g; g_sink := g_sink g;
     g_timestamps_enabled := g_timestamps_enabled g;
     g_source_location_enabled := g_source_location_enabled g;
     g_init_once := g_init_once g; use_color_cached := use_color_cached g;
     pid_cached := pid_cached g |}.

Definition store_prefix (buf : list ascii) (len : nat) (g : Logger) : Logger :=
  {| g_log_enabled := g_log_enabled g; g_prefix_buf := buf; g_prefix_len := len;
     g_min_level := g_min_level g; g_min_level_set_explicitly := g_min_level_set_explicitly g;
     g_modules := g_modules g; g_modules_set_explicitly := g_modules_set_explicitly g;
     g_thread_safe := g_thread_safe g; g_sink := g_sink g;
     g_timestamps_enabled := g_timestamps_enabled g;
     g_source_location_enabled := g_source_location_enabled g;
     g_init_once := g_init_once g; use_color_cached := use_color_cached g;
     pid_cached := pid_cached g |}.

Definition store_min_level (v : Z) (g : Logger) : Logger :=
  {| g_log_enabled := g_log_enabled g; g_prefix_buf := g_prefix_buf g; g_prefix_len := g_prefix_len g;
     g_min_level := v; g_min_level_set_explicitly := g_min_level_set_explicitly g;
     g_modules := g_modules g; g_modules_set_explicitly := g_modules_set_explicitly g;
     g_thread_safe := g_thread_safe g; g_sink := g_sink g;
     g_timestamps_enabled := g_timestamps_enabled g;
     g_source_location_enabled := g_source_location_enabled g;
     g_init_once := g_init_once g; use_color_cached := use_color_cached g;
     pid_cached := pid_cached g |}.

Definition store_min_level_set_explicitly (v : bool) (g : Logger) : Logger :=
  {| g_log_enabled := g_log_enabled g; g_prefix_buf := g_prefix_buf g; g_prefix_len := g_prefix_len g;
     g_min_level := g_min_level g; g_min_level_set_explicitly := v;
     g_modules := g_modules g; g_modules_set_explicitly := g_modules_set_explicitly g;
     g_thread_safe := g_thread_safe g; g_sink := g_sink g;
     g_timestamps_enabled := g_timestamps_enabled g;
     g_source_location_enabled := g_source_location_enabled g;
     g_init_once := g_init_once g; use_color_cached := use_color_cached g;
     pid_cached := pid_cached g |}.

Definition store_modules (v : ModuleTable) (g : Logger) : Logger :=
  {| g_log_enabled := g_log_enabled g; g_prefix_buf := g_prefix_buf g; g_prefix_len := g_prefix_len g;
     g_min_level := g_min_level g; g_min_level_set_explicitly := g_min_level_set_explicitly g;
     g_modules := v; g_modules_set_explicitly := g_modules_set_explicitly g;
     g_thread_safe := g_thread_safe g; g_sink := g_sink g;
     g_timestamps_enabled := g_timestamps_enabled g;
     g_source_location_enabled := g_source_location_enabled g;
     g_init_once := g_init_once g; use_color_cached := use_color_cached g;
     pid_cached := pid_cached g |}.

Definition store_modules_set_explicitly (v : bool) (g : Logger) : Logger :=
  {| g_log_enabled := g_log_enabled g; g_prefix_buf := g_prefix_buf g; g_prefix_len := g_prefix_len g;
     g_min_level := g_min_level g; g_min_level_set_explicitly := g_min_level_set_explicitly g;
     g_modules := g_modules g; g_modules_set_explicitly := v;
     g_thread_safe := g_thread_safe g; g_sink := g_sink g;
     g_timestamps_enabled := g_timestamps_enabled g;
     g_source_location_enabled := g_source_location_enabled g;
     g_init_once := g_init_once g; use_color_cached := use_color_cached g;
     pid_cached := pid_cached g |}.

Definition store_thread_safe (v : bool) (g : Logger) : Logger :=
  {| g_log_enabled := g_log_enabled g; g_prefix_buf := g_prefix_buf g; g_prefix_len := g_prefix_len g;
     g_min_level := g_min_level g; g_min_level_set_explicitly := g_min_level_set_explicitly g;
     g_modules := g_modules g; g_modules_set_explicitly := g_modules_set_explicitly g;
     g_thread_safe := v; g_sink := g_sink g;
     g_timestamps_enabled := g_timestamps_enabled g;
     g_source_location_enabled := g_source_location_enabled g;
     g_init_once := g_init_once g; use_color_cached := use_color_cached g;
     pid_cached := pid_cached g |}.

Definition store_sink (v : option SinkFn) (g : Logger) : Logger :=
  {| g_log_enabled := g_log_enabled g; g_prefix_buf := g_prefix_buf g; g_prefix_len := g_prefix_len g;
     g_min_level := g_min_level g; g_min_level_set_explicitly := g_min_level_set_explicitly g;
     g_modules := g_modules g; g_modules_set_explicitly := g_modules_set_explicitly g;
     g_thread_safe := g_thread_safe g; g_sink := v;
     g_timestamps_enabled := g_timestamps_enabled g;
     g_source_location_enabled := g_source_location_enabled g;
     g_init_once := g_init_once g; use_color_cached := use_color_cached g;
     pid_cached := pid_cached g |}.

Definition store_timestamps_enabled (v : bool) (g : Logger) : Logger :=
  {| g_log_enabled := g_log_enabled g; g_prefix_buf := g_prefix_buf g; g_prefix_len := g_prefix_len g;
     g_min_level := g_min_level g; g_min_level_set_explicitly := g_min_level_set_explicitly g;
     g_modules := g_modules g; g_modules_set_explicitly := g_modules_set_explicitly g;
     g_thread_safe := g_thread_safe g; g_sink := g_sink g;
     g_timestamps_enabled := v;
     g_source_location_enabled := g_source_location_enabled g;
     g_init_once := g_init_once g; use_color_cached := use_color_cached g;
     pid_cached := pid_cached g |}.

Definition store_source_location_enabled (v : bool) (g : Logger) : Logger :=
  {| g_log_enabled := g_log_enabled g; g_prefix_buf := g_prefix_buf g; g_prefix_len := g_prefix_len g;
     g_min_level := g_min_level g; g_min_level_set_explicitly := g_min_level_set_explicitly g;
     g_modules := g_modules g; g_modules_set_explicitly := g_modules_set_explicitly g;
     g_thread_safe := g_thread_safe g; g_sink := g_sink g;
     g_timestamps_enabled := g_timestamps_enabled g;
     g_source_location_enabled := v;
     g_init_once := g_init_once g; use_color_cached := use_color_cached g;
     pid_cached := pid_cached g |}.

Definition store_init_once (v : bool) (g : Logger) : Logger :=
  {| g_log_enabled := g_log_enabled g; g_prefix_buf := g_prefix_buf g; g_prefix_len := g_prefix_len g;
     g_min_level := g_min_level g; g_min_level_set_explicitly := g_min_level_set_explicitly g;
     g_modules := g_modules g; g_modules_set_explicitly := g_modules_set_explicitly g;
     g_thread_safe := g_thread_safe g; g_sink := g_sink g;
     g_timestamps_enabled := g_timestamps_enabled g;
     g_source_location_enabled := g_source_location_enabled g;
     g_init_once := v; use_color_cached := use_color_cached g;
     pid_cached := pid_cached g |}.

Definition store_use_color_cached (v : Z) (g : Logger) : Logger :=
  {| g_log_enabled := g_log_enabled g; g_prefix_buf := g_prefix_buf g; g_prefix_len := g_prefix_len g;
     g_min_level := g_min_level g; g_min_level_set_explicitly := g_min_level_set_explicitly g;
     g_modules := g_modules g; g_modules_set_explicitly := g_modules_set_explicitly g;
     g_thread_safe := g_thread_safe g; g_sink := g_sink g;
     g_timestamps_enabled := g_timestamps_enabled g;
     g_source_location_enabled := g_source_location_enabled g;
     g_init_once := g_init_once g; use_color_cached := v;
     pid_cached := pid_cached g |}.

Definition store_pid_cached (v : Z) (g : Logger) : Logger :=
  {| g_log_enabled := g_log_enabled g; g_prefix_buf := g_prefix_buf g; g_prefix_len := g_prefix_len g;
     g_min_level := g_min_level g; g_min_level_set_explicitly := g_min_level_set_explicitly g;
     g_modules := g_modules g; g_modules_set_explicitly := g_modules_set_explicitly g;
     g_thread_safe := g_thread_safe g; g_sink := g_sink g;
     g_timestamps_enabled := g_timestamps_enabled g;
     g_source_location_enabled := g_source_location_enabled g;
     g_init_once := g_init_once g; use_color_cached := use_color_cached g;
     pid_cached := v |}.

(** ** The monad of the operations: state, and the exception of [std::vformat] *)

Inductive outcome (A : Type) := Ret (a : A) | Thrown.
Arguments Ret {A} a.
Arguments Thrown {A}.

Definition M (A : Type) : Type := World -> outcome A * World.

Definition ret {A : Type} (a : A) : M A := fun w => (Ret a, w).

Definition bind {A B : Type} (m : M A) (k : A -> M B) : M B :=
  fun w =>
    match m w with
    | (Ret a, w') => k a w'
    | (Thrown, w') => (Thrown, w')
    end.

Definition throw {A : Type} : M A := fun w => (Thrown, w).

(** [try { m } catch (...) { h }] *)
Definition try_catch {A : Type} (m h : M A) : M A :=
  fun w =>
    match m w with
    | (Thrown, w') => h w'
    | r => r
    end.

Notation "x <- m ;; k" := (bind m (fun x => k))
  (at level 100, m at next level, right associativity).
Notation "m ;; k" := (bind m (fun _ => k))
  (at level 100, right associativity).

Definition load {A : Type} (f : Logger -> A) : M A :=
  fun w => (Ret (f (globals w)), w).

Definition store (f : Logger -> Logger) : M unit :=
  fun w => (Ret tt, {| globals := f (globals w); process := process w; out := out w |}).

Definition getenv (var : Process -> option (list ascii)) : M (option (list ascii)) :=
  fun w => (Ret (var (process w)), w).

Definition when (b : bool) (m : M unit) : M unit := if b then m else ret tt.

(** The world after running [m], and the value it returned. *)
Definition exec {A : Type} (m : M A) (w : World) : World := snd (m w).
Definition result {A : Type} (m : M A) (w : World) : outcome A := fst (m w).

(** ** Lazy initialisation from the environment *)

Definition init_from_env : M unit :=
  lvl_explicit <- load g_min_level_set_explicitly ;;
  when (negb lvl_explicit)
    (env_level <- getenv env_CT_LOG_LEVEL ;;
     match env_level with
     | Some env_level =>
         if cstr_ieq env_level (sv "warn") then store (store_min_level 1)
         else if cstr_ieq env_level (sv "error") then store (store_min_level 2)
         else store (store_min_level 0)
     | None => ret tt
     end) ;;
  mods_explicit <- load g_modules_set_explicitly ;;
  when (negb mods_explicit)
    (env_debug <- getenv env_CT_DEBUG ;;
     match env_debug with
     | Some env_debug =>
         when (negb (is_nul (deref env_debug)))
           (t <- load g_modules ;;
            store (store_modules (seed_modules env_debug t)))
     | None => ret tt
     end).

(** [pthread_once(&g_init_once, init_from_env)] *)
Definition init_once : M unit :=
  done <- load g_init_once ;;
  if done then ret tt
  else init_from_env ;; store (store_init_once true).

(** ** Configuration operations *)

Definition enable_logging : M unit := store (store_log_enabled true).
Definition disable_logging : M unit := store (store_log_enabled false).
Definition log_is_enabled : M bool := load g_log_enabled.

Definition set_prefix (prefix : list ascii) : M unit :=
  let len := length prefix in
  let len := if (prefix_buf_size <=? len)%nat then (prefix_buf_size - 1)%nat else len in
  buf <- load g_prefix_buf ;;
  store (store_prefix (<[len := NUL]> (store_chars (take len prefix) 0%nat buf)) len).

Definition set_min_level (l : Level) : M unit :=
  store (store_min_level_set_explicitly true) ;;
  init_once ;;
  store (store_min_level (level_to_int l)).

(** [min_level()] casts the stored [int] to [Level]; the callers cast it
    back, so the model returns the [int]. *)
Definition min_level : M Z := load g_min_level.

Definition enable_module (name : list ascii) : M unit :=
  if (Nat.eqb (length name) 0) || (MODULE_NAME_LEN <=? length name)%nat then ret tt
  else
    store (store_modules_set_explicitly true) ;;
    init_once ;;
    t <- load g_modules ;;
    store (store_modules (add_module_locked name t)).

Definition disable_module (name : list ascii) : M unit :=
  if Nat.eqb (length name) 0 then ret tt
  else
    store (store_modules_set_explicitly true) ;;
    init_once ;;
    t <- load g_modules ;;
    store (store_modules (remove_module_locked name t)).

Definition enable_all_modules : M unit :=
  store (store_modules_set_explicitly true) ;;
  init_once ;;
  t <- load g_modules ;;
  store (store_modules (clear_modules_locked t)).

Definition module_is_enabled (name : list ascii) : M bool :=
  t <- load g_modules ;;
  ret (module_is_enabled_locked name t).

Definition set_thread_safe (enabled : bool) : M unit :=
  store (store_thread_safe enabled).

Definition set_sink (fn : option SinkFn) : M unit := store (store_sink fn).
Definition reset_sink : M unit := store (store_sink None).

Definition set_timestamps (enabled : bool) : M unit :=
  store (store_timestamps_enabled enabled).

Definition set_source_location (enabled : bool) : M unit :=
  store (store_source_location_enabled enabled).

(** ** Colors *)

Inductive Color :=
  | Reset
  | Dim | Bold | Underline | Italic | Blink | Reverse | Hidden | Strike
  | Black | Red | Green | Yellow | Blue | Magenta | Cyan | White
  | Gray | BrightRed | BrightGreen | BrightYellow | BrightBlue
  | BrightMagenta | BrightCyan | BrightWhite
  | BgBlack | BgRed | BgGreen | BgYellow | BgBlue | BgMagenta | BgCyan | BgWhite
  | BgGray | BgBrightRed | BgBrightGreen | BgBrightYellow | BgBrightBlue
  | BgBrightMagenta | BgBrightCyan | BgBrightWhite.

(** The escape sequence ESC [ n m. *)
Definition sgr (n : string) : list ascii := char_of_Z 27 :: sv "[" ++ sv n ++ sv "m".

Definition color_code (c : Color) : list ascii :=
  match c with
  | Reset => sgr "0"
  | Dim => sgr "2" | Bold => sgr "1" | Underline => sgr "4" | Italic => sgr "3"
  | Blink => sgr "5" | Reverse => sgr "7" | Hidden => sgr "8" | Strike => sgr "9"
  | Black => sgr "30" | Red => sgr "31" | Green => sgr "32" | Yellow => sgr "33"
  | Blue => sgr "34" | Magenta => sgr "35" | Cyan => sgr "36" | White => sgr "37"
  | Gray => sgr "90" | BrightRed => sgr "91" | BrightGreen => sgr "92"
  | BrightYellow => sgr "93" | BrightBlue => sgr "94" | BrightMagenta => sgr "95"
  | BrightCyan => sgr "96" | BrightWhite => sgr "97"
  | BgBlack => sgr "40" | BgRed => sgr "41" | BgGreen => sgr "42" | BgYellow => sgr "43"
  | BgBlue => sgr "44" | BgMagenta => sgr "45" | BgCyan => sgr "46" | BgWhite => sgr "47"
  | BgGray => sgr "100" | BgBrightRed => sgr "101" | BgBrightGreen => sgr "102"
  | BgBrightYellow => sgr "103" | BgBrightBlue => sgr "104"
  | BgBrightMagenta => sgr "105" | BgBrightCyan => sgr "106" | BgBrightWhite => sgr "107"
  end.

Definition isatty_stderr : M bool := fun w => (Ret (stderr_isatty (process w)), w).

Definition use_color : M bool :=
  cached <- load use_color_cached ;;
  if negb (cached =? -1) then ret (negb (cached =? 0))
  else
    no_color <- getenv env_NO_COLOR ;;
    match no_color with
    | Some _ => store (store_use_color_cached 0) ;; ret false
    | None =>
        tty <- isatty_stderr ;;
        store (store_use_color_cached (if tty then 1 else 0)) ;;
        cached' <- load use_color_cached ;;
        ret (negb (cached' =? 0))
    end.

Definition color (c : Color) : M (list ascii) :=
  on <- use_color ;;
  if negb on then ret [] else ret (color_code c).

Definition level_label (l : Level) : list ascii :=
  match l with Info => sv "INFO" | Warn => sv "WARN" | Error => sv "ERROR" end.

Definition level_color (l : Level) : M (list ascii) :=
  match l with Info => color Green | Warn => color Yellow | Error => color Red end.

(** ** System information *)

Definition getpid : M Z := fun w => (Ret (os_getpid (process w)), w).

Definition pid : M Z :=
  cached <- load pid_cached ;;
  if cached =? 0 then
    p <- getpid ;; store (store_pid_cached p) ;; load pid_cached
  else ret cached.

Definition gettime : M WallClock := fun w => (Ret (wall_clock (process w)), w).

(** ** Low-level write *)

(** One invocation of the sink, for a sink that returns.  For the default
    sink the entry stands for the bytes given to the write loop on
    descriptor 2.  A custom sink that throws instead of returning is the
    subject of [Throwing.emit] below. *)
Definition emit (d : Dest) (data : list ascii) : M unit :=
  fun w => (Ret tt, {| globals := globals w; process := process w;
                       out := out w ++ [(d, data)] |}).

(** [write_raw(data, size)], with [data] the [size] bytes at the pointer. *)
Definition write_raw (data : list ascii) : M unit :=
  if Nat.eqb (length data) 0 then ret tt
  else
    sink <- load g_sink ;;
    match sink with
    | Some fn => emit (Custom fn) data
    | None => emit Stderr data
    end.

Definition write_str (value : list ascii) : M unit :=
  if Nat.eqb (length value) 0 then ret tt else write_raw value.

(** [size_t] and [uintptr_t] are 64 bits wide. *)
Definition size_t_bits : Z := 64.
Definition to_size_t (n : Z) : Z := n mod 2 ^ size_t_bits.

Definition dec_buf_size : nat := 32.

(** The digit loop of [write_dec]; [buf] holds the [idx] bytes written so
    far and [room] is [sizeof(buf) - idx]. *)
Fixpoint dec_loop (room : nat) (value : Z) (buf : list ascii) : list ascii :=
  match room with
  | O => buf
  | S room' =>
      if value =? 0 then buf
      else dec_loop room' (value / 10) (buf ++ [char_of_Z (48 + value mod 10)])
  end.

(** The in-place reversal: [n] swaps of [buf[i]] and [buf[idx - 1 - i]]
    starting at [i]. *)
Fixpoint reverse_loop {A : Type} (buf : list A) (idx i n : nat) : list A :=
  match n with
  | O => buf
  | S n' =>
      match buf !! i, buf !! (idx - 1 - i)%nat with
      | Some tmp, Some x =>
          reverse_loop (<[(idx - 1 - i)%nat := tmp]> (<[i := x]> buf)) idx (S i) n'
      | _, _ => buf
      end
  end.

Definition dec_digits (value : Z) : list ascii :=
  let buf := if value =? 0 then [char_of_Z 48] else dec_loop dec_buf_size value [] in
  let idx := length buf in
  reverse_loop buf idx 0%nat (idx / 2)%nat.

Definition write_dec (value : Z) : M unit := write_raw (dec_digits value).

Definition uintptr_nibbles : nat := 16.

(** The nibble loop of [write_hex] for the shifts [4 * (k - 1)], ..., [4], [0]. *)
Fixpoint hex_loop (k : nat) (value : Z) (started : bool) (buf : list ascii)
    : bool * list ascii :=
  match k with
  | O => (started, buf)
  | S k' =>
      let shift := 4 * Z.of_nat k' in
      let nibble := Z.land (Z.shiftr value shift) 15 in
      if negb started && (nibble =? 0) && negb (shift =? 0) then
        hex_loop k' value started buf
      else
        hex_loop k' value true
          (buf ++ [if nibble <? 10 then char_of_Z (48 + nibble)
                   else char_of_Z (97 + (nibble - 10))])
  end.

Definition hex_digits (value : Z) : list ascii :=
  let '(started, buf) := hex_loop uintptr_nibbles value false (sv "0x") in
  if negb started then buf ++ [char_of_Z 48] else buf.

Definition write_hex (value : Z) : M unit := write_raw (hex_digits value).

(** ** Timestamp and call site *)

Definition digit (n : Z) : ascii := char_of_Z (48 + n).

Definition write_timestamp_to (now : WallClock) : list ascii :=
  let millis := Z.quot (tv_nsec now) 1000000 in
  let year := tm_year now + 1900 in
  let mon := tm_mon now + 1 in
  sv "[" ++
  [digit (Z.quot year 1000); digit (Z.rem (Z.quot year 100) 10);
   digit (Z.rem (Z.quot year 10) 10); digit (Z.rem year 10)] ++ sv "-" ++
  [digit (Z.quot mon 10); digit (Z.rem mon 10)] ++ sv "-" ++
  [digit (Z.quot (tm_mday now) 10); digit (Z.rem (tm_mday now) 10)] ++ sv "T" ++
  [digit (Z.quot (tm_hour now) 10); digit (Z.rem (tm_hour now) 10)] ++ sv ":" ++
  [digit (Z.quot (tm_min now) 10); digit (Z.rem (tm_min now) 10)] ++ sv ":" ++
  [digit (Z.quot (tm_sec now) 10); digit (Z.rem (tm_sec now) 10)] ++ sv "." ++
  [digit (Z.quot millis 100); digit (Z.rem (Z.quot millis 10) 10);
   digit (Z.rem millis 10)] ++
  sv "]" ++ sv " ".

(** The scan of [basename_of]: [last] follows the byte after the last
    slash seen. *)
Fixpoint basename_loop (p last : list ascii) : list ascii :=
  match p with
  | [] => last
  | c :: p' =>
      if is_nul c then last
      else if Ascii.eqb c "/"%char then basename_loop p' p'
      else basename_loop p' last
  end.

Definition basename_of (path : option (list ascii)) : list ascii :=
  match path with
  | None => sv "<unknown>"
  | Some p => basename_loop p p
  end.

(** ** The log line *)

Definition read_prefix_snapshot : M (list ascii) :=
  len <- load g_prefix_len ;;
  let len := if (prefix_buf_size <? len)%nat then prefix_buf_size else len in
  buf <- load g_prefix_buf ;;
  ret (take len buf).

Definition write_log_line (lvl : Level) (module message : list ascii)
    (loc : source_location) : M unit :=
  prefix <- read_prefix_snapshot ;;
  ts <- load g_timestamps_enabled ;;
  when ts (now <- gettime ;; write_raw (write_timestamp_to now)) ;;
  (c <- color Dim ;; write_str c) ;;
  write_raw (sv "|") ;;
  (p <- pid ;; write_dec (to_size_t p)) ;;
  write_raw (sv "|") ;;
  (c <- color Reset ;; write_str c) ;;
  write_raw (sv " ") ;;
  (c <- color Gray ;; write_str c) ;;
  (c <- color Italic ;; write_str c) ;;
  write_raw prefix ;;
  write_raw (sv " ") ;;
  (c <- color Reset ;; write_str c) ;;
  (c <- level_color lvl ;; write_str c) ;;
  write_raw (sv "[") ;;
  write_str (level_label lvl) ;;
  write_raw (sv "]") ;;
  (c <- color Reset ;; write_str c) ;;
  sl <- load g_source_location_enabled ;;
  when sl
    (write_raw (sv " ") ;;
     (c <- color Dim ;; write_str c) ;;
     write_raw (c_str (basename_of (file_name loc))) ;;
     write_raw (sv ":") ;;
     write_dec (to_size_t (line loc)) ;;
     (c <- color Reset ;; write_str c)) ;;
  when (negb (Nat.eqb (length module) 0))
    (write_raw (sv " ") ;;
     (c <- color Dim ;; write_str c) ;;
     write_raw (sv "(") ;;
     write_raw module ;;
     write_raw (sv ")") ;;
     (c <- color Reset ;; write_str c)) ;;
  write_raw (sv " ") ;;
  write_raw message.

(** [write_prefix]: the low-level entry point that writes the process
    id, the prefix tag and the level, without taking the output lock. *)
Definition write_prefix (lvl : Level) : M unit :=
  prefix <- read_prefix_snapshot ;;
  (c <- color Dim ;; write_str c) ;;
  write_raw (sv "|") ;;
  (p <- pid ;; write_dec (to_size_t p)) ;;
  write_raw (sv "|") ;;
  (c <- color Reset ;; write_str c) ;;
  write_raw (sv " ") ;;
  (c <- color Gray ;; write_str c) ;;
  (c <- color Italic ;; write_str c) ;;
  write_raw prefix ;;
  write_raw (sv " ") ;;
  (c <- color Reset ;; write_str c) ;;
  (c <- level_color lvl ;; write_str c) ;;
  write_raw (sv "[") ;;
  write_str (level_label lvl) ;;
  write_raw (sv "]") ;;
  (c <- color Reset ;; write_str c) ;;
  write_raw (sv " ").

(** ** The two [log] templates *)

(** [std::vformat(fmt, std::make_format_args(args...))] is outside the
    core: a call either yields the rendered message or throws. *)
Definition vformat (rendering : outcome (list ascii)) : M (list ascii) :=
  fun w => (rendering, w).

Definition fallback : list ascii := sv "coretrace: log format error" ++ [char_of_Z 10].

Definition log (entry : LogEntry) (rendering : outcome (list ascii)) : M unit :=
  init_once ;;
  enabled <- log_is_enabled ;;
  if negb enabled then ret tt
  else
    floor <- min_level ;;
    if level_to_int (level entry) <? floor then ret tt
    else
      try_catch
        (msg <- vformat rendering ;;
         if Nat.eqb (length msg) 0 then ret tt
         else write_log_line (level entry) [] msg (loc entry))
        (write_raw fallback).

Definition log_module (entry : LogEntry) (mod_name : list ascii)
    (rendering : outcome (list ascii)) : M unit :=
  init_once ;;
  enabled <- log_is_enabled ;;
  if negb enabled then ret tt
  else
    floor <- min_level ;;
    if level_to_int (level entry) <? floor then ret tt
    else
      filtered <- (if negb (Nat.eqb (length mod_name) 0)
                   then on <- module_is_enabled mod_name ;; ret (negb on)
                   else ret false) ;;
      if filtered then ret tt
      else
        try_catch
          (msg <- vformat rendering ;;
           if Nat.eqb (length msg) 0 then ret tt
           else write_log_line (level entry) mod_name msg (loc entry))
          (write_raw fallback).

(** * A sink that throws *)

(** [SinkFn] is a plain function pointer, and nothing keeps the function
    behind it from throwing.  [emit] above is the invocation of a sink
    that returns.  This module holds the same writers and the same two
    templates with the invocation of a custom sink left free to throw:
    the exception travels through [write_raw] and the writers, into the
    [try] block of the templates when the line is being written, and out
    of their handler when the fallback text is.  The write loop on
    descriptor 2 does not throw. *)
Module Throwing.

Section Sink.

(** [throws trace fn data]: invoked with [data] after the sinks have
    received [trace], the function [fn] throws instead of returning. *)
Variable throws : list (Dest * list ascii) -> SinkFn -> list ascii -> bool.

(** [sink(data, size)] for a custom sink, the write loop otherwise. *)
Definition emit (d : Dest) (data : list ascii) : M unit :=
  fun w =>
    match d with
    | Custom fn => if throws (out w) fn data then (Thrown, w) else emit (Custom fn) data w
    | Stderr => emit Stderr data w
    end.

(** Whether the sink in place throws when handed [data]. *)
Definition sink_throws (w : World) (data : list ascii) : bool :=
  match g_sink (globals w) with
  | Some fn => throws (out w) fn data
  | None => false
  end.

Definition write_raw (data : list ascii) : M unit :=
  if Nat.eqb (length data) 0 then ret tt
  else
    sink <- load g_sink ;;
    match sink with
    | Some fn => emit (Custom fn) data
    | None => emit Stderr data
    end.

Definition write_str (value : list ascii) : M unit :=
  if Nat.eqb (length value) 0 then ret tt else write_raw value.

Definition write_dec (value : Z) : M unit := write_raw (dec_digits value).

Definition write_log_line (lvl : Level) (module message : list ascii)
    (loc : source_location) : M unit :=
  prefix <- read_prefix_snapshot ;;
  ts <- load g_timestamps_enabled ;;
  when ts (now <- gettime ;; write_raw (write_timestamp_to now)) ;;
  (c <- color Dim ;; write_str c) ;;
  write_raw (sv "|") ;;
  (p <- pid ;; write_dec (to_size_t p)) ;;
  write_raw (sv "|") ;;
  (c <- color Reset ;; write_str c) ;;
  write_raw (sv " ") ;;
  (c <- color Gray ;; write_str c) ;;
  (c <- color Italic ;; write_str c) ;;
  write_raw prefix ;;
  write_raw (sv " ") ;;
  (c <- color Reset ;; write_str c) ;;
  (c <- level_color lvl ;; write_str c) ;;
  write_raw (sv "[") ;;
  write_str (level_label lvl) ;;
  write_raw (sv "]") ;;
  (c <- color Reset ;; write_str c) ;;
  sl <- load g_source_location_enabled ;;
  when sl
    (write_raw (sv " ") ;;
     (c <- color Dim ;; write_str c) ;;
     write_raw (c_str (basename_of (file_name loc))) ;;
     write_raw (sv ":") ;;
     write_dec (to_size_t (line loc)) ;;
     (c <- color Reset ;; write_str c)) ;;
  when (negb (Nat.eqb (length module) 0))
    (write_raw (sv " ") ;;
     (c <- color Dim ;; write_str c) ;;
     write_raw (sv "(") ;;
     write_raw module ;;
     write_raw (sv ")") ;;
     (c <- color Reset ;; write_str c)) ;;
  write_raw (sv " ") ;;
  write_raw message.

Definition log (entry : LogEntry) (rendering : outcome (list ascii)) : M unit :=
  init_once ;;
  enabled <- log_is_enabled ;;
  if negb enabled then ret tt
  else
    floor <- min_level ;;
    if level_to_int (level entry) <? floor then ret tt
    else
      try_catch
        (msg <- vformat rendering ;;
         if Nat.eqb (length msg) 0 then ret tt
         else write_log_line (level entry) [] msg (loc entry))
        (write_raw fallback).

Definition log_module (entry : LogEntry) (mod_name : list ascii)
    (rendering : outcome (list ascii)) : M unit :=
  init_once ;;
  enabled <- log_is_enabled ;;
  if negb enabled then ret tt
  else
    floor <- min_level ;;
    if level_to_int (level entry) <? floor then ret tt
    else
      filtered <- (if negb (Nat.eqb (length mod_name) 0)
                   then on <- module_is_enabled mod_name ;; ret (negb on)
                   else ret false) ;;
      if filtered then ret tt
      else
        try_catch
          (msg <- vformat rendering ;;
           if Nat.eqb (length msg) 0 then ret tt
           else write_log_line (level entry) mod_name msg (loc entry))
          (write_raw fallback).

End Sink.

End Throwing.

(** * Vocabulary of the statements *)

(** ** Digit strings *)

Definition is_dec_digit (c : ascii) : bool := (48 <=? code c) && (code c <=? 57).

Definition is_hex_digit (c : ascii) : bool :=
  is_dec_digit c || ((97 <=? code c) && (code c <=? 102)).

Definition dec_digit_value (c : ascii) : Z := code c - 48.

Definition hex_digit_value (c : ascii) : Z :=
  if is_dec_digit c then code c - 48 else code c - 97 + 10.

(** The number a digit string denotes, most significant digit first. *)
Definition dec_value (ds : list ascii) : Z :=
  fold_left (fun acc c => acc * 10 + dec_digit_value c) ds 0.

Definition hex_value (ds : list ascii) : Z :=
  fold_left (fun acc c => acc * 16 + hex_digit_value c) ds 0.

(** No leading zero, except for the single digit of zero itself. *)
Definition no_leading_zero (ds : list ascii) : Prop :=
  hd_error ds = Some (char_of_Z 48) -> ds = [char_of_Z 48].

(** The canonical minimal representation of [v]: a non-empty string of
    digits that denotes [v] and has no leading zero. *)
Definition canonical_dec (ds : list ascii) (v : Z) : Prop :=
  ds <> [] /\ forallb is_dec_digit ds = true /\ dec_value ds = v /\ no_leading_zero ds.

Definition canonical_hex (ds : list ascii) (v : Z) : Prop :=
  ds <> [] /\ forallb is_hex_digit ds = true /\ hex_value ds = v /\ no_leading_zero ds.

Definition nibble_char (n : Z) : ascii :=
  if n <? 10 then char_of_Z (48 + n) else char_of_Z (97 + (n - 10)).

(** The number a digit string denotes, least significant digit first:
    the order in which the digit loop fills the buffer. *)
Definition lsd_value (ds : list ascii) : Z :=
  fold_right (fun c acc => dec_digit_value c + 10 * acc) 0 ds.

Definition nibble_at (k : nat) (v : Z) : Z :=
  Z.land (Z.shiftr v (4 * Z.of_nat k)) 15.

(** The digits written once the first digit is out: exactly [k] of them. *)
Fixpoint fixed_hex (k : nat) (v : Z) : list ascii :=
  match k with
  | O => []
  | S k' => nibble_char (nibble_at k' v) :: fixed_hex k' v
  end.

(** [n] in decimal on exactly [width] digits, zero-padded. *)
Fixpoint zero_padded (width : nat) (n : Z) : list ascii :=
  match width with
  | O => []
  | S k => zero_padded k (n / 10) ++ [digit (n mod 10)]
  end.

(** ** Sink traces and runs *)

(** The sink that [write_raw] selects. *)
Definition current_dest (w : World) : Dest :=
  match g_sink (globals w) with Some fn => Custom fn | None => Stderr end.

(** Between [w] and [w'] the sink [d], and no other, was invoked, and the
    invocations carried [bytes] in order. *)
Definition emits (w w' : World) (d : Dest) (bytes : list ascii) : Prop :=
  exists chunks,
    out w' = out w ++ chunks /\
    Forall (fun c => fst c = d) chunks /\
    concat (map snd chunks) = bytes.

(** The two function-local caches, read the way [use_color] and [pid] do. *)
Definition color_on (w : World) : bool :=
  let cached := use_color_cached (globals w) in
  if negb (cached =? -1) then negb (cached =? 0)
  else match env_NO_COLOR (process w) with
       | Some _ => false
       | None => stderr_isatty (process w)
       end.

Definition pid_value (w : World) : Z :=
  if pid_cached (globals w) =? 0 then os_getpid (process w)
  else pid_cached (globals w).

Definition zero_caches (g : Logger) : Logger :=
  store_use_color_cached 0 (store_pid_cached 0 g).

(** [w] differs from [w0] at most in its output and in caches that have
    been filled in. *)
Definition same_config (w0 w : World) : Prop :=
  process w = process w0 /\
  zero_caches (globals w) = zero_caches (globals w0) /\
  color_on w = color_on w0 /\
  pid_value w = pid_value w0.

(** Started anywhere in the configuration of [w0], [m] returns [a]
    without throwing and hands [bytes] to the sink of [w0]. *)
Definition ok {A : Type} (w0 : World) (m : M A) (a : A) (bytes : list ascii) : Prop :=
  forall w, same_config w0 w ->
    exists w', m w = (Ret a, w') /\
               emits w w' (current_dest w0) bytes /\
               same_config w0 w'.

(** The escape sequence of a color under the color decision [on]. *)
Definition col (on : bool) (c : Color) : list ascii :=
  if on then color_code c else [].

Definition level_col (on : bool) (l : Level) : list ascii :=
  match l with Info => col on Green | Warn => col on Yellow | Error => col on Red end.

(** ** The bytes of one log line *)

(** The prefix that [read_prefix_snapshot] copies out. *)
Definition prefix_snapshot (w : World) : list ascii :=
  let len := g_prefix_len (globals w) in
  take (if (prefix_buf_size <? len)%nat then prefix_buf_size else len)
       (g_prefix_buf (globals w)).

(** The fields of a line, in the order of emission; [on] is the color
    decision. *)
Definition timestamp_field (enabled : bool) (now : WallClock) : list ascii :=
  if enabled then write_timestamp_to now else [].

Definition pid_field (on : bool) (p : Z) : list ascii :=
  col on Dim ++ sv "|" ++ dec_digits (to_size_t p) ++ sv "|" ++ col on Reset ++ sv " ".

Definition prefix_field (on : bool) (prefix : list ascii) : list ascii :=
  col on Gray ++ col on Italic ++ prefix ++ sv " " ++ col on Reset.

Definition level_field (on : bool) (lvl : Level) : list ascii :=
  level_col on lvl ++ sv "[" ++ level_label lvl ++ sv "]" ++ col on Reset.

Definition location_field (on enabled : bool) (loc : source_location) : list ascii :=
  if enabled then
    sv " " ++ col on Dim ++ c_str (basename_of (file_name loc)) ++ sv ":" ++
    dec_digits (to_size_t (line loc)) ++ col on Reset
  else [].

Definition module_field (on : bool) (module : list ascii) : list ascii :=
  if negb (Nat.eqb (length module) 0) then
    sv " " ++ col on Dim ++ sv "(" ++ module ++ sv ")" ++ col on Reset
  else [].

Definition line_bytes (w : World) (lvl : Level) (module message : list ascii)
    (loc : source_location) : list ascii :=
  let on := color_on w in
  timestamp_field (g_timestamps_enabled (globals w)) (wall_clock (process w)) ++
  pid_field on (pid_value w) ++
  prefix_field on (prefix_snapshot w) ++
  level_field on lvl ++
  location_field on (g_source_location_enabled (globals w)) loc ++
  module_field on module ++
  sv " " ++ message.

(** The ranges of a broken-down UTC time with a four-digit year. *)
Definition valid_clock (now : WallClock) : Prop :=
  0 <= tm_year now + 1900 <= 9999 /\
  0 <= tm_mon now <= 11 /\
  1 <= tm_mday now <= 31 /\
  0 <= tm_hour now <= 23 /\
  0 <= tm_min now <= 59 /\
  0 <= tm_sec now <= 60 /\
  0 <= tv_nsec now <= 999999999.

Abbreviation slash := ("/"%char) (only parsing).

(** ** Lazy initialisation and the calls, step by step *)

(** The level and the module table that the environment asks for. *)
Definition env_level (p : Process) (old : Z) : Z :=
  match env_CT_LOG_LEVEL p with
  | Some s =>
      if cstr_ieq s (sv "warn") then 1
      else if cstr_ieq s (sv "error") then 2 else 0
  | None => old
  end.

Definition env_modules (p : Process) (t : ModuleTable) : ModuleTable :=
  match env_CT_DEBUG p with
  | Some s => if negb (is_nul (deref s)) then seed_modules s t else t
  | None => t
  end.

(** The globals after [init_once]. *)
Definition initialised (w : World) : Logger :=
  if g_init_once (globals w) then globals w
  else
    store_init_once true
      (store_modules
         (if g_modules_set_explicitly (globals w) then g_modules (globals w)
          else env_modules (process w) (g_modules (globals w)))
         (store_min_level
            (if g_min_level_set_explicitly (globals w) then g_min_level (globals w)
             else env_level (process w) (g_min_level (globals w)))
            (globals w))).

(** What remains of a call once the filters have passed. *)
Definition render_and_write (entry : LogEntry) (module : list ascii)
    (rendering : outcome (list ascii)) : M unit :=
  try_catch
    (msg <- vformat rendering ;;
     if Nat.eqb (length msg) 0 then ret tt
     else write_log_line (level entry) module msg (loc entry))
    (write_raw fallback).

(** ** The module table and the operations on it *)

(** The names the table lists: its first [count] rows, read as C strings. *)
Definition entries (t : ModuleTable) : list (list ascii) :=
  map c_str (take (count t) (names t)).

(** The arrays have their declared sizes and [count] stays within them. *)
Definition table_wf (t : ModuleTable) : Prop :=
  length (names t) = MAX_MODULES /\
  Forall (fun row => length row = MODULE_NAME_LEN) (names t) /\
  (count t <= MAX_MODULES)%nat.

(** The invariant of the module table. *)
Definition table_inv (t : ModuleTable) : Prop :=
  table_wf t /\
  length (entries t) = count t /\
  Forall (fun e => (1 <= length e <= 31)%nat) (entries t) /\
  (filter_active t = true <-> count t <> 0%nat).

(** The two statements every accepted module call starts with. *)
Definition module_prelude : M unit :=
  store (store_modules_set_explicitly true) ;; init_once.

Definition with_modules (t : ModuleTable) (w : World) : World :=
  {| globals := store_modules t (globals w); process := process w; out := out w |}.

Definition with_process (p : Process) (w : World) : World :=
  {| globals := globals w; process := p; out := out w |}.

Inductive ExplicitModuleCall :=
  | CallEnable (name : list ascii)
  | CallDisable (name : list ascii)
  | CallEnableAll.

Definition run_call (c : ExplicitModuleCall) : M unit :=
  match c with
  | CallEnable name => enable_module name
  | CallDisable name => disable_module name
  | CallEnableAll => enable_all_modules
  end.

(** The guards at the head of [enable_module] and [disable_module]. *)
Definition rejected (c : ExplicitModuleCall) : bool :=
  match c with
  | CallEnable name => Nat.eqb (length name) 0 || (MODULE_NAME_LEN <=? length name)%nat
  | CallDisable name => Nat.eqb (length name) 0
  | CallEnableAll => false
  end.

(** What an accepted call does to the table, under the state lock. *)
Definition apply_call (c : ExplicitModuleCall) (t : ModuleTable) : ModuleTable :=
  match c with
  | CallEnable name => add_module_locked name t
  | CallDisable name => remove_module_locked name t
  | CallEnableAll => clear_modules_locked t
  end.

(** A module operation: an explicit call, or the seeding from the
    environment that the first [init_once] performs. *)
Inductive ModuleOp :=
  | Explicit (c : ExplicitModuleCall)
  | EnvSeed.

Definition run_op (op : ModuleOp) : M unit :=
  match op with
  | Explicit c => run_call c
  | EnvSeed => init_once
  end.

Fixpoint run_ops (ops : list ModuleOp) : M unit :=
  match ops with
  | [] => ret tt
  | op :: ops' => run_op op ;; run_ops ops'
  end.

(** The table after a sequence of operations in which the environment is
    never consulted: only the accepted explicit calls act. *)
Definition replay_op (t : ModuleTable) (op : ModuleOp) : ModuleTable :=
  match op with
  | Explicit c => if rejected c then t else apply_call c t
  | EnvSeed => t
  end.

Definition replay (ops : list ModuleOp) (t : ModuleTable) : ModuleTable :=
  fold_left replay_op ops t.

(** The names handed to [enable_module] are C strings. *)
Definition names_are_c_strings (op : ModuleOp) : bool :=
  match op with
  | Explicit (CallEnable name) => nul_free name
  | _ => true
  end.

(** ** Scenarios used to exercise the statements *)

Definition demo_clock : WallClock :=
  {| tv_nsec := 456000000; tm_year := 125; tm_mon := 0; tm_mday := 15;
     tm_hour := 10; tm_min := 45; tm_sec := 23 |}.

Definition demo_process : Process :=
  {| env_CT_LOG_LEVEL := None; env_CT_DEBUG := None; env_NO_COLOR := None;
     stderr_isatty := false; os_getpid := 12345; wall_clock := demo_clock |}.

(** The same process started with [CT_LOG_LEVEL=error CT_DEBUG=alloc]. *)
Definition demo_process_env : Process :=
  {| env_CT_LOG_LEVEL := Some (sv "error"); env_CT_DEBUG := Some (sv "alloc");
     env_NO_COLOR := None;
     stderr_isatty := false; os_getpid := 12345; wall_clock := demo_clock |}.

Definition demo_entry (l : Level) : LogEntry :=
  {| level := l; loc := {| file_name := Some (sv "src/example/main.cpp"); line := 42 |} |}.

(** Modules {alloc} registered, logging left disabled. *)
Definition world_disabled : World :=
  exec (enable_module (sv "alloc")) (initial_world demo_process).

(** Logging enabled, minimum level Warn, custom sink 1. *)
Definition world_warn : World :=
  exec (set_sink (Some 1%nat) ;; enable_logging ;; set_min_level Warn)
       (initial_world demo_process).

(** Logging enabled, modules {alloc} registered: the filter is active. *)
Definition world_filtering : World :=
  exec (set_sink (Some 1%nat) ;; enable_logging ;; enable_module (sv "alloc"))
       (initial_world demo_process).

(** Timestamps and call sites switched on, custom sink 1. *)
Definition world_verbose : World :=
  exec (set_sink (Some 1%nat) ;; enable_logging ;; set_timestamps true ;;
        set_source_location true)
       (initial_world demo_process).

(** Custom sink 1, logging enabled, minimum level left at its default. *)
Definition world_enabled : World :=
  exec (set_sink (Some 1%nat) ;; enable_logging) (initial_world demo_process).

Definition long_prefix : list ascii :=
  sv "0123456789abcdef0123456789abcdef0123456789abcdef0123456789abcdef-tail".

Definition demo_ops : list ModuleOp :=
  [EnvSeed; Explicit (CallEnable (sv "trace")); Explicit (CallEnable (sv "alloc"));
   Explicit (CallDisable (sv "alloc")); Explicit (CallEnable (sv "net"));
   Explicit CallEnableAll; Explicit (CallEnable (sv "db"))].

(** The clock of 15 January 10000, and the verbose scenario under it. *)
Definition clock_year_10000 : WallClock :=
  {| tv_nsec := 456000000; tm_year := 8100; tm_mon := 0; tm_mday := 15;
     tm_hour := 10; tm_min := 45; tm_sec := 23 |}.

Definition world_year_10000 : World :=
  with_process
    {| env_CT_LOG_LEVEL := None; env_CT_DEBUG := None; env_NO_COLOR := None;
       stderr_isatty := false; os_getpid := 12345; wall_clock := clock_year_10000 |}
    world_verbose.

(** A sink that throws at every invocation, and one that never does. *)
Definition always_throws (trace : list (Dest * list ascii)) (fn : SinkFn)
    (data : list ascii) : bool := true.

Definition never_throws (trace : list (Dest * list ascii)) (fn : SinkFn)
    (data : list ascii) : bool := false.

(** ** Vocabulary of the further properties *)

(** A comma-separated list cut at its commas. *)
Fixpoint split_commas (s : list ascii) : list (list ascii) :=
  match s with
  | [] => [[]]
  | c :: s' =>
      if Ascii.eqb c ","%char then [] :: split_commas s'
      else match split_commas s' with
           | tok :: rest => (c :: tok) :: rest
           | [] => [[c]]
           end
  end.

(** The tokens of [CT_DEBUG] that are registered: 1 to 31 bytes. *)
Definition valid_token (tok : list ascii) : bool :=
  (0 <? length tok)%nat && (length tok <? MODULE_NAME_LEN)%nat.

Definition register_all (toks : list (list ascii)) (t : ModuleTable) : ModuleTable :=
  fold_left (fun t' tok => add_module_locked tok t') toks t.

(** The table invariant together with the absence of duplicates. *)
Definition table_ok (t : ModuleTable) : Prop :=
  table_inv t /\ NoDup (entries t).

(** A name that [enable_module] accepts and that is a C string. *)
Definition valid_name (name : list ascii) : Prop :=
  nul_free name = true /\ (1 <= length name <= 31)%nat.

(** The bytes of [write_prefix]. *)
Definition prefix_bytes (w : World) (lvl : Level) : list ascii :=
  pid_field (color_on w) (pid_value w) ++
  prefix_field (color_on w) (prefix_snapshot w) ++
  level_field (color_on w) lvl ++ sv " ".

Abbreviation comma := (","%char) (only parsing).

(** The table seen as the ordered list of its names, and what the module
    calls amount to on that list. *)
Definition listed (name : list ascii) (l : list (list ascii)) : bool :=
  existsb (sv_eq name) l.

Definition list_enable (name : list ascii) (l : list (list ascii))
    : list (list ascii) :=
  if listed name l then l
  else if (length l <? MAX_MODULES)%nat then l ++ [name] else l.

Definition list_disable (name : list ascii) (l : list (list ascii))
    : list (list ascii) :=
  List.filter (fun e => negb (sv_eq name e)) l.

Definition list_call (l : list (list ascii)) (c : ExplicitModuleCall)
    : list (list ascii) :=
  if rejected c then l
  else match c with
       | CallEnable name => list_enable name l
       | CallDisable name => list_disable name l
       | CallEnableAll => []
       end.

(** Escape sequences.  [strip_sgr] drops every sequence that starts
    with the escape byte and runs up to the next [m]; [in_seq] tells
    whether the scan is inside one. *)
Definition ESC : ascii := char_of_Z 27.

Fixpoint strip_sgr (in_seq : bool) (s : list ascii) : list ascii :=
  match s with
  | [] => []
  | c :: s' =>
      if in_seq then strip_sgr (negb (Ascii.eqb c "m"%char)) s'
      else if Ascii.eqb c ESC then strip_sgr true s'
      else c :: strip_sgr false s'
  end.

Definition esc_free (s : list ascii) : bool :=
  forallb (fun c => negb (Ascii.eqb c ESC)) s.

(** [a] holds only whole escape sequences, and [p] is what is left of
    it without them. *)
Definition strips_to (a p : list ascii) : Prop :=
  forall b, strip_sgr false (a ++ b) = p ++ strip_sgr false b.

(** The state with the color decision forced to off. *)
Definition uncolored (w : World) : World :=
  {| globals := store_use_color_cached 0 (globals w);
     process := process w; out := out w |}.

(** * Properties *)

(** ** Characters *)

Lemma code_char_of_Z (n : Z) : 0 <= n < 256 -> code (char_of_Z n) = n.
Proof.
  intros Hn. unfold code, char_of_Z.
  rewrite Z.mod_small by lia.
  rewrite N_ascii_embedding by lia.
  lia.
Qed.

Lemma is_nul_true (c : ascii) : is_nul c = true <-> c = NUL.
Proof. unfold is_nul. apply Ascii.eqb_eq. Qed.

Lemma sv_eq_loop_true (a b : list ascii) :
  length a = length b -> sv_eq_loop a b = true -> a = b.
Proof.
  revert b. induction a as [|x a IH]; intros [|y b] Hlen H; simpl in *; try lia; auto.
  destruct (Ascii.eqb x y) eqn:Hxy; simpl in H; [|discriminate].
  apply Ascii.eqb_eq in Hxy. subst y. f_equal. apply IH; [lia|exact H].
Qed.

Lemma sv_eq_loop_refl (a : list ascii) : sv_eq_loop a a = true.
Proof.
  induction a as [|x a IH]; simpl; [reflexivity|].
  rewrite Ascii.eqb_refl. simpl. exact IH.
Qed.

Lemma sv_eq_true (a b : list ascii) : sv_eq a b = true <-> a = b.
Proof.
  unfold sv_eq. split.
  - destruct (Nat.eqb (length a) (length b)) eqn:Hl; simpl; [|discriminate].
    apply Nat.eqb_eq in Hl. apply sv_eq_loop_true; exact Hl.
  - intros ->. rewrite Nat.eqb_refl. simpl. apply sv_eq_loop_refl.
Qed.

Lemma sv_eq_false (a b : list ascii) : sv_eq a b = false <-> a <> b.
Proof.
  rewrite <- sv_eq_true. destruct (sv_eq a b); split; intros; congruence.
Qed.

(** ** Numeric formatting *)

Section ReverseLoop.

Context {A : Type}.

Lemma half_succ_succ (n : nat) : (S (S n) / 2 = S (n / 2))%nat.
Proof.
  replace (S (S n)) with (n + 1 * 2)%nat by lia.
  rewrite Nat.div_add by lia. lia.
Qed.

(** After [length a] swaps the two ends are done; the remaining swaps
    reverse the middle. *)
Lemma reverse_loop_middle (k : nat) :
  forall (a mid b : list A),
    (length mid / 2)%nat = k ->
    length a = length b ->
    reverse_loop (a ++ mid ++ b) (length a + length mid + length b) (length a) k
    = a ++ rev mid ++ b.
Proof.
  induction k as [|k IH]; intros a mid b Hk Hab.
  - destruct mid as [|x [|y mid]]; try reflexivity.
    simpl length in Hk. rewrite half_succ_succ in Hk. discriminate.
  - destruct mid as [|x mid]; [discriminate Hk|].
    destruct mid as [|x' mid0]; [discriminate Hk|].
    destruct (exists_last (l := x' :: mid0)) as [mid' [y Hmid]]; [discriminate|].
    rewrite Hmid in *. clear Hmid x' mid0.
    assert (Hk' : (length mid' / 2)%nat = k).
    { rewrite length_cons, length_app in Hk. simpl length in Hk.
      replace (S (length mid' + 1)) with (S (S (length mid'))) in Hk by lia.
      rewrite half_succ_succ in Hk. lia. }
    assert (Hlen : length (x :: mid' ++ [y]) = S (S (length mid'))).
    { rewrite length_cons, length_app. simpl. lia. }
    rewrite Hlen.
    replace (length a + S (S (length mid')) + length b)%nat
      with (S (S (length a + length mid' + length b))) by lia.
    cbn [reverse_loop].
    replace (S (S (length a + length mid' + length b)) - 1 - length a)%nat
      with (length (a ++ x :: mid')) by (rewrite length_app; simpl; lia).
    assert (Hshape : a ++ (x :: mid' ++ [y]) ++ b = (a ++ x :: mid') ++ y :: b).
    { simpl. rewrite <- !app_assoc. reflexivity. }
    assert (Hi : (a ++ (x :: mid' ++ [y]) ++ b) !! length a = Some x).
    { apply list_lookup_middle. reflexivity. }
    assert (Hj : (a ++ (x :: mid' ++ [y]) ++ b) !! length (a ++ x :: mid') = Some y).
    { rewrite Hshape. apply list_lookup_middle. reflexivity. }
    rewrite Hi, Hj.
    assert (Hswap :
      <[length (a ++ x :: mid') := x]>
        (<[length a := y]> (a ++ (x :: mid' ++ [y]) ++ b))
      = (a ++ [y]) ++ mid' ++ ([x] ++ b)).
    { rewrite insert_app_r_alt by lia. rewrite Nat.sub_diag. simpl.
      replace (a ++ y :: (mid' ++ [y]) ++ b) with ((a ++ y :: mid') ++ y :: b)
        by (simpl; rewrite <- !app_assoc; reflexivity).
      replace (length (a ++ x :: mid')) with (length (a ++ y :: mid'))
        by (rewrite !length_app; reflexivity).
      rewrite insert_app_r_alt by lia. rewrite Nat.sub_diag. simpl.
      rewrite <- !app_assoc. reflexivity. }
    rewrite Hswap.
    specialize (IH (a ++ [y]) mid' ([x] ++ b) Hk').
    rewrite !length_app in IH. simpl length in IH.
    replace (S (S (length a + length mid' + length b)))
      with (length a + 1 + length mid' + (1 + length b))%nat by lia.
    replace (S (length a)) with (length a + 1)%nat by lia.
    rewrite IH by lia.
    simpl. rewrite rev_app_distr. simpl.
    rewrite <- !app_assoc. reflexivity.
Qed.

Lemma reverse_loop_rev (buf : list A) :
  reverse_loop buf (length buf) 0 (length buf / 2) = rev buf.
Proof.
  pose proof (reverse_loop_middle (length buf / 2) [] buf [] eq_refl eq_refl) as H.
  simpl in H. rewrite !app_nil_r in H. rewrite Nat.add_0_r in H. exact H.
Qed.

End ReverseLoop.

(** *** Digits *)

Lemma dec_char_digit (d : Z) :
  0 <= d <= 9 ->
  is_dec_digit (char_of_Z (48 + d)) = true /\ dec_digit_value (char_of_Z (48 + d)) = d.
Proof.
  intros Hd. unfold is_dec_digit, dec_digit_value.
  rewrite code_char_of_Z by lia. split; lia.
Qed.

Lemma char_of_Z_inj (a b : Z) :
  0 <= a < 256 -> 0 <= b < 256 -> char_of_Z a = char_of_Z b -> a = b.
Proof.
  intros Ha Hb H. apply (f_equal code) in H.
  rewrite !code_char_of_Z in H by lia. exact H.
Qed.

(** Decide the integer comparisons of the goal from the hypotheses. *)
Ltac decide_comparisons :=
  repeat match goal with
  | |- context [?a <=? ?b] =>
      first [ replace (a <=? b) with true by lia
            | replace (a <=? b) with false by lia ]
  | |- context [?a <? ?b] =>
      first [ replace (a <? b) with true by lia
            | replace (a <? b) with false by lia ]
  | |- context [?a =? ?b] =>
      first [ replace (a =? b) with true by lia
            | replace (a =? b) with false by lia ]
  end.

Lemma nibble_char_digit (n : Z) :
  0 <= n < 16 ->
  is_hex_digit (nibble_char n) = true /\ hex_digit_value (nibble_char n) = n /\
  (nibble_char n = char_of_Z 48 -> n = 0).
Proof.
  intros Hn. unfold nibble_char, is_hex_digit, hex_digit_value, is_dec_digit.
  destruct (n <? 10) eqn:Hlt.
  - apply Z.ltb_lt in Hlt. rewrite code_char_of_Z by lia.
    decide_comparisons. simpl. repeat split; try lia.
    intros H. apply char_of_Z_inj in H; lia.
  - apply Z.ltb_ge in Hlt. rewrite code_char_of_Z by lia.
    decide_comparisons. simpl. repeat split; try lia.
    intros H. apply char_of_Z_inj in H; lia.
Qed.

Lemma hd_error_rev_last {A : Type} (l : list A) (d : A) :
  l <> [] -> hd_error (rev l) = Some (List.last l d).
Proof.
  intros Hl. destruct (exists_last Hl) as [l' [y ->]].
  rewrite rev_app_distr, last_last. reflexivity.
Qed.

(** *** [write_dec] *)

Lemma dec_value_rev (ds : list ascii) : dec_value (rev ds) = lsd_value ds.
Proof.
  unfold dec_value. induction ds as [|c ds IH]; simpl; [reflexivity|].
  rewrite fold_left_app. simpl. rewrite IH. lia.
Qed.

Lemma dec_loop_zero (room : nat) (buf : list ascii) : dec_loop room 0 buf = buf.
Proof. destruct room; reflexivity. Qed.

Lemma dec_loop_app (room : nat) :
  forall (v : Z) (buf : list ascii), dec_loop room v buf = buf ++ dec_loop room v [].
Proof.
  induction room as [|room IH]; intros v buf; simpl.
  - rewrite app_nil_r. reflexivity.
  - destruct (v =? 0); [rewrite app_nil_r; reflexivity|].
    rewrite (IH _ (buf ++ _)), (IH _ [_]). rewrite <- app_assoc. reflexivity.
Qed.

Lemma dec_loop_spec (room : nat) :
  forall v : Z,
    0 < v < 10 ^ Z.of_nat room ->
    let ds := dec_loop room v [] in
    ds <> [] /\ forallb is_dec_digit ds = true /\ lsd_value ds = v /\
    List.last ds (char_of_Z 48) <> char_of_Z 48.
Proof.
  induction room as [|room IH]; intros v Hv.
  - simpl in Hv. lia.
  - cbn [dec_loop]. replace (v =? 0) with false by lia.
    rewrite dec_loop_app. simpl app.
    assert (Hd : 0 <= v mod 10 <= 9) by (pose proof (Z.mod_pos_bound v 10); lia).
    destruct (dec_char_digit _ Hd) as [Hdig Hval].
    destruct (Z.eq_dec (v / 10) 0) as [Hz|Hnz].
    + rewrite Hz, dec_loop_zero. simpl. rewrite Hdig, Hval.
      assert (v = v mod 10) by (pose proof (Z.div_mod v 10); lia).
      repeat split; try discriminate; try lia.
      intros H'. apply char_of_Z_inj in H'; lia.
    + assert (Hq : 0 < v / 10 < 10 ^ Z.of_nat room).
      { split.
        - pose proof (Z.div_pos v 10). lia.
        - apply Z.div_lt_upper_bound; [lia|].
          rewrite Nat2Z.inj_succ, Z.pow_succ_r in Hv by lia. lia. }
      destruct (IH _ Hq) as (Hne & Hall & Hv' & Hlast).
      cbv zeta. repeat split.
      * discriminate.
      * simpl. rewrite Hdig, Hall. reflexivity.
      * simpl. rewrite Hval. fold (lsd_value (dec_loop room (v / 10) [])).
        rewrite Hv'. pose proof (Z.div_mod v 10). lia.
      * destruct (dec_loop room (v / 10) []) as [|c ds] eqn:E; [congruence|].
        exact Hlast.
Qed.

Lemma dec_digits_canonical (v : Z) :
  0 <= v < 10 ^ Z.of_nat dec_buf_size -> canonical_dec (dec_digits v) v.
Proof.
  intros Hv. unfold dec_digits.
  destruct (Z.eq_dec v 0) as [->|Hnz].
  - simpl. unfold canonical_dec, no_leading_zero. repeat split; try discriminate.
  - replace (v =? 0) with false by lia.
    rewrite reverse_loop_rev.
    destruct (dec_loop_spec dec_buf_size v) as (Hne & Hall & Hval & Hlast); [lia|].
    unfold canonical_dec, no_leading_zero. repeat split.
    + intros H. apply (f_equal (@rev ascii)) in H. rewrite rev_involutive in H.
      exact (Hne H).
    + rewrite forallb_forall in *. intros c Hc. apply Hall.
      apply in_rev. exact Hc.
    + rewrite dec_value_rev. exact Hval.
    + rewrite (hd_error_rev_last _ (char_of_Z 48)) by exact Hne.
      intros H. congruence.
Qed.

(** *** [write_hex] *)

Lemma nibble_at_eq (k : nat) (v : Z) :
  nibble_at k v = (v / 16 ^ Z.of_nat k) mod 16.
Proof.
  unfold nibble_at. rewrite Z.shiftr_div_pow2 by lia.
  change 15 with (Z.ones 4). rewrite Z.land_ones by lia.
  rewrite Z.pow_mul_r by lia. reflexivity.
Qed.

Lemma nibble_at_bound (k : nat) (v : Z) : 0 <= nibble_at k v < 16.
Proof. rewrite nibble_at_eq. apply Z.mod_pos_bound. lia. Qed.

Lemma hex_loop_step (k : nat) (v : Z) (started : bool) (buf : list ascii) :
  hex_loop (S k) v started buf
  = if negb started && (nibble_at k v =? 0) && negb (4 * Z.of_nat k =? 0)
    then hex_loop k v started buf
    else hex_loop k v true (buf ++ [nibble_char (nibble_at k v)]).
Proof. reflexivity. Qed.

Lemma hex_loop_started (k : nat) :
  forall (v : Z) (buf : list ascii),
    hex_loop k v true buf = (true, buf ++ fixed_hex k v).
Proof.
  induction k as [|k IH]; intros v buf; simpl.
  - rewrite app_nil_r. reflexivity.
  - rewrite IH. rewrite <- app_assoc. reflexivity.
Qed.

Lemma fixed_hex_digits (k : nat) (v : Z) : forallb is_hex_digit (fixed_hex k v) = true.
Proof.
  induction k as [|k IH]; simpl; [reflexivity|].
  destruct (nibble_char_digit _ (nibble_at_bound k v)) as [H _].
  rewrite H, IH. reflexivity.
Qed.

Lemma fixed_hex_value (k : nat) :
  forall (v acc : Z),
    0 <= v ->
    fold_left (fun a c => a * 16 + hex_digit_value c) (fixed_hex k v) acc
    = acc * 16 ^ Z.of_nat k + v mod 16 ^ Z.of_nat k.
Proof.
  induction k as [|k IH]; intros v acc Hv.
  - simpl. rewrite Z.mod_1_r. lia.
  - cbn [fixed_hex fold_left]. rewrite IH by exact Hv.
    destruct (nibble_char_digit _ (nibble_at_bound k v)) as (_ & Hval & _).
    rewrite Hval, nibble_at_eq.
    rewrite Nat2Z.inj_succ, Z.pow_succ_r by lia.
    rewrite (Z.mul_comm 16 (16 ^ Z.of_nat k)).
    rewrite (Z.rem_mul_r v (16 ^ Z.of_nat k) 16) by lia.
    ring.
Qed.

Lemma hex_loop_unstarted (k : nat) :
  forall (v : Z) (buf : list ascii),
    0 <= v < 16 ^ Z.of_nat (S k) ->
    exists ds, hex_loop (S k) v false buf = (true, buf ++ ds) /\ canonical_hex ds v.
Proof.
  induction k as [|k IH]; intros v buf Hv.
  - exists [nibble_char (nibble_at 0 v)]. split.
    { cbn [hex_loop]. change (4 * Z.of_nat 0 =? 0) with true.
      cbn [negb]. rewrite andb_false_r. reflexivity. }
    destruct (nibble_char_digit _ (nibble_at_bound 0 v)) as (Hdig & Hval & _).
    unfold canonical_hex, no_leading_zero, hex_value. simpl.
    rewrite Hdig, Hval, nibble_at_eq. simpl in Hv.
    rewrite Z.div_1_r, Z.mod_small by lia.
    repeat split; try discriminate. intros H. congruence.
  - rewrite hex_loop_step.
    assert (Hs : (4 * Z.of_nat (S k) =? 0) = false) by (apply Z.eqb_neq; lia).
    rewrite Hs. clear Hs.
    assert (Hnib : nibble_at (S k) v = v / 16 ^ Z.of_nat (S k)).
    { rewrite nibble_at_eq. apply Z.mod_small. split.
      - apply Z.div_pos; lia.
      - apply Z.div_lt_upper_bound; [lia|].
        rewrite (Nat2Z.inj_succ (S k)), Z.pow_succ_r in Hv by lia. lia. }
    destruct (nibble_at (S k) v =? 0) eqn:Hz; cbn [negb andb].
    + apply Z.eqb_eq in Hz. apply IH. split; [lia|].
      rewrite Hnib in Hz.
      apply Z.div_small_iff in Hz; lia.
    + apply Z.eqb_neq in Hz.
      rewrite hex_loop_started. rewrite <- app_assoc.
      eexists. split; [reflexivity|].
      destruct (nibble_char_digit _ (nibble_at_bound (S k) v)) as (Hdig & Hval & Hzero).
      unfold canonical_hex, no_leading_zero, hex_value.
      repeat split.
      * discriminate.
      * cbn [app forallb]. rewrite Hdig. apply fixed_hex_digits.
      * cbn [app fold_left]. rewrite fixed_hex_value by lia.
        rewrite Hval, Hnib. pose proof (Z.div_mod v (16 ^ Z.of_nat (S k))). lia.
      * cbn [app hd_error]. intros H. exfalso. apply Hz, Hzero. congruence.
Qed.

Lemma hex_digits_canonical (v : Z) :
  0 <= v < 16 ^ Z.of_nat uintptr_nibbles ->
  exists ds, hex_digits v = sv "0x" ++ ds /\ canonical_hex ds v.
Proof.
  intros Hv. unfold hex_digits, uintptr_nibbles in *.
  destruct (hex_loop_unstarted 15 v (sv "0x") Hv) as (ds & Hloop & Hcan).
  rewrite Hloop. exists ds. split; [reflexivity|exact Hcan].
Qed.

(** ** What a computation hands to the sink *)

Lemma emits_nil (w w' : World) (d : Dest) : out w' = out w -> emits w w' d [].
Proof. intros H. exists []. rewrite app_nil_r. auto. Qed.

Lemma emits_trans (w1 w2 w3 : World) (d : Dest) (b1 b2 : list ascii) :
  emits w1 w2 d b1 -> emits w2 w3 d b2 -> emits w1 w3 d (b1 ++ b2).
Proof.
  intros (c1 & H1 & F1 & E1) (c2 & H2 & F2 & E2).
  exists (c1 ++ c2). repeat split.
  - rewrite H2, H1, app_assoc. reflexivity.
  - apply Forall_app; auto.
  - rewrite map_app, concat_app, E1, E2. reflexivity.
Qed.

Lemma same_config_refl (w : World) : same_config w w.
Proof. repeat split. Qed.

Lemma same_config_field {A : Type} (f : Logger -> A) (w0 w : World) :
  (forall g, f (zero_caches g) = f g) ->
  same_config w0 w -> f (globals w) = f (globals w0).
Proof.
  intros Hf (_ & Hz & _). rewrite <- (Hf (globals w)), <- (Hf (globals w0)), Hz.
  reflexivity.
Qed.

Lemma same_config_dest (w0 w : World) :
  same_config w0 w -> current_dest w = current_dest w0.
Proof.
  intros H. unfold current_dest.
  rewrite (same_config_field g_sink w0 w); [reflexivity|reflexivity|exact H].
Qed.

Lemma use_color_run (w : World) :
  exists w',
    use_color w = (Ret (color_on w), w') /\ out w' = out w /\
    process w' = process w /\ zero_caches (globals w') = zero_caches (globals w) /\
    color_on w' = color_on w /\ pid_value w' = pid_value w.
Proof.
  unfold use_color, bind, load, getenv, isatty_stderr, store, ret, color_on, pid_value.
  destruct w as [g p o]. destruct g. simpl.
  destruct (use_color_cached0 =? -1) eqn:Hcache; simpl.
  - destruct (env_NO_COLOR p) eqn:Hnc; simpl.
    + eexists. split; [reflexivity|]. simpl. rewrite ?Hnc. repeat split.
    + destruct (stderr_isatty p) eqn:Htty; simpl;
        (eexists; split; [reflexivity|]); simpl; rewrite ?Hnc, ?Htty; repeat split.
  - eexists. split; [reflexivity|]. simpl. rewrite Hcache. repeat split.
Qed.

Lemma pid_run (w : World) :
  exists w',
    pid w = (Ret (pid_value w), w') /\ out w' = out w /\
    process w' = process w /\ zero_caches (globals w') = zero_caches (globals w) /\
    color_on w' = color_on w /\ pid_value w' = pid_value w.
Proof.
  unfold pid, bind, load, getpid, store, ret, color_on, pid_value.
  destruct w as [g p o]. destruct g. simpl.
  destruct (pid_cached0 =? 0) eqn:Hcache; simpl.
  - eexists. split; [reflexivity|]. simpl. repeat split.
    destruct (os_getpid p =? 0); reflexivity.
  - eexists. split; [reflexivity|]. simpl. rewrite Hcache. repeat split.
Qed.

(** [write_raw] invokes the current sink once, unless there is nothing
    to write. *)
Lemma write_raw_eq (data : list ascii) (w : World) :
  write_raw data w
  = (Ret tt,
     match data with
     | [] => w
     | _ => {| globals := globals w; process := process w;
               out := out w ++ [(current_dest w, data)] |}
     end).
Proof.
  unfold write_raw, bind, load, emit, current_dest.
  destruct data; simpl; [reflexivity|].
  destruct (g_sink (globals w)); reflexivity.
Qed.

Section Run.

Variable w0 : World.

Lemma ok_ret {A : Type} (a : A) : ok w0 (ret a) a [].
Proof.
  intros w Hw. exists w. repeat split; try apply Hw.
  apply emits_nil. reflexivity.
Qed.

Lemma ok_bind {A B : Type} (m : M A) (k : A -> M B) (a : A) (b : B)
    (b1 b2 : list ascii) :
  ok w0 m a b1 -> ok w0 (k a) b b2 -> ok w0 (bind m k) b (b1 ++ b2).
Proof.
  intros Hm Hk w Hw.
  destruct (Hm w Hw) as (w1 & E1 & Em1 & C1).
  destruct (Hk w1 C1) as (w2 & E2 & Em2 & C2).
  exists w2. unfold bind. rewrite E1. repeat split; try apply C2.
  - exact E2.
  - eapply emits_trans; eassumption.
Qed.

Lemma ok_bytes {A : Type} (m : M A) (a : A) (b b' : list ascii) :
  ok w0 m a b -> b = b' -> ok w0 m a b'.
Proof. intros H <-. exact H. Qed.

Lemma ok_load {A : Type} (f : Logger -> A) :
  (forall g, f (zero_caches g) = f g) -> ok w0 (load f) (f (globals w0)) [].
Proof.
  intros Hf w Hw. exists w. repeat split; try apply Hw.
  - unfold load. rewrite (same_config_field f w0 w Hf Hw). reflexivity.
  - apply emits_nil. reflexivity.
Qed.

Lemma ok_gettime : ok w0 gettime (wall_clock (process w0)) [].
Proof.
  intros w Hw. exists w. repeat split; try apply Hw.
  - unfold gettime. destruct Hw as [-> _]. reflexivity.
  - apply emits_nil. reflexivity.
Qed.

Lemma ok_when (b : bool) (m : M unit) (bytes : list ascii) :
  ok w0 m tt bytes -> ok w0 (when b m) tt (if b then bytes else []).
Proof. intros H. destruct b; simpl; [exact H|apply ok_ret]. Qed.

Lemma ok_use_color : ok w0 use_color (color_on w0) [].
Proof.
  intros w Hw. destruct (use_color_run w) as (w' & E & Ho & Hp & Hz & Hc & Hpid).
  destruct Hw as (Hp0 & Hz0 & Hc0 & Hpid0).
  exists w'. rewrite E, Hc0. repeat split; try congruence.
  apply emits_nil. exact Ho.
Qed.

Lemma ok_color (c : Color) : ok w0 (color c) (col (color_on w0) c) [].
Proof.
  unfold color. eapply ok_bytes.
  - eapply ok_bind; [apply ok_use_color|].
    unfold col. destruct (color_on w0); simpl; apply ok_ret.
  - reflexivity.
Qed.

Lemma ok_level_color (l : Level) :
  ok w0 (level_color l) (level_col (color_on w0) l) [].
Proof. destruct l; apply ok_color. Qed.

Lemma ok_pid : ok w0 pid (pid_value w0) [].
Proof.
  intros w Hw. destruct (pid_run w) as (w' & E & Ho & Hp & Hz & Hc & Hpid).
  destruct Hw as (Hp0 & Hz0 & Hc0 & Hpid0).
  exists w'. rewrite E, Hpid0. repeat split; try congruence.
  apply emits_nil. exact Ho.
Qed.

Lemma ok_write_raw (data : list ascii) : ok w0 (write_raw data) tt data.
Proof.
  intros w Hw. rewrite write_raw_eq. eexists. split; [reflexivity|].
  destruct data as [|c data].
  - repeat split; try apply Hw. apply emits_nil. reflexivity.
  - split.
    + exists [(current_dest w0, c :: data)]. repeat split.
      * simpl. rewrite (same_config_dest _ _ Hw). reflexivity.
      * constructor; [reflexivity|constructor].
      * simpl. rewrite app_nil_r. reflexivity.
    + destruct Hw as (Hp & Hz & Hc & Hpid). repeat split; assumption.
Qed.

Lemma ok_write_str (value : list ascii) : ok w0 (write_str value) tt value.
Proof.
  unfold write_str. destruct value as [|c value]; simpl.
  - apply ok_ret.
  - apply ok_write_raw.
Qed.

Lemma ok_write_dec (value : Z) : ok w0 (write_dec value) tt (dec_digits value).
Proof. apply ok_write_raw. Qed.

Lemma ok_write_color (c : Color) :
  ok w0 (s <- color c ;; write_str s) tt (col (color_on w0) c).
Proof.
  eapply ok_bytes; [eapply ok_bind; [apply ok_color|apply ok_write_str]|].
  reflexivity.
Qed.

Lemma ok_write_level_color (l : Level) :
  ok w0 (s <- level_color l ;; write_str s) tt (level_col (color_on w0) l).
Proof.
  eapply ok_bytes; [eapply ok_bind; [apply ok_level_color|apply ok_write_str]|].
  reflexivity.
Qed.

End Run.

(** ** The bytes of one log line *)

Lemma ok_read_prefix_snapshot (w0 : World) :
  ok w0 read_prefix_snapshot (prefix_snapshot w0) [].
Proof.
  unfold read_prefix_snapshot, prefix_snapshot. eapply ok_bytes.
  - eapply ok_bind; [apply (ok_load w0 g_prefix_len); reflexivity|].
    cbv beta. eapply ok_bind; [apply (ok_load w0 g_prefix_buf); reflexivity|].
    cbv beta. apply ok_ret.
  - reflexivity.
Qed.

(** One step of a sequence: run the first command with the matching
    rule and go on with the rest. *)
Ltac ok_atom :=
  first
    [ apply ok_write_color
    | apply ok_write_level_color
    | apply ok_write_raw
    | apply ok_write_str
    | apply ok_write_dec
    | apply ok_read_prefix_snapshot
    | apply ok_gettime
    | apply ok_pid
    | apply ok_ret
    | (apply ok_load; reflexivity) ].

Ltac ok_seq :=
  cbv beta;
  first
    [ ok_atom
    | eapply ok_bind; [ok_atom|ok_seq]
    | eapply ok_bind; [apply ok_when; ok_seq|ok_seq]
    | eapply ok_bind; [ok_seq|ok_seq] ].

Lemma ok_write_log_line (w0 : World) (lvl : Level) (module message : list ascii)
    (loc : source_location) :
  ok w0 (write_log_line lvl module message loc) tt
     (line_bytes w0 lvl module message loc).
Proof.
  unfold write_log_line. eapply ok_bytes.
  - ok_seq.
  - unfold line_bytes, timestamp_field, pid_field, prefix_field, level_field,
      location_field, module_field.
    destruct (g_timestamps_enabled (globals w0));
      destruct (g_source_location_enabled (globals w0));
      destruct (negb (Nat.eqb (length module) 0));
      cbn [app]; rewrite <- ?app_assoc; cbn [app]; reflexivity.
Qed.

(** Running [write_log_line] from [w] itself. *)
Lemma write_log_line_run (w : World) (lvl : Level) (module message : list ascii)
    (loc : source_location) :
  exists w',
    write_log_line lvl module message loc w = (Ret tt, w') /\
    emits w w' (current_dest w) (line_bytes w lvl module message loc).
Proof.
  destruct (ok_write_log_line w lvl module message loc w (same_config_refl w))
    as (w' & E & Em & _).
  exists w'. split; assumption.
Qed.

(** ** Lazy initialisation *)

Ltac split_env_cases :=
  repeat match goal with
  | |- context [cstr_ieq ?a ?b] => destruct (cstr_ieq a b); simpl
  | |- context [is_nul ?a] => destruct (is_nul a); simpl
  end.

Lemma init_from_env_eq (w : World) :
  init_from_env w
  = (Ret tt,
     {| globals :=
          store_modules
            (if g_modules_set_explicitly (globals w) then g_modules (globals w)
             else env_modules (process w) (g_modules (globals w)))
            (store_min_level
               (if g_min_level_set_explicitly (globals w) then g_min_level (globals w)
                else env_level (process w) (g_min_level (globals w)))
               (globals w));
        process := process w;
        out := out w |}).
Proof.
  unfold init_from_env, env_level, env_modules, bind, load, when, getenv, store, ret.
  destruct w as [g p o]. destruct g. destruct p as [lvl dbg nc tty opid clk]. simpl.
  destruct g_min_level_set_explicitly0, g_modules_set_explicitly0; simpl;
    destruct lvl as [lvl|]; simpl; destruct dbg as [dbg|]; simpl;
    split_env_cases; reflexivity.
Qed.

Lemma init_once_eq (w : World) :
  init_once w
  = (Ret tt, {| globals := initialised w; process := process w; out := out w |}).
Proof.
  unfold init_once, initialised, bind, load, ret.
  destruct (g_init_once (globals w)) eqn:Hdone.
  - destruct w; reflexivity.
  - rewrite init_from_env_eq. reflexivity.
Qed.

Lemma exec_init_once (w : World) :
  exec init_once w
  = {| globals := initialised w; process := process w; out := out w |}.
Proof. unfold exec. rewrite init_once_eq. reflexivity. Qed.

Lemma init_once_done (w : World) :
  g_init_once (globals w) = true -> exec init_once w = w.
Proof.
  intros H. rewrite exec_init_once. unfold initialised. rewrite H.
  destruct w; reflexivity.
Qed.

Lemma initialised_fields (w : World) :
  g_log_enabled (initialised w) = g_log_enabled (globals w) /\
  g_sink (initialised w) = g_sink (globals w) /\
  g_prefix_buf (initialised w) = g_prefix_buf (globals w) /\
  g_prefix_len (initialised w) = g_prefix_len (globals w) /\
  g_timestamps_enabled (initialised w) = g_timestamps_enabled (globals w) /\
  g_source_location_enabled (initialised w) = g_source_location_enabled (globals w) /\
  g_init_once (initialised w) = true.
Proof.
  unfold initialised. destruct (g_init_once (globals w)) eqn:H; simpl; auto 10.
Qed.

Lemma current_dest_init_once (w : World) :
  current_dest (exec init_once w) = current_dest w.
Proof.
  rewrite exec_init_once. unfold current_dest. simpl.
  destruct (initialised_fields w) as (_ & -> & _). reflexivity.
Qed.

(** ** The two [log] templates, step by step *)

Lemma log_eq (entry : LogEntry) (rendering : outcome (list ascii)) (w : World) :
  log entry rendering w
  = let w1 := exec init_once w in
    if negb (g_log_enabled (globals w)) then (Ret tt, w1)
    else if level_to_int (level entry) <? g_min_level (globals w1) then (Ret tt, w1)
    else render_and_write entry [] rendering w1.
Proof.
  unfold log. unfold bind at 1. rewrite init_once_eq, exec_init_once.
  unfold bind, log_is_enabled, min_level, load, ret. simpl.
  destruct (initialised_fields w) as (-> & _).
  destruct (g_log_enabled (globals w)); simpl; [|reflexivity].
  destruct (level_to_int (level entry) <? g_min_level (initialised w)); reflexivity.
Qed.

Lemma log_module_eq (entry : LogEntry) (mod_name : list ascii)
    (rendering : outcome (list ascii)) (w : World) :
  log_module entry mod_name rendering w
  = let w1 := exec init_once w in
    if negb (g_log_enabled (globals w)) then (Ret tt, w1)
    else if level_to_int (level entry) <? g_min_level (globals w1) then (Ret tt, w1)
    else if negb (Nat.eqb (length mod_name) 0)
            && negb (module_is_enabled_locked mod_name (g_modules (globals w1)))
    then (Ret tt, w1)
    else render_and_write entry mod_name rendering w1.
Proof.
  unfold log_module. unfold bind at 1. rewrite init_once_eq, exec_init_once.
  unfold bind, log_is_enabled, min_level, module_is_enabled, load, ret. simpl.
  destruct (initialised_fields w) as (-> & _).
  destruct (g_log_enabled (globals w)); simpl; [|reflexivity].
  destruct (level_to_int (level entry) <? g_min_level (initialised w)); [reflexivity|].
  destruct (Nat.eqb (length mod_name) 0); simpl; [reflexivity|].
  destruct (module_is_enabled_locked mod_name (g_modules (initialised w)));
    reflexivity.
Qed.

Lemma render_and_write_message (entry : LogEntry) (module msg : list ascii) (w : World) :
  msg <> [] ->
  exists w',
    render_and_write entry module (Ret msg) w = (Ret tt, w') /\
    emits w w' (current_dest w) (line_bytes w (level entry) module msg (loc entry)).
Proof.
  intros Hmsg. unfold render_and_write, try_catch, bind, vformat.
  destruct msg as [|c msg]; [congruence|]. simpl.
  destruct (write_log_line_run w (level entry) module (c :: msg) (loc entry))
    as (w' & E & Em).
  exists w'. rewrite E. split; [reflexivity|exact Em].
Qed.

Lemma render_and_write_thrown (entry : LogEntry) (module : list ascii) (w : World) :
  render_and_write entry module Thrown w
  = (Ret tt, {| globals := globals w; process := process w;
                out := out w ++ [(current_dest w, fallback)] |}).
Proof.
  unfold render_and_write, try_catch, bind, vformat. simpl.
  rewrite write_raw_eq. reflexivity.
Qed.

Lemma render_and_write_empty (entry : LogEntry) (module : list ascii) (w : World) :
  render_and_write entry module (Ret []) w = (Ret tt, w).
Proof. reflexivity. Qed.

Lemma render_and_write_returns (entry : LogEntry) (module : list ascii)
    (rendering : outcome (list ascii)) (w : World) :
  fst (render_and_write entry module rendering w) = Ret tt.
Proof.
  destruct rendering as [msg|].
  - destruct msg as [|c msg]; [reflexivity|].
    destruct (render_and_write_message entry module (c :: msg) w) as (w' & E & _);
      [discriminate|].
    rewrite E. reflexivity.
  - rewrite render_and_write_thrown. reflexivity.
Qed.

Lemma emits_from (w w1 w' : World) (d : Dest) (bytes : list ascii) :
  out w1 = out w -> emits w1 w' d bytes -> emits w w' d bytes.
Proof. intros Ho (chunks & H & F & E). exists chunks. rewrite <- Ho. auto. Qed.

Lemma out_exec_init_once (w : World) : out (exec init_once w) = out w.
Proof. rewrite exec_init_once. reflexivity. Qed.

(** The message is the tail of every line. *)
Lemma line_bytes_ends_with_message (w : World) (lvl : Level)
    (module message : list ascii) (loc : source_location) :
  exists header, line_bytes w lvl module message loc = header ++ message.
Proof.
  unfold line_bytes. eexists. rewrite !app_assoc. reflexivity.
Qed.

Lemma find_module_from_None (name : list ascii) (rows : list (list ascii)) :
  forall n i,
    find_module_from name rows n i = None <-> ~ In name (map c_str (take n rows)).
Proof.
  induction rows as [|row rows IH]; intros n i.
  - destruct n; simpl; tauto.
  - destruct n as [|n]; simpl; [tauto|].
    destruct (sv_eq name (c_str row)) eqn:E.
    + apply sv_eq_true in E. split; [discriminate|]. intros H. exfalso. apply H. auto.
    + apply sv_eq_false in E. rewrite IH. split.
      * intros H [H'|H']; [congruence|auto].
      * intros H H'. apply H. auto.
Qed.

Lemma find_module_None (name : list ascii) (t : ModuleTable) :
  find_module name t = None <-> ~ In name (entries t).
Proof. apply find_module_from_None. Qed.

(** A call that passes the filters and renders a non-empty message
    sends exactly the bytes of its line to the current sink. *)
Lemma log_module_emits_line (entry : LogEntry) (mod_name msg : list ascii) (w : World) :
  let w1 := exec init_once w in
  g_log_enabled (globals w) = true ->
  g_min_level (globals w1) <= level_to_int (level entry) ->
  Nat.eqb (length mod_name) 0
  || module_is_enabled_locked mod_name (g_modules (globals w1)) = true ->
  msg <> [] ->
  emits w (exec (log_module entry mod_name (Ret msg)) w) (current_dest w)
        (line_bytes w1 (level entry) mod_name msg (loc entry)).
Proof.
  intros w1 Hen Hge Hpass Hmsg.
  pose proof (out_exec_init_once w) as Ho. fold w1 in Ho.
  pose proof (current_dest_init_once w) as Hd. fold w1 in Hd.
  unfold exec at 1. rewrite log_module_eq. fold w1. cbv zeta.
  rewrite Hen. apply Z.ltb_ge in Hge. rewrite Hge. simpl.
  assert (Hf : negb (Nat.eqb (length mod_name) 0)
               && negb (module_is_enabled_locked mod_name (g_modules (globals w1)))
               = false).
  { destruct (Nat.eqb (length mod_name) 0); simpl in *; [reflexivity|].
    rewrite Hpass. reflexivity. }
  rewrite Hf.
  destruct (render_and_write_message entry mod_name msg w1 Hmsg) as (w' & E & Em).
  rewrite E. simpl. rewrite <- Hd. eapply emits_from; eassumption.
Qed.

Lemma log_emits_line (entry : LogEntry) (msg : list ascii) (w : World) :
  let w1 := exec init_once w in
  g_log_enabled (globals w) = true ->
  g_min_level (globals w1) <= level_to_int (level entry) ->
  msg <> [] ->
  emits w (exec (log entry (Ret msg)) w) (current_dest w)
        (line_bytes w1 (level entry) [] msg (loc entry)).
Proof.
  intros w1 Hen Hge Hmsg.
  pose proof (out_exec_init_once w) as Ho. fold w1 in Ho.
  pose proof (current_dest_init_once w) as Hd. fold w1 in Hd.
  unfold exec at 1. rewrite log_eq. fold w1. cbv zeta.
  rewrite Hen. apply Z.ltb_ge in Hge. rewrite Hge. simpl.
  destruct (render_and_write_message entry [] msg w1 Hmsg) as (w' & E & Em).
  rewrite E. simpl. rewrite <- Hd. eapply emits_from; eassumption.
Qed.

(** ** Claims about the [log] entry points *)

(** C1.  For every log call, of either overload and at every level: when
    logging is disabled nothing is sent to any sink, whatever the level
    and the module filter say; when logging is enabled and the level of
    the call is strictly below the minimum level, nothing is sent; when
    logging is enabled, the level is at least the minimum, the module
    filter passes (always for the untagged overload) and the rendered
    message is not empty, the current sink, and no other, receives bytes
    that end with the message.  The minimum level and the module table
    are the ones the call sees, after its lazy initialisation. *)
Theorem log_gated_by_enabled_and_level (entry : LogEntry) (mod_name : list ascii)
    (rendering : outcome (list ascii)) (w : World) :
  let w1 := exec init_once w in
  let module_passes :=
    Nat.eqb (length mod_name) 0
    || module_is_enabled_locked mod_name (g_modules (globals w1)) in
  (g_log_enabled (globals w) = false ->
     out (exec (log entry rendering) w) = out w /\
     out (exec (log_module entry mod_name rendering) w) = out w) /\
  (g_log_enabled (globals w) = true ->
   level_to_int (level entry) < g_min_level (globals w1) ->
     out (exec (log entry rendering) w) = out w /\
     out (exec (log_module entry mod_name rendering) w) = out w) /\
  (g_log_enabled (globals w) = true ->
   g_min_level (globals w1) <= level_to_int (level entry) ->
   forall msg, rendering = Ret msg -> msg <> [] ->
     (exists header,
        emits w (exec (log entry rendering) w) (current_dest w) (header ++ msg)) /\
     (module_passes = true ->
      exists header,
        emits w (exec (log_module entry mod_name rendering) w) (current_dest w)
              (header ++ msg))).
Proof.
  intros w1 module_passes.
  pose proof (out_exec_init_once w) as Ho. fold w1 in Ho.
  split; [|split].
  - intros Hen. unfold exec. rewrite log_eq, log_module_eq. fold w1. cbv zeta.
    rewrite Hen. simpl. auto.
  - intros Hen Hlt. unfold exec. rewrite log_eq, log_module_eq. fold w1. cbv zeta.
    rewrite Hen. apply Z.ltb_lt in Hlt. rewrite Hlt. simpl. auto.
  - intros Hen Hge msg -> Hmsg. split.
    + destruct (line_bytes_ends_with_message w1 (level entry) [] msg (loc entry))
        as (header & Hline).
      exists header. rewrite <- Hline. apply log_emits_line; assumption.
    + intros Hpass.
      destruct (line_bytes_ends_with_message w1 (level entry) mod_name msg (loc entry))
        as (header & Hline).
      exists header. rewrite <- Hline. apply log_module_emits_line; assumption.
Qed.

Lemma log_gated_by_enabled_and_level_witness :
  (out (exec (log_module (demo_entry Error) (sv "alloc") (Ret (sv "tagged"))) world_disabled)
   = out world_disabled) /\
  (out (exec (log (demo_entry Info) (Ret (sv "info"))) world_warn) = out world_warn) /\
  (exists header,
     emits world_warn (exec (log (demo_entry Warn) (Ret (sv "warn"))) world_warn)
           (Custom 1%nat) (header ++ sv "warn")).
Proof.
  split; [|split].
  - apply (proj1 (log_gated_by_enabled_and_level (demo_entry Error) (sv "alloc")
                    (Ret (sv "tagged")) world_disabled)).
    reflexivity.
  - apply (proj1 (proj2 (log_gated_by_enabled_and_level (demo_entry Info) []
                           (Ret (sv "info")) world_warn))).
    + reflexivity.
    + vm_compute. reflexivity.
  - apply (proj1 (proj2 (proj2 (log_gated_by_enabled_and_level (demo_entry Warn) []
                                  (Ret (sv "warn")) world_warn))
                    eq_refl ltac:(vm_compute; discriminate) (sv "warn") eq_refl
                    ltac:(discriminate))).
Defined.

(** *** When the sink throws *)

Lemma throwing_write_raw_eq
    (throws : list (Dest * list ascii) -> SinkFn -> list ascii -> bool)
    (data : list ascii) (w : World) :
  Throwing.write_raw throws data w
  = match data with
    | [] => (Ret tt, w)
    | _ =>
        if Throwing.sink_throws throws w data then (Thrown, w)
        else (Ret tt, {| globals := globals w; process := process w;
                         out := out w ++ [(current_dest w, data)] |})
    end.
Proof.
  unfold Throwing.write_raw, Throwing.emit, Throwing.sink_throws, bind, load, emit,
    current_dest.
  destruct data as [|c data]; cbn [length Nat.eqb]; [reflexivity|].
  destruct (g_sink (globals w)) as [fn|]; [|reflexivity].
  destruct (throws (out w) fn (c :: data)); reflexivity.
Qed.

Lemma throwing_log_eq
    (throws : list (Dest * list ascii) -> SinkFn -> list ascii -> bool)
    (entry : LogEntry) (rendering : outcome (list ascii)) (w : World) :
  Throwing.log throws entry rendering w
  = let w1 := exec init_once w in
    if negb (g_log_enabled (globals w)) then (Ret tt, w1)
    else if level_to_int (level entry) <? g_min_level (globals w1) then (Ret tt, w1)
    else try_catch
           (msg <- vformat rendering ;;
            if Nat.eqb (length msg) 0 then ret tt
            else Throwing.write_log_line throws (level entry) [] msg (loc entry))
           (Throwing.write_raw throws fallback) w1.
Proof.
  unfold Throwing.log. unfold bind at 1. rewrite init_once_eq, exec_init_once.
  unfold bind at 1. unfold log_is_enabled at 1. unfold load at 1. cbn [globals].
  destruct (initialised_fields w) as (-> & _).
  destruct (g_log_enabled (globals w)); cbn [negb]; [|reflexivity].
  unfold bind at 1. unfold min_level at 1. unfold load at 1. cbn [globals].
  destruct (level_to_int (level entry) <? g_min_level (initialised w)); reflexivity.
Qed.

Lemma throwing_log_module_eq
    (throws : list (Dest * list ascii) -> SinkFn -> list ascii -> bool)
    (entry : LogEntry) (mod_name : list ascii) (rendering : outcome (list ascii))
    (w : World) :
  Throwing.log_module throws entry mod_name rendering w
  = let w1 := exec init_once w in
    if negb (g_log_enabled (globals w)) then (Ret tt, w1)
    else if level_to_int (level entry) <? g_min_level (globals w1) then (Ret tt, w1)
    else if negb (Nat.eqb (length mod_name) 0)
            && negb (module_is_enabled_locked mod_name (g_modules (globals w1)))
    then (Ret tt, w1)
    else try_catch
           (msg <- vformat rendering ;;
            if Nat.eqb (length msg) 0 then ret tt
            else Throwing.write_log_line throws (level entry) mod_name msg (loc entry))
           (Throwing.write_raw throws fallback) w1.
Proof.
  unfold Throwing.log_module. unfold bind at 1. rewrite init_once_eq, exec_init_once.
  unfold bind at 1. unfold log_is_enabled at 1. unfold load at 1. cbn [globals].
  destruct (initialised_fields w) as (-> & _).
  destruct (g_log_enabled (globals w)); cbn [negb]; [|reflexivity].
  unfold bind at 1. unfold min_level at 1. unfold load at 1. cbn [globals].
  destruct (level_to_int (level entry) <? g_min_level (initialised w)); [reflexivity|].
  unfold bind at 1.
  destruct (Nat.eqb (length mod_name) 0); cbn [negb andb]; [reflexivity|].
  unfold bind at 1. unfold module_is_enabled at 1. unfold bind at 1, load at 1, ret at 1.
  cbn [globals]. unfold ret at 1.
  destruct (module_is_enabled_locked mod_name (g_modules (initialised w)));
    reflexivity.
Qed.

Lemma try_catch_returns (m h : M unit) (w : World) :
  (forall w', fst (h w') = Ret tt) -> fst (try_catch m h w) = Ret tt.
Proof.
  intros Hh. unfold try_catch. destruct (m w) as [[[]|] w']; [reflexivity|apply Hh].
Qed.

Lemma fallback_not_empty : exists c rest, fallback = c :: rest.
Proof. eexists. eexists. reflexivity. Qed.

(** The handler of the templates, run from [w1]. *)
Lemma throwing_handler
    (throws : list (Dest * list ascii) -> SinkFn -> list ascii -> bool) (w1 : World) :
  Throwing.write_raw throws fallback w1
  = if Throwing.sink_throws throws w1 fallback then (Thrown, w1)
    else (Ret tt, {| globals := globals w1; process := process w1;
                     out := out w1 ++ [(current_dest w1, fallback)] |}).
Proof.
  rewrite throwing_write_raw_eq.
  destruct fallback_not_empty as (c & rest & ->). reflexivity.
Qed.

(** With a sink that never throws the templates of [Throwing] are the
    templates above. *)
Lemma returning_sink_templates (entry : LogEntry) (mod_name : list ascii)
    (rendering : outcome (list ascii)) :
  Throwing.log never_throws entry rendering = log entry rendering /\
  Throwing.log_module never_throws entry mod_name rendering
  = log_module entry mod_name rendering.
Proof. split; reflexivity. Qed.

(** C8, as stated, fails when the sink itself throws: with logging
    enabled and the level passing, the rendering step throws, the
    handler hands the fallback text to the custom sink, the sink throws,
    and the exception leaves [log]. *)
Lemma throwing_sink_escapes_handler :
  g_log_enabled (globals world_warn) = true /\
  g_min_level (globals (exec init_once world_warn)) <= level_to_int (level (demo_entry Error)) /\
  result (Throwing.log always_throws (demo_entry Error) Thrown) world_warn = Thrown /\
  result (Throwing.log_module always_throws (demo_entry Error) [] Thrown) world_warn
  = Thrown.
Proof.
  split; [reflexivity|]. split; [vm_compute; discriminate|].
  split; vm_compute; reflexivity.
Qed.

(** C8, amended.  When logging is enabled and the level and module
    filters pass, a rendering step that throws is caught, and the call
    hands the current sink, through one [write_raw] and without any
    field of the line formatter, the fixed text "coretrace: log format
    error" and a newline.  When the sink returns from that write, as the
    default sink always does, the call returns normally and the sink has
    received exactly that text once; when a custom sink throws from it,
    the exception of the sink reaches the caller and nothing has been
    written.  For every rendering outcome, a call of either overload
    returns normally as soon as the sink does not throw on the fallback
    text: the exception of a sink that throws while the line is written
    is caught by the same handler.  With a sink that never throws the
    templates are those of the claims above. *)
Theorem rendering_failure_writes_fallback
    (throws : list (Dest * list ascii) -> SinkFn -> list ascii -> bool)
    (entry : LogEntry) (mod_name : list ascii) (w : World) :
  let w1 := exec init_once w in
  let module_passes :=
    Nat.eqb (length mod_name) 0
    || module_is_enabled_locked mod_name (g_modules (globals w1)) in
  let after_fallback :=
    {| globals := globals w1; process := process w1;
       out := out w ++ [(current_dest w, fallback)] |} in
  let handled :=
    if Throwing.sink_throws throws w fallback then (Thrown, w1)
    else (Ret tt, after_fallback) in
  (g_log_enabled (globals w) = true ->
   g_min_level (globals w1) <= level_to_int (level entry) ->
   Throwing.log throws entry Thrown w = handled /\
   (module_passes = true ->
    Throwing.log_module throws entry mod_name Thrown w = handled)) /\
  (g_sink (globals w) = None -> Throwing.sink_throws throws w fallback = false) /\
  ((forall trace fn, throws trace fn fallback = false) ->
   forall rendering,
     result (Throwing.log throws entry rendering) w = Ret tt /\
     result (Throwing.log_module throws entry mod_name rendering) w = Ret tt) /\
  (forall rendering,
     Throwing.log never_throws entry rendering = log entry rendering /\
     Throwing.log_module never_throws entry mod_name rendering
     = log_module entry mod_name rendering).
Proof.
  intros w1 module_passes after_fallback handled.
  pose proof (out_exec_init_once w) as Ho. fold w1 in Ho.
  pose proof (current_dest_init_once w) as Hd. fold w1 in Hd.
  assert (Hs : Throwing.sink_throws throws w1 fallback
               = Throwing.sink_throws throws w fallback).
  { unfold Throwing.sink_throws. rewrite Ho. unfold w1. rewrite exec_init_once.
    cbn [globals]. destruct (initialised_fields w) as (_ & -> & _). reflexivity. }
  assert (Hh : Throwing.write_raw throws fallback w1 = handled).
  { rewrite throwing_handler, Hs, Ho, Hd. reflexivity. }
  split; [|split; [|split]].
  - intros Hen Hge. apply Z.ltb_ge in Hge. split.
    + rewrite throwing_log_eq. fold w1. cbv zeta. rewrite Hen, Hge. cbn [negb].
      exact Hh.
    + intros Hpass. rewrite throwing_log_module_eq. fold w1. cbv zeta.
      rewrite Hen, Hge. cbn [negb].
      assert (Hf : negb (Nat.eqb (length mod_name) 0)
                   && negb (module_is_enabled_locked mod_name (g_modules (globals w1)))
                   = false).
      { unfold module_passes in Hpass.
        destruct (Nat.eqb (length mod_name) 0); simpl in *; [reflexivity|].
        rewrite Hpass. reflexivity. }
      rewrite Hf. exact Hh.
  - intros Hsink. unfold Throwing.sink_throws. rewrite Hsink. reflexivity.
  - intros Hfb rendering.
    assert (Hret : forall w', fst (Throwing.write_raw throws fallback w') = Ret tt).
    { intros w'. rewrite throwing_handler.
      assert (Hno : Throwing.sink_throws throws w' fallback = false).
      { unfold Throwing.sink_throws. destruct (g_sink (globals w')); [apply Hfb|reflexivity]. }
      rewrite Hno. reflexivity. }
    unfold result. rewrite throwing_log_eq, throwing_log_module_eq. fold w1. cbv zeta.
    destruct (negb (g_log_enabled (globals w))); [split; reflexivity|].
    destruct (level_to_int (level entry) <? g_min_level (globals w1));
      [split; reflexivity|].
    split; [apply try_catch_returns; exact Hret|].
    destruct (negb (Nat.eqb (length mod_name) 0)
              && negb (module_is_enabled_locked mod_name (g_modules (globals w1))));
      [reflexivity|apply try_catch_returns; exact Hret].
  - intros rendering. apply returning_sink_templates.
Qed.

Lemma rendering_failure_writes_fallback_witness :
  Throwing.log never_throws (demo_entry Error) Thrown world_warn
  = (Ret tt,
     {| globals := globals (exec init_once world_warn);
        process := process (exec init_once world_warn);
        out := out world_warn ++ [(Custom 1%nat, fallback)] |}).
Proof.
  apply (proj1 (proj1 (rendering_failure_writes_fallback never_throws (demo_entry Error) []
                         world_warn)
                  eq_refl ltac:(vm_compute; discriminate))).
Defined.

(** C10.  A call of the module overload with the empty name is the call
    of the untagged overload: the two computations coincide on every
    world.  In particular the module filter is not consulted (with the
    filter active, and the call otherwise passing, the sink receives the
    line), and the line goes from the level field, or the call site when
    enabled, straight to the space before the message: it has no
    [(module)] field. *)
Theorem empty_module_name_behaves_as_untagged (entry : LogEntry)
    (rendering : outcome (list ascii)) (w : World) :
  let w1 := exec init_once w in
  log_module entry [] rendering w = log entry rendering w /\
  (filter_active (g_modules (globals w1)) = true ->
   g_log_enabled (globals w) = true ->
   g_min_level (globals w1) <= level_to_int (level entry) ->
   forall msg, rendering = Ret msg -> msg <> [] ->
     emits w (exec (log_module entry [] rendering) w) (current_dest w)
       (timestamp_field (g_timestamps_enabled (globals w1)) (wall_clock (process w1)) ++
        pid_field (color_on w1) (pid_value w1) ++
        prefix_field (color_on w1) (prefix_snapshot w1) ++
        level_field (color_on w1) (level entry) ++
        location_field (color_on w1) (g_source_location_enabled (globals w1)) (loc entry) ++
        sv " " ++ msg)).
Proof.
  intros w1. split; [reflexivity|].
  intros _ Hen Hge msg -> Hmsg.
  exact (log_module_emits_line entry [] msg w Hen Hge eq_refl Hmsg).
Qed.

Lemma empty_module_name_behaves_as_untagged_witness :
  emits world_filtering
    (exec (log_module (demo_entry Info) [] (Ret (sv "hello"))) world_filtering)
    (Custom 1%nat) (sv "|12345| ==ct== [INFO] hello").
Proof.
  apply (proj2 (empty_module_name_behaves_as_untagged (demo_entry Info)
                  (Ret (sv "hello")) world_filtering)
           eq_refl eq_refl ltac:(vm_compute; discriminate) (sv "hello") eq_refl
           ltac:(discriminate)).
Defined.

(** C4, as stated, fails: with the filter active ({alloc} registered) an
    untagged call is not suppressed; the sink receives its line. *)
Lemma untagged_call_passes_active_filter :
  ~ (filter_active (g_modules (globals (exec init_once world_filtering))) = true ->
     out (exec (log (demo_entry Info) (Ret (sv "hello"))) world_filtering)
     = out world_filtering).
Proof.
  intros H. specialize (H eq_refl). vm_compute in H. discriminate H.
Qed.

(** C4, amended.  Whenever the module filter is active, every call of the
    module overload whose tag is non-empty and not listed in the table
    sends nothing to any sink; the untagged overload does not consult
    the module table, so an untagged call that is enabled, at or above
    the minimum level and renders a non-empty message reaches the sink
    although the filter is active. *)
Theorem active_filter_suppresses_unlisted_tags (entry : LogEntry)
    (mod_name : list ascii) (rendering : outcome (list ascii)) (w : World) :
  let w1 := exec init_once w in
  filter_active (g_modules (globals w1)) = true ->
  (mod_name <> [] -> ~ In mod_name (entries (g_modules (globals w1))) ->
     out (exec (log_module entry mod_name rendering) w) = out w) /\
  (g_log_enabled (globals w) = true ->
   g_min_level (globals w1) <= level_to_int (level entry) ->
   forall msg, rendering = Ret msg -> msg <> [] ->
     exists header,
       emits w (exec (log entry rendering) w) (current_dest w) (header ++ msg)).
Proof.
  intros w1 Hactive. split.
  - intros Hne Hin. unfold exec at 1. rewrite log_module_eq. fold w1. cbv zeta.
    pose proof (out_exec_init_once w) as Ho. fold w1 in Ho.
    destruct (negb (g_log_enabled (globals w))); [exact Ho|].
    destruct (level_to_int (level entry) <? g_min_level (globals w1)); [exact Ho|].
    assert (Hf : negb (Nat.eqb (length mod_name) 0)
                 && negb (module_is_enabled_locked mod_name (g_modules (globals w1)))
                 = true).
    { destruct mod_name as [|c m]; [congruence|]. simpl.
      unfold module_is_enabled_locked. rewrite Hactive. simpl.
      apply find_module_None in Hin. rewrite Hin. reflexivity. }
    rewrite Hf. exact Ho.
  - intros Hen Hge msg -> Hmsg.
    destruct (line_bytes_ends_with_message w1 (level entry) [] msg (loc entry))
      as (header & Hline).
    exists header. rewrite <- Hline. apply log_emits_line; assumption.
Qed.

Lemma active_filter_suppresses_unlisted_tags_witness :
  out (exec (log_module (demo_entry Error) (sv "network") (Ret (sv "dropped")))
            world_filtering)
  = out world_filtering.
Proof.
  apply (proj1 (active_filter_suppresses_unlisted_tags (demo_entry Error) (sv "network")
                  (Ret (sv "dropped")) world_filtering eq_refl)).
  - discriminate.
  - vm_compute. intros [H|[]]. discriminate H.
Defined.

(** ** The fields of a line *)

Lemma zero_padded_length (width : nat) : forall n, length (zero_padded width n) = width.
Proof.
  induction width as [|k IH]; intros n; simpl; [reflexivity|].
  rewrite length_app, IH. simpl. lia.
Qed.

Lemma zero_padded_digits (width : nat) :
  forall n, forallb is_dec_digit (zero_padded width n) = true.
Proof.
  induction width as [|k IH]; intros n; simpl; [reflexivity|].
  rewrite forallb_app, IH. simpl.
  assert (Hd : 0 <= n mod 10 <= 9) by (pose proof (Z.mod_pos_bound n 10); lia).
  unfold digit. rewrite (proj1 (dec_char_digit _ Hd)). reflexivity.
Qed.

Lemma two_digits (n : Z) :
  0 <= n <= 99 -> [digit (Z.quot n 10); digit (Z.rem n 10)] = zero_padded 2 n.
Proof.
  intros Hn. rewrite Z.quot_div_nonneg, Z.rem_mod_nonneg by lia. simpl.
  rewrite (Z.mod_small (n / 10) 10); [reflexivity|].
  split; [apply Z.div_pos; lia|apply Z.div_lt_upper_bound; lia].
Qed.

Lemma three_digits (n : Z) :
  0 <= n <= 999 ->
  [digit (Z.quot n 100); digit (Z.rem (Z.quot n 10) 10); digit (Z.rem n 10)]
  = zero_padded 3 n.
Proof.
  intros Hn.
  assert (0 <= n / 10) by (apply Z.div_pos; lia).
  assert (E2 : n / 10 / 10 = n / 100) by (rewrite Z.div_div by lia; reflexivity).
  rewrite !Z.quot_div_nonneg, !Z.rem_mod_nonneg by lia. simpl. rewrite E2.
  rewrite (Z.mod_small (n / 100) 10); [reflexivity|].
  split; [apply Z.div_pos; lia|apply Z.div_lt_upper_bound; lia].
Qed.

Lemma four_digits (n : Z) :
  0 <= n <= 9999 ->
  [digit (Z.quot n 1000); digit (Z.rem (Z.quot n 100) 10);
   digit (Z.rem (Z.quot n 10) 10); digit (Z.rem n 10)]
  = zero_padded 4 n.
Proof.
  intros Hn.
  assert (0 <= n / 10) by (apply Z.div_pos; lia).
  assert (0 <= n / 100) by (apply Z.div_pos; lia).
  assert (E2 : n / 10 / 10 = n / 100) by (rewrite Z.div_div by lia; reflexivity).
  assert (E3 : n / 100 / 10 = n / 1000) by (rewrite Z.div_div by lia; reflexivity).
  rewrite !Z.quot_div_nonneg, !Z.rem_mod_nonneg by lia. simpl. rewrite E2, E3.
  rewrite (Z.mod_small (n / 1000) 10); [reflexivity|].
  split; [apply Z.div_pos; lia|apply Z.div_lt_upper_bound; lia].
Qed.

Lemma write_timestamp_to_shape (now : WallClock) :
  valid_clock now ->
  write_timestamp_to now
  = sv "[" ++ zero_padded 4 (tm_year now + 1900) ++ sv "-" ++
    zero_padded 2 (tm_mon now + 1) ++ sv "-" ++ zero_padded 2 (tm_mday now) ++
    sv "T" ++ zero_padded 2 (tm_hour now) ++ sv ":" ++ zero_padded 2 (tm_min now) ++
    sv ":" ++ zero_padded 2 (tm_sec now) ++ sv "." ++
    zero_padded 3 (tv_nsec now / 1000000) ++ sv "] ".
Proof.
  intros (Hy & Hmo & Hd & Hh & Hmi & Hs & Hn). unfold write_timestamp_to.
  assert (Hms : 0 <= tv_nsec now / 1000000 <= 999).
  { split; [apply Z.div_pos; lia|].
    assert (tv_nsec now / 1000000 < 1000) by (apply Z.div_lt_upper_bound; lia). lia. }
  rewrite (Z.quot_div_nonneg (tv_nsec now)) by lia.
  rewrite four_digits by lia.
  rewrite !two_digits by lia.
  rewrite three_digits by lia.
  reflexivity.
Qed.

Lemma c_str_app (a b : list ascii) : nul_free a = true -> c_str (a ++ b) = a ++ c_str b.
Proof.
  induction a as [|c a IH]; simpl; [reflexivity|].
  intros H. apply andb_prop in H. destruct H as [Hc Ha].
  destruct (is_nul c); [discriminate|]. rewrite IH by exact Ha. reflexivity.
Qed.

Lemma c_str_id (a : list ascii) : nul_free a = true -> c_str a = a.
Proof.
  intros H. rewrite <- (app_nil_r a) at 1. rewrite c_str_app by exact H.
  simpl. apply app_nil_r.
Qed.

Lemma c_str_nul_free (p : list ascii) : nul_free (c_str p) = true.
Proof.
  induction p as [|c p IH]; simpl; [reflexivity|].
  destruct (is_nul c) eqn:E; simpl; [reflexivity|]. rewrite E, IH. reflexivity.
Qed.

(** [basename_of] returns the final path segment: what follows the last
    slash of the path, or the whole path when it has none. *)
Lemma basename_loop_spec (p : list ascii) :
  forall mid,
    nul_free mid = true -> ~ In slash mid ->
    let b := c_str (basename_loop p (mid ++ p)) in
    ~ In slash b /\
    exists dir, c_str (mid ++ p) = dir ++ b /\
                (dir = [] \/ exists d, dir = d ++ [slash]).
Proof.
  induction p as [|c p IH]; intros mid Hnul Hsl; cbn [basename_loop].
  - cbv zeta. rewrite app_nil_r, (c_str_id mid Hnul). split; [exact Hsl|].
    exists []. split; [reflexivity|left; reflexivity].
  - destruct (is_nul c) eqn:Enul.
    + cbv zeta. rewrite (c_str_app mid (c :: p)) by exact Hnul.
      simpl. rewrite Enul, app_nil_r. split; [exact Hsl|].
      exists []. split; [reflexivity|left; reflexivity].
    + destruct (Ascii.eqb c slash) eqn:Esl.
      * apply Ascii.eqb_eq in Esl. subst c.
        destruct (IH [] eq_refl (fun H => H)) as (Hb & dir & Hdir & Hshape).
        simpl in Hb, Hdir. cbv zeta. split; [exact Hb|].
        exists (mid ++ slash :: dir). split.
        -- rewrite (c_str_app mid (slash :: p)) by exact Hnul.
           simpl. rewrite Hdir, <- app_assoc. reflexivity.
        -- right. destruct Hshape as [->|(d & ->)].
           ++ exists mid. reflexivity.
           ++ exists (mid ++ slash :: d). rewrite <- app_assoc. reflexivity.
      * assert (Hnul' : nul_free (mid ++ [c]) = true).
        { unfold nul_free. rewrite forallb_app. fold (nul_free mid).
          rewrite Hnul. simpl. rewrite Enul. reflexivity. }
        assert (Hsl' : ~ In slash (mid ++ [c])).
        { intros H. apply in_app_or in H. destruct H as [H|[H|[]]]; [auto|].
          subst c. rewrite Ascii.eqb_refl in Esl. discriminate. }
        specialize (IH (mid ++ [c]) Hnul' Hsl').
        rewrite <- app_assoc in IH. exact IH.
Qed.

Lemma basename_of_final_segment (p : list ascii) :
  let b := c_str (basename_of (Some p)) in
  ~ In slash b /\
  exists dir, c_str p = dir ++ b /\ (dir = [] \/ exists d, dir = d ++ [slash]).
Proof. exact (basename_loop_spec p [] eq_refl (fun H => H)). Qed.

(** C2, as stated, fails on the timestamp field: the year is written on
    four characters whatever its value, so that on 15 January 10000 the
    field that the line starts with holds a colon where the first digit
    of the year should be. *)
Lemma timestamp_of_year_10000_has_no_year_digits :
  color_on world_year_10000 = false /\
  g_timestamps_enabled (globals world_year_10000) = true /\
  (exists w',
     write_log_line Info [] (sv "hello") (loc (demo_entry Info)) world_year_10000
     = (Ret tt, w') /\
     emits world_year_10000 w' (Custom 1%nat)
       (sv "[:000-01-15T10:45:23.456] |12345| ==ct== [INFO] main.cpp:42 hello")) /\
  forallb is_dec_digit (sv ":000") = false.
Proof.
  split; [reflexivity|]. split; [reflexivity|]. split; [|reflexivity].
  destruct (write_log_line_run world_year_10000 Info [] (sv "hello")
              (loc (demo_entry Info))) as (w' & E & Em).
  exists w'. split; [exact E|]. exact Em.
Qed.

(** C2, amended.  With color output disabled, [write_log_line] hands to
    the current sink, in this order and with nothing else: the timestamp
    field (only when timestamps are enabled), the process id in decimal
    between two bars, a space, the prefix as stored, a space, the level
    label in brackets, then a space and [file:line] (only when the call
    site is enabled), a space and the module in parentheses (only for a
    non-empty module), a space and the message, to which nothing is
    appended.  The label is INFO for [Info], WARN for [Warn] and ERROR
    for [Error].  For a clock reading in the ranges of a broken-down UTC
    time with a year from 0 to 9999 the timestamp reads
    [YYYY-MM-DDThh:mm:ss.mmm] followed by a space, every number
    zero-padded; the process id and the line number are canonical
    decimals; the file is the final segment of the call-site path. *)
Theorem uncolored_line_layout (lvl : Level) (module message : list ascii)
    (loc : source_location) (w : World) :
  color_on w = false ->
  let ts_field :=
    if g_timestamps_enabled (globals w)
    then write_timestamp_to (wall_clock (process w)) else [] in
  let label :=
    match lvl with Info => sv "INFO" | Warn => sv "WARN" | Error => sv "ERROR" end in
  let loc_field :=
    if g_source_location_enabled (globals w)
    then sv " " ++ c_str (basename_of (file_name loc)) ++ sv ":" ++
         dec_digits (to_size_t (line loc))
    else [] in
  let mod_field :=
    match module with [] => [] | _ => sv " (" ++ module ++ sv ")" end in
  (exists w',
     write_log_line lvl module message loc w = (Ret tt, w') /\
     emits w w' (current_dest w)
       (ts_field ++ sv "|" ++ dec_digits (to_size_t (pid_value w)) ++ sv "| " ++
        prefix_snapshot w ++ sv " [" ++ label ++ sv "]" ++
        loc_field ++ mod_field ++ sv " " ++ message)) /\
  level_label lvl = label /\
  (valid_clock (wall_clock (process w)) ->
   let now := wall_clock (process w) in
   write_timestamp_to now
   = sv "[" ++ zero_padded 4 (tm_year now + 1900) ++ sv "-" ++
     zero_padded 2 (tm_mon now + 1) ++ sv "-" ++ zero_padded 2 (tm_mday now) ++
     sv "T" ++ zero_padded 2 (tm_hour now) ++ sv ":" ++ zero_padded 2 (tm_min now) ++
     sv ":" ++ zero_padded 2 (tm_sec now) ++ sv "." ++
     zero_padded 3 (tv_nsec now / 1000000) ++ sv "] ") /\
  (0 <= pid_value w < 2 ^ size_t_bits ->
   canonical_dec (dec_digits (to_size_t (pid_value w))) (pid_value w)) /\
  (0 <= line loc < 2 ^ size_t_bits ->
   canonical_dec (dec_digits (to_size_t (line loc))) (line loc)) /\
  (forall path, file_name loc = Some path ->
   let file := c_str (basename_of (file_name loc)) in
   ~ In slash file /\
   exists dir, c_str path = dir ++ file /\ (dir = [] \/ exists d, dir = d ++ [slash])).
Proof.
  intros Hoff ts_field label loc_field mod_field.
  assert (Hdec : forall v, 0 <= v < 2 ^ size_t_bits ->
                           canonical_dec (dec_digits (to_size_t v)) v).
  { intros v Hv. unfold to_size_t. rewrite Z.mod_small by exact Hv.
    apply dec_digits_canonical. unfold size_t_bits, dec_buf_size in *.
    split; [lia|]. eapply Z.lt_trans; [apply Hv|]. reflexivity. }
  assert (Hlabel : level_label lvl = label) by (destruct lvl; reflexivity).
  split; [|split; [|split; [|split; [|split]]]].
  - destruct (write_log_line_run w lvl module message loc) as (w' & E & Em).
    exists w'. split; [exact E|].
    replace (ts_field ++ sv "|" ++ dec_digits (to_size_t (pid_value w)) ++ sv "| " ++
             prefix_snapshot w ++ sv " [" ++ label ++ sv "]" ++
             loc_field ++ mod_field ++ sv " " ++ message)
      with (line_bytes w lvl module message loc); [exact Em|].
    unfold line_bytes, timestamp_field, pid_field, prefix_field, level_field,
      location_field, module_field, level_col, col.
    rewrite Hoff, Hlabel. subst ts_field loc_field mod_field.
    destruct (g_timestamps_enabled (globals w));
      destruct (g_source_location_enabled (globals w));
      destruct module; destruct lvl;
      cbn [app length Nat.eqb negb]; rewrite <- ?app_assoc; cbn [app];
      rewrite ?app_nil_r; reflexivity.
  - exact Hlabel.
  - intros Hclock now. apply write_timestamp_to_shape. exact Hclock.
  - apply Hdec.
  - apply Hdec.
  - intros path Hpath. rewrite Hpath. apply basename_of_final_segment.
Qed.

Lemma uncolored_line_layout_witness :
  exists w',
    write_log_line Error (sv "alloc") (sv "tagged") (loc (demo_entry Error)) world_verbose
    = (Ret tt, w') /\
    emits world_verbose w' (Custom 1%nat)
      (sv "[2025-01-15T10:45:23.456] |12345| ==ct== [ERROR] main.cpp:42 (alloc) tagged").
Proof.
  exact (proj1 (uncolored_line_layout Error (sv "alloc") (sv "tagged")
                  (loc (demo_entry Error)) world_verbose eq_refl)).
Defined.

(** C9.  For every value [v] of the parameter type (64 bits, never
    negative) [write_dec] hands the sink the canonical minimal decimal
    representation of [v], and [write_hex] hands it [0x] followed by the
    canonical minimal lowercase hexadecimal representation of [v]: digits
    only, denoting [v], with no leading zero, and the single digit [0]
    for zero. *)
Theorem write_dec_write_hex_canonical (v : Z) (w : World) :
  0 <= v < 2 ^ size_t_bits ->
  (exists ds,
     write_dec v w
     = (Ret tt, {| globals := globals w; process := process w;
                   out := out w ++ [(current_dest w, ds)] |}) /\
     canonical_dec ds v) /\
  (exists ds,
     write_hex v w
     = (Ret tt, {| globals := globals w; process := process w;
                   out := out w ++ [(current_dest w, sv "0x" ++ ds)] |}) /\
     canonical_hex ds v).
Proof.
  intros Hv. split.
  - assert (Hcan : canonical_dec (dec_digits v) v).
    { apply dec_digits_canonical. unfold size_t_bits, dec_buf_size in *.
      split; [lia|]. eapply Z.lt_trans; [apply Hv|]. reflexivity. }
    exists (dec_digits v). split; [|exact Hcan].
    unfold write_dec. rewrite write_raw_eq.
    destruct (dec_digits v) eqn:E; [|reflexivity].
    destruct Hcan as (Hne & _). congruence.
  - destruct (hex_digits_canonical v) as (ds & Hds & Hcan).
    { unfold size_t_bits, uintptr_nibbles in *. exact Hv. }
    exists ds. split; [|exact Hcan].
    unfold write_hex. rewrite write_raw_eq, Hds. reflexivity.
Qed.

Lemma write_dec_write_hex_canonical_witness :
  (exists ds,
     write_dec 57005 world_warn
     = (Ret tt, {| globals := globals world_warn; process := process world_warn;
                   out := out world_warn ++ [(current_dest world_warn, ds)] |}) /\
     canonical_dec ds 57005) /\
  (exists ds,
     write_hex 57005 world_warn
     = (Ret tt, {| globals := globals world_warn; process := process world_warn;
                   out := out world_warn ++ [(current_dest world_warn, sv "0x" ++ ds)] |}) /\
     canonical_hex ds 57005).
Proof.
  apply (write_dec_write_hex_canonical 57005 world_warn).
  split; [discriminate|reflexivity].
Defined.

(** ** The prefix *)

Lemma store_chars_app (src : list ascii) :
  forall pre rest : list ascii,
    (length src <= length rest)%nat ->
    store_chars src (length pre) (pre ++ rest) = pre ++ src ++ drop (length src) rest.
Proof.
  induction src as [|c src IH]; intros pre rest Hlen; simpl.
  - reflexivity.
  - destruct rest as [|r rest]; [simpl in Hlen; lia|].
    rewrite insert_app_r_alt by lia. rewrite Nat.sub_diag. simpl.
    replace (pre ++ c :: rest) with ((pre ++ [c]) ++ rest)
      by (rewrite <- app_assoc; reflexivity).
    replace (S (length pre)) with (length (pre ++ [c]))
      by (rewrite length_app; simpl; lia).
    rewrite IH by (simpl in Hlen; lia).
    rewrite <- app_assoc. reflexivity.
Qed.

(** Storing a name and its terminator at the start of an array. *)
Lemma store_name_spec (name row : list ascii) :
  (length name < length row)%nat ->
  store_name name row = name ++ NUL :: drop (S (length name)) row.
Proof.
  intros Hlen. unfold store_name.
  pose proof (store_chars_app name [] row ltac:(lia)) as H. simpl in H.
  rewrite H. clear H.
  rewrite insert_app_r_alt by lia. rewrite Nat.sub_diag.
  destruct (drop (length name) row) as [|r rest] eqn:E.
  - apply (f_equal (@length ascii)) in E. rewrite length_drop in E. simpl in E. lia.
  - simpl. f_equal. f_equal.
    replace (S (length name)) with (length name + 1)%nat by lia.
    rewrite <- drop_drop, E. reflexivity.
Qed.

Lemma exec_set_prefix (s : list ascii) (w : World) :
  let len := if (prefix_buf_size <=? length s)%nat
             then (prefix_buf_size - 1)%nat else length s in
  exec (set_prefix s) w
  = {| globals :=
         store_prefix (store_name (take len s) (g_prefix_buf (globals w))) len
                      (globals w);
       process := process w; out := out w |}.
Proof.
  intros len. unfold exec, set_prefix, bind, load, store. simpl. fold len.
  unfold store_name.
  assert (Hlen : length (take len s) = len).
  { rewrite length_take. subst len. unfold prefix_buf_size.
    destruct (64 <=? length s)%nat eqn:E; [apply Nat.leb_le in E|]; lia. }
  rewrite Hlen. reflexivity.
Qed.

Lemma prefix_after_set_prefix (s : list ascii) (w : World) :
  length (g_prefix_buf (globals w)) = prefix_buf_size ->
  (63 <= length s)%nat ->
  prefix_snapshot (exec (set_prefix s) w) = take 63 s.
Proof.
  intros Hbuf Hs. rewrite exec_set_prefix. cbv zeta.
  assert (Hlen : (if (prefix_buf_size <=? length s)%nat
                  then (prefix_buf_size - 1)%nat else length s) = 63%nat).
  { unfold prefix_buf_size.
    destruct (64 <=? length s)%nat eqn:E; [reflexivity|].
    apply Nat.leb_gt in E. lia. }
  rewrite Hlen. unfold prefix_snapshot, prefix_buf_size in *. simpl.
  rewrite store_name_spec by (rewrite length_take; lia).
  rewrite take_app_length'; [reflexivity|]. rewrite length_take. lia.
Qed.

(** C7.  After [set_prefix s] with [s] of 63 bytes or more, the prefix
    that is stored and read back is the first 63 bytes of [s], which is
    [s] itself when [s] has exactly 63 bytes, and the prefix field of the
    next line that a [log] call emits is made of these bytes. *)
Theorem prefix_round_trip (s : list ascii) (entry : LogEntry) (msg : list ascii)
    (w : World) :
  length (g_prefix_buf (globals w)) = prefix_buf_size ->
  (63 <= length s)%nat ->
  let w' := exec (set_prefix s) w in
  let w1 := exec init_once w' in
  result read_prefix_snapshot w' = Ret (take 63 s) /\
  (length s = 63%nat -> result read_prefix_snapshot w' = Ret s) /\
  (g_log_enabled (globals w') = true ->
   g_min_level (globals w1) <= level_to_int (level entry) ->
   msg <> [] ->
   emits w' (exec (log entry (Ret msg)) w') (current_dest w')
     (timestamp_field (g_timestamps_enabled (globals w1)) (wall_clock (process w1)) ++
      pid_field (color_on w1) (pid_value w1) ++
      prefix_field (color_on w1) (take 63 s) ++
      level_field (color_on w1) (level entry) ++
      location_field (color_on w1) (g_source_location_enabled (globals w1)) (loc entry) ++
      sv " " ++ msg)).
Proof.
  intros Hbuf Hs w' w1.
  pose proof (prefix_after_set_prefix s w Hbuf Hs) as Hsnap. fold w' in Hsnap.
  assert (Hread : result read_prefix_snapshot w' = Ret (take 63 s)).
  { rewrite <- Hsnap. reflexivity. }
  split; [exact Hread|]. split.
  - intros Hlen. rewrite Hread, <- Hlen, firstn_all. reflexivity.
  - intros Hen Hge Hmsg.
    assert (Hsnap1 : prefix_snapshot w1 = take 63 s).
    { rewrite <- Hsnap. subst w1. rewrite exec_init_once.
      unfold prefix_snapshot. simpl.
      destruct (initialised_fields w') as (_ & _ & -> & -> & _). reflexivity. }
    rewrite <- Hsnap1.
    exact (log_emits_line entry msg w' Hen Hge Hmsg).
Qed.

Lemma prefix_round_trip_witness :
  emits (exec (set_prefix long_prefix) world_enabled)
    (exec (log (demo_entry Info) (Ret (sv "hello")))
          (exec (set_prefix long_prefix) world_enabled))
    (Custom 1%nat)
    (sv "|12345| 0123456789abcdef0123456789abcdef0123456789abcdef0123456789abcde [INFO] hello").
Proof.
  apply (proj2 (proj2 (prefix_round_trip long_prefix (demo_entry Info) (sv "hello")
                         world_enabled eq_refl ltac:(vm_compute; lia)))
           eq_refl ltac:(vm_compute; discriminate) ltac:(discriminate)).
Defined.

(** ** The module table *)

Lemma take_split {A : Type} (n m : nat) :
  forall l : list A, take (n + m) l = take n l ++ take m (drop n l).
Proof.
  induction n as [|n IH]; intros l; simpl; [reflexivity|].
  destruct l as [|x l]; simpl.
  - rewrite take_nil. reflexivity.
  - rewrite IH. reflexivity.
Qed.

Lemma find_module_from_Some (name : list ascii) (rows : list (list ascii)) :
  forall n i k,
    find_module_from name rows n i = Some k ->
    (i <= k < i + n)%nat /\ (k - i < length rows)%nat /\
    (exists row, rows !! (k - i)%nat = Some row /\ c_str row = name).
Proof.
  induction rows as [|row rows IH]; intros n i k H.
  - destruct n; discriminate.
  - destruct n as [|n]; [discriminate|]. simpl in H.
    destruct (sv_eq name (c_str row)) eqn:E.
    + injection H as <-. apply sv_eq_true in E.
      rewrite Nat.sub_diag. simpl. repeat split; try lia.
      exists row. auto.
    + apply IH in H. destruct H as (Hk & Hlen & row' & Hrow & Hc).
      replace (k - i)%nat with (S (k - S i)) by lia. simpl.
      repeat split; try lia. exists row'. auto.
Qed.

Lemma shift_rows_spec (n : nat) :
  forall (j : nat) (rows : list (list ascii)),
    (j + n < length rows)%nat ->
    shift_rows rows j n
    = take j rows ++ take n (drop (S j) rows) ++ drop (j + n) rows.
Proof.
  induction n as [|n IH]; intros j rows Hlen.
  - simpl. rewrite Nat.add_0_r, take_drop. reflexivity.
  - cbn [shift_rows].
    destruct (rows !! S j) as [next|] eqn:Hnext.
    2:{ apply lookup_ge_None in Hnext. lia. }
    rewrite IH by (rewrite length_insert; lia).
    assert (Hins : <[j := next]> rows = take j rows ++ next :: drop (S j) rows).
    { apply insert_take_drop. lia. }
    assert (Hj : length (take j rows) = j) by (rewrite length_take; lia).
    assert (Hd : drop (S j) rows = next :: drop (S (S j)) rows).
    { apply drop_S. exact Hnext. }
    rewrite Hins.
    assert (E1 : take (S j) (take j rows ++ next :: drop (S j) rows)
                 = take j rows ++ [next]).
    { replace (S j) with (length (take j rows) + 1)%nat at 1 by lia.
      rewrite take_app_add. reflexivity. }
    assert (E2 : forall m, (S j <= m)%nat ->
                 drop m (take j rows ++ next :: drop (S j) rows) = drop m rows).
    { intros m Hm.
      replace m with (length (take j rows) + (m - j))%nat at 1 by lia.
      rewrite drop_app_add.
      replace (m - j)%nat with (S (m - S j)) by lia. simpl.
      rewrite drop_drop. f_equal. lia. }
    rewrite E1, !E2 by lia.
    rewrite Hd. simpl.
    rewrite <- app_assoc. simpl.
    replace (j + S n)%nat with (S j + n)%nat by lia. reflexivity.
Qed.

Lemma store_chars_length (src : list ascii) :
  forall i row, length (store_chars src i row) = length row.
Proof.
  induction src as [|c src IH]; intros i row; simpl; [reflexivity|].
  rewrite IH, length_insert. reflexivity.
Qed.

Lemma store_name_length (name row : list ascii) :
  length (store_name name row) = length row.
Proof. unfold store_name. rewrite length_insert. apply store_chars_length. Qed.

Lemma c_str_store_name (name row : list ascii) :
  nul_free name = true -> (length name < length row)%nat ->
  c_str (store_name name row) = name.
Proof.
  intros Hn Hlen. rewrite store_name_spec by exact Hlen.
  rewrite c_str_app by exact Hn. simpl. apply app_nil_r.
Qed.

Lemma entries_length (t : ModuleTable) :
  table_wf t -> length (entries t) = count t.
Proof.
  intros (Hl & _ & Hc). unfold entries. rewrite length_map, length_take. lia.
Qed.

Lemma alter_take_drop {A : Type} (f : A -> A) (l : list A) (i : nat) (x : A) :
  l !! i = Some x -> alter f i l = take i l ++ f x :: drop (S i) l.
Proof.
  intros H. rewrite <- (take_drop_middle l i x H) at 1.
  assert (Hi : length (take i l) = i).
  { rewrite length_take. apply lookup_lt_Some in H. lia. }
  rewrite alter_app_r_alt by lia. rewrite Hi, Nat.sub_diag. reflexivity.
Qed.

Lemma add_module_locked_found (name : list ascii) (t : ModuleTable) :
  find_module name t <> None -> add_module_locked name t = t.
Proof.
  unfold add_module_locked. destruct (find_module name t); [reflexivity|congruence].
Qed.

Lemma add_module_locked_full (name : list ascii) (t : ModuleTable) :
  count t = MAX_MODULES -> add_module_locked name t = t.
Proof.
  intros H. unfold add_module_locked. destruct (find_module name t); [reflexivity|].
  rewrite H. reflexivity.
Qed.

(** Registering a new name while there is room appends it to the
    entries. *)
Lemma add_module_locked_new (name : list ascii) (t : ModuleTable) :
  table_wf t ->
  nul_free name = true -> (length name < MODULE_NAME_LEN)%nat ->
  find_module name t = None -> (count t < MAX_MODULES)%nat ->
  let t' := add_module_locked name t in
  table_wf t' /\ count t' = S (count t) /\ filter_active t' = true /\
  entries t' = entries t ++ [name].
Proof.
  intros (Hl & Hrows & Hc) Hnul Hlen Hfind Hroom. cbv zeta.
  unfold add_module_locked. rewrite Hfind.
  apply Nat.ltb_lt in Hroom. rewrite Hroom. apply Nat.ltb_lt in Hroom.
  destruct (names t !! count t) as [row|] eqn:Hrow.
  2:{ apply lookup_ge_None in Hrow. lia. }
  assert (Hrowlen : length row = MODULE_NAME_LEN).
  { rewrite Forall_forall in Hrows. apply Hrows.
    eapply list_elem_of_lookup_2. exact Hrow. }
  rewrite (alter_take_drop _ _ _ _ Hrow).
  assert (Htake : length (take (count t) (names t)) = count t)
    by (rewrite length_take; lia).
  repeat split; simpl.
  - rewrite length_app, Htake. simpl. rewrite length_drop. lia.
  - apply Forall_app. split.
    + apply Forall_take. exact Hrows.
    + constructor.
      * rewrite store_name_length. exact Hrowlen.
      * apply Forall_drop. exact Hrows.
  - lia.
  - unfold entries. simpl.
    replace (S (count t)) with (length (take (count t) (names t)) + 1)%nat by lia.
    rewrite take_app_add. simpl. rewrite map_app. simpl.
    rewrite c_str_store_name by (rewrite ?Hrowlen; assumption).
    reflexivity.
Qed.

Lemma add_module_locked_idempotent (name : list ascii) (t : ModuleTable) :
  table_wf t -> nul_free name = true -> (length name < MODULE_NAME_LEN)%nat ->
  add_module_locked name (add_module_locked name t) = add_module_locked name t.
Proof.
  intros Hwf Hnul Hlen.
  destruct (find_module name t) as [i|] eqn:Hfind.
  - rewrite !(add_module_locked_found name t) by congruence. reflexivity.
  - destruct (Nat.lt_ge_cases (count t) MAX_MODULES) as [Hroom|Hfull].
    + destruct (add_module_locked_new name t Hwf Hnul Hlen Hfind Hroom)
        as (_ & _ & _ & Hent).
      apply add_module_locked_found. rewrite find_module_None, Hent.
      intros H. apply H. apply in_or_app. right. left. reflexivity.
    + destruct Hwf as (_ & _ & Hc).
      rewrite !(add_module_locked_full name t) by lia. reflexivity.
Qed.

Lemma add_module_locked_inv (name : list ascii) (t : ModuleTable) :
  nul_free name = true -> (1 <= length name <= 31)%nat ->
  table_inv t -> table_inv (add_module_locked name t).
Proof.
  intros Hnul Hlen Hinv. pose proof Hinv as (Hwf & Hel & Hent & Hact).
  destruct (find_module name t) as [i|] eqn:Hfind.
  - rewrite add_module_locked_found by congruence. exact Hinv.
  - destruct (Nat.lt_ge_cases (count t) MAX_MODULES) as [Hroom|Hfull].
    + destruct (add_module_locked_new name t Hwf Hnul ltac:(unfold MODULE_NAME_LEN; lia)
                  Hfind Hroom) as (Hwf' & Hc' & Hact' & Hent').
      split; [exact Hwf'|]. split; [apply entries_length; exact Hwf'|]. split.
      * rewrite Hent'. apply Forall_app. split; [exact Hent|].
        constructor; [exact Hlen|constructor].
      * rewrite Hact', Hc'. split; [discriminate|reflexivity].
    + destruct Hwf as (Hl & Hrows & Hc).
      rewrite add_module_locked_full by lia. exact Hinv.
Qed.

Lemma remove_module_locked_absent (name : list ascii) (t : ModuleTable) :
  ~ In name (entries t) -> remove_module_locked name t = t.
Proof.
  intros H. apply find_module_None in H. unfold remove_module_locked.
  rewrite H. reflexivity.
Qed.

Lemma remove_module_locked_inv (name : list ascii) (t : ModuleTable) :
  table_inv t -> table_inv (remove_module_locked name t).
Proof.
  intros Hinv. pose proof Hinv as (Hwf & Hel & Hent & Hact).
  unfold remove_module_locked.
  destruct (find_module name t) as [i|] eqn:Hfind; [|exact Hinv].
  destruct Hwf as (Hl & Hrows & Hc).
  apply find_module_from_Some in Hfind. destruct Hfind as (Hi & _ & _).
  simpl in Hi.
  assert (Hshift : shift_rows (names t) i (count t - 1 - i)
                   = take i (names t) ++ take (count t - 1 - i) (drop (S i) (names t)) ++
                     drop (i + (count t - 1 - i)) (names t)).
  { apply shift_rows_spec. lia. }
  assert (Hfirst : take (count t) (names t)
                   = take i (names t) ++ take (count t - i) (drop i (names t))).
  { replace (count t) with (i + (count t - i))%nat at 1 by lia. apply take_split. }
  assert (Hwf' : table_wf
                   {| names := shift_rows (names t) i (count t - 1 - i);
                      count := (count t - 1)%nat;
                      filter_active :=
                        if Nat.eqb (count t - 1) 0 then false else filter_active t |}).
  { repeat split; simpl.
    - rewrite Hshift, !length_app, !length_take, !length_drop. lia.
    - rewrite Hshift. repeat (apply Forall_app; split);
        auto using Forall_take, Forall_drop.
    - lia. }
  split; [exact Hwf'|]. split; [apply entries_length; exact Hwf'|]. split.
  - unfold entries in *. simpl. rewrite Hshift.
    rewrite app_assoc, take_app_length'
      by (rewrite length_app, !length_take, length_drop; lia).
    rewrite Hfirst in Hent. rewrite map_app in *.
    apply Forall_app in Hent. destruct Hent as [H1 H2].
    apply Forall_app. split; [exact H1|].
    destruct (drop i (names t)) as [|r rest] eqn:Hdrop.
    { apply (f_equal (@length _)) in Hdrop. rewrite length_drop in Hdrop.
      simpl in Hdrop. lia. }
    replace (drop (S i) (names t)) with rest.
    2:{ replace (S i) with (i + 1)%nat by lia. rewrite <- drop_drop, Hdrop.
        reflexivity. }
    replace (count t - i)%nat with (S (count t - 1 - i)) in H2 by lia.
    simpl in H2. inversion H2; assumption.
  - simpl. destruct (Nat.eqb (count t - 1) 0) eqn:E.
    + apply Nat.eqb_eq in E. split; [discriminate|lia].
    + apply Nat.eqb_neq in E. rewrite Hact. split; lia.
Qed.

Lemma clear_modules_locked_inv (t : ModuleTable) :
  table_inv t -> table_inv (clear_modules_locked t).
Proof.
  intros ((Hl & Hrows & Hc) & _). unfold clear_modules_locked, table_inv, table_wf, entries.
  simpl. repeat split; try assumption; try lia; try constructor; try discriminate.
Qed.

Lemma clear_modules_locked_empty (t : ModuleTable) :
  count t = 0%nat -> filter_active t = false -> clear_modules_locked t = t.
Proof. destruct t. simpl. intros -> ->. reflexivity. Qed.

(** The tokens of [CT_DEBUG] *)

Lemma scan_token_rest_le (p : list ascii) :
  (length (snd (scan_token p)) <= length p)%nat.
Proof.
  induction p as [|c p IH]; simpl; [lia|].
  destruct (is_nul c || Ascii.eqb c ","%char); simpl; [lia|].
  destruct (scan_token p) as [tok e]; simpl in *; lia.
Qed.

Lemma scan_token_nul_free (p : list ascii) : nul_free (fst (scan_token p)) = true.
Proof.
  induction p as [|c p IH]; simpl; [reflexivity|].
  destruct (is_nul c) eqn:E; simpl; [reflexivity|].
  destruct (Ascii.eqb c ","%char); simpl; [reflexivity|].
  destruct (scan_token p) as [tok e]. simpl in *. rewrite E, IH. reflexivity.
Qed.

(** One iteration of the parser leaves a strictly shorter string. *)
Lemma scan_token_advances (start : list ascii) :
  at_end start = false ->
  let e := snd (scan_token start) in
  (length (if at_end e then e else tl e) < length start)%nat.
Proof.
  destruct start as [|c p]; [discriminate|]. simpl. intros Hs.
  destruct (is_nul c || Ascii.eqb c ","%char) eqn:Hc; simpl.
  - rewrite Hs. simpl. lia.
  - pose proof (scan_token_rest_le p) as Hle.
    destruct (scan_token p) as [tok e]; simpl in *.
    destruct (at_end e); [lia|]. destruct e; simpl in *; lia.
Qed.

(** The loop is over before the fuel is: any fuel of at least the length
    of the string gives the same table. *)
Lemma seed_loop_fuel (fuel1 : nat) :
  forall (fuel2 : nat) (start : list ascii) (t : ModuleTable),
    (length start <= fuel1)%nat -> (length start <= fuel2)%nat ->
    seed_loop fuel1 start t = seed_loop fuel2 start t.
Proof.
  induction fuel1 as [|fuel1 IH]; intros fuel2 start t H1 H2.
  - destruct start; [|simpl in H1; lia]. destruct fuel2; reflexivity.
  - destruct fuel2 as [|fuel2].
    + destruct start; [reflexivity|simpl in H2; lia].
    + cbn [seed_loop]. destruct (at_end start) eqn:Hs; [reflexivity|].
      pose proof (scan_token_advances start Hs) as Hadv. cbv zeta in Hadv.
      apply IH; lia.
Qed.

(** Whatever holds of the table and is kept by registering a valid name
    holds after seeding. *)
Lemma seed_loop_preserves (P : ModuleTable -> Prop) :
  (forall name t,
     nul_free name = true -> (1 <= length name <= 31)%nat ->
     P t -> P (add_module_locked name t)) ->
  forall fuel start t, P t -> P (seed_loop fuel start t).
Proof.
  intros Hadd fuel. induction fuel as [|fuel IH]; intros start t HP; [exact HP|].
  cbn [seed_loop]. destruct (at_end start); [exact HP|].
  apply IH.
  destruct ((0 <? length (fst (scan_token start)))%nat
            && (length (fst (scan_token start)) <? MODULE_NAME_LEN)%nat) eqn:E;
    [|exact HP].
  apply andb_prop in E. destruct E as [E1 E2].
  apply Nat.ltb_lt in E1. apply Nat.ltb_lt in E2. unfold MODULE_NAME_LEN in E2.
  apply Hadd; [apply scan_token_nul_free|lia|exact HP].
Qed.

Lemma seed_modules_preserves (P : ModuleTable -> Prop) :
  (forall name t,
     nul_free name = true -> (1 <= length name <= 31)%nat ->
     P t -> P (add_module_locked name t)) ->
  forall start t, P t -> P (seed_modules start t).
Proof. intros Hadd start t. apply seed_loop_preserves. exact Hadd. Qed.

(** ** The module operations on the world *)

Lemma module_prelude_eq (w : World) :
  module_prelude w
  = (Ret tt,
     {| globals :=
          initialised {| globals := store_modules_set_explicitly true (globals w);
                         process := process w; out := out w |};
        process := process w; out := out w |}).
Proof.
  unfold module_prelude, bind, store. rewrite init_once_eq. reflexivity.
Qed.

Lemma module_prelude_facts (w : World) :
  let wp := exec module_prelude w in
  g_modules (globals wp) = g_modules (globals w) /\
  g_modules_set_explicitly (globals wp) = true /\
  g_init_once (globals wp) = true /\
  out wp = out w /\ process wp = process w.
Proof.
  unfold exec. rewrite module_prelude_eq. unfold initialised. simpl.
  destruct (g_init_once (globals w)) eqn:E; simpl; rewrite ?E; auto.
Qed.

Lemma module_prelude_idem (w : World) :
  g_modules_set_explicitly (globals w) = true ->
  g_init_once (globals w) = true ->
  exec module_prelude w = w.
Proof.
  unfold exec. rewrite module_prelude_eq. unfold initialised.
  destruct w as [g p o]. destruct g. simpl. intros -> ->. reflexivity.
Qed.

Lemma run_call_eq (c : ExplicitModuleCall) (w : World) :
  run_call c w
  = (Ret tt,
     if rejected c then w
     else let wp := exec module_prelude w in
          with_modules (apply_call c (g_modules (globals wp))) wp).
Proof.
  destruct c as [name|name|]; cbn [run_call rejected apply_call];
    unfold enable_module, disable_module, enable_all_modules.
  - destruct (Nat.eqb (length name) 0 || (MODULE_NAME_LEN <=? length name)%nat);
      [reflexivity|].
    unfold exec. rewrite module_prelude_eq.
    unfold bind, store, load. simpl. rewrite init_once_eq. reflexivity.
  - destruct (Nat.eqb (length name) 0); [reflexivity|].
    unfold exec. rewrite module_prelude_eq.
    unfold bind, store, load. simpl. rewrite init_once_eq. reflexivity.
  - unfold exec. rewrite module_prelude_eq.
    unfold bind, store, load. simpl. rewrite init_once_eq. reflexivity.
Qed.

Lemma exec_run_call (c : ExplicitModuleCall) (w : World) :
  exec (run_call c) w
  = if rejected c then w
    else let wp := exec module_prelude w in
         with_modules (apply_call c (g_modules (globals wp))) wp.
Proof. unfold exec. rewrite run_call_eq. reflexivity. Qed.

Lemma modules_after_call (c : ExplicitModuleCall) (w : World) :
  rejected c = false ->
  let w' := exec (run_call c) w in
  g_modules (globals w') = apply_call c (g_modules (globals w)) /\
  g_modules_set_explicitly (globals w') = true /\
  g_init_once (globals w') = true.
Proof.
  intros Hrej. rewrite exec_run_call, Hrej. cbv zeta.
  destruct (module_prelude_facts w) as (Hm & He & Hi & _).
  unfold with_modules. simpl. rewrite Hm. auto.
Qed.

Lemma with_modules_same (w : World) : with_modules (g_modules (globals w)) w = w.
Proof. destruct w as [g p o]. destruct g. reflexivity. Qed.

Lemma with_modules_twice (t t' : ModuleTable) (w : World) :
  with_modules t (with_modules t' w) = with_modules t w.
Proof. reflexivity. Qed.

(** Once modules are marked explicit, [init_from_env] leaves the table
    alone, whatever the environment holds. *)
Lemma init_from_env_keeps_explicit_modules (w : World) :
  g_modules_set_explicitly (globals w) = true ->
  g_modules (globals (exec init_from_env w)) = g_modules (globals w).
Proof.
  intros H. unfold exec. rewrite init_from_env_eq. simpl. rewrite H. reflexivity.
Qed.

Lemma init_from_env_keeps_explicit_level (w : World) :
  g_min_level_set_explicitly (globals w) = true ->
  g_min_level (globals (exec init_from_env w)) = g_min_level (globals w).
Proof.
  intros H. unfold exec. rewrite init_from_env_eq. simpl. rewrite H. reflexivity.
Qed.

Lemma env_modules_inv (p : Process) (t : ModuleTable) :
  table_inv t -> table_inv (env_modules p t).
Proof.
  intros H. unfold env_modules.
  destruct (env_CT_DEBUG p) as [s|]; [|exact H].
  destruct (negb (is_nul (deref s))); [|exact H].
  apply seed_modules_preserves; [|exact H].
  intros name t' Hnul Hlen Ht'. apply add_module_locked_inv; assumption.
Qed.

Lemma initial_modules_inv : table_inv initial_modules.
Proof.
  unfold table_inv, table_wf, entries, initial_modules.
  cbn [names count filter_active]. rewrite take_0. cbn [map length].
  split; [split; [|split]|split; [|split]].
  - apply length_replicate.
  - apply Forall_replicate. apply length_replicate.
  - apply Nat.le_0_l.
  - reflexivity.
  - constructor.
  - split; [discriminate|congruence].
Qed.

Lemma run_op_inv (op : ModuleOp) (w : World) :
  names_are_c_strings op = true ->
  table_inv (g_modules (globals w)) ->
  run_op op w = (Ret tt, exec (run_op op) w) /\
  table_inv (g_modules (globals (exec (run_op op) w))).
Proof.
  intros Hop Hinv. destruct op as [c|]; cbn [run_op].
  - split; [unfold exec; rewrite run_call_eq; reflexivity|].
    destruct (rejected c) eqn:Hrej.
    + rewrite exec_run_call, Hrej. exact Hinv.
    + destruct (modules_after_call c w Hrej) as (-> & _).
      destruct c as [name|name|];
        cbn [rejected apply_call names_are_c_strings] in *.
      * apply orb_false_elim in Hrej. destruct Hrej as [H0 Hlen].
        apply Nat.eqb_neq in H0. apply Nat.leb_gt in Hlen.
        unfold MODULE_NAME_LEN in Hlen.
        apply add_module_locked_inv; [exact Hop|lia|exact Hinv].
      * apply remove_module_locked_inv. exact Hinv.
      * apply clear_modules_locked_inv. exact Hinv.
  - split; [unfold exec; rewrite init_once_eq; reflexivity|].
    rewrite exec_init_once. simpl. unfold initialised.
    destruct (g_init_once (globals w)); [exact Hinv|]. simpl.
    destruct (g_modules_set_explicitly (globals w)); [exact Hinv|].
    apply env_modules_inv. exact Hinv.
Qed.

Lemma run_ops_inv (ops : list ModuleOp) :
  forall w,
    forallb names_are_c_strings ops = true ->
    table_inv (g_modules (globals w)) ->
    table_inv (g_modules (globals (exec (run_ops ops) w))).
Proof.
  induction ops as [|op ops IH]; intros w Hops Hinv.
  - exact Hinv.
  - simpl in Hops. apply andb_prop in Hops. destruct Hops as [Hop Hops].
    destruct (run_op_inv op w Hop Hinv) as (E & Hinv').
    unfold exec at 1. cbn [run_ops]. unfold bind. rewrite E.
    apply (IH _ Hops Hinv').
Qed.

Lemma run_op_eq (op : ModuleOp) (w : World) :
  run_op op w = (Ret tt, exec (run_op op) w).
Proof.
  destruct op as [c|]; cbn [run_op]; unfold exec.
  - rewrite run_call_eq. reflexivity.
  - rewrite init_once_eq. reflexivity.
Qed.

(** Once the modules are marked explicit and the initialisation has run,
    the table only follows the explicit calls. *)
Lemma run_ops_explicit (ops : list ModuleOp) :
  forall w,
    g_modules_set_explicitly (globals w) = true ->
    g_init_once (globals w) = true ->
    g_modules (globals (exec (run_ops ops) w)) = replay ops (g_modules (globals w)).
Proof.
  induction ops as [|op ops IH]; intros w He Hi; [reflexivity|].
  unfold exec at 1. cbn [run_ops]. unfold bind. rewrite run_op_eq.
  change (snd (run_ops ops (exec (run_op op) w)))
    with (exec (run_ops ops) (exec (run_op op) w)).
  unfold replay. cbn [fold_left]. fold (replay ops (replay_op (g_modules (globals w)) op)).
  destruct op as [c|]; cbn [run_op replay_op].
  - rewrite exec_run_call. destruct (rejected c); [apply IH; assumption|].
    cbv zeta. rewrite (module_prelude_idem w He Hi).
    rewrite IH; [reflexivity| |]; destruct w as [g p o]; destruct g; assumption.
  - rewrite (init_once_done w Hi). apply IH; assumption.
Qed.

Lemma seed_modules_full (s : list ascii) (t : ModuleTable) :
  count t = MAX_MODULES -> seed_modules s t = t.
Proof.
  intros Hfull.
  apply (seed_modules_preserves (fun t' => t' = t)); [|reflexivity].
  intros name t' _ _ ->. apply add_module_locked_full. exact Hfull.
Qed.

(** ** Claims about the module table and the environment defaults *)

(** C5, as stated, fails for a name that holds a NUL byte: the guard of
    [enable_module] looks at the size alone, the row is read back up to
    its first NUL, and the table holds an entry that is the empty
    name. *)
Lemma nul_name_leaves_empty_entry :
  let w := exec (enable_module [NUL; "x"%char]) (initial_world demo_process) in
  count (g_modules (globals w)) = 1%nat /\
  entries (g_modules (globals w)) = [[]] /\
  Exists (fun e => length e = 0%nat) (entries (g_modules (globals w))).
Proof.
  cbv zeta. split; [reflexivity|]. split; [reflexivity|].
  apply Exists_cons_hd. reflexivity.
Qed.

(** C5, amended.  After every sequence of module operations
    ([enable_module], [disable_module], [enable_all_modules] and the
    seeding from [CT_DEBUG]) run from the initial state, the names given
    to [enable_module] being C strings (no NUL byte in them), the table
    holds at most 32 entries, every entry is a non-empty name of at
    most 31 bytes, and [filter_active] is set exactly when the table is
    not empty.  An insertion into a table that holds 32 entries, by
    [enable_module] or by the seeding, returns normally and leaves the
    table as it is. *)
Theorem module_table_invariant (ops : list ModuleOp) (p : Process) :
  forallb names_are_c_strings ops = true ->
  let t := g_modules (globals (exec (run_ops ops) (initial_world p))) in
  ((count t <= MAX_MODULES)%nat /\
   length (entries t) = count t /\
   Forall (fun e => (1 <= length e <= 31)%nat) (entries t) /\
   (filter_active t = true <-> entries t <> [])) /\
  (forall name w,
     count (g_modules (globals w)) = MAX_MODULES ->
     result (enable_module name) w = Ret tt /\
     g_modules (globals (exec (enable_module name) w)) = g_modules (globals w)) /\
  (forall w,
     count (g_modules (globals w)) = MAX_MODULES ->
     g_modules (globals (exec init_once w)) = g_modules (globals w)).
Proof.
  intros Hops t. split; [|split].
  - destruct (run_ops_inv ops (initial_world p) Hops initial_modules_inv)
      as ((_ & _ & Hc) & Hlen & Hent & Hact).
    fold t in Hc, Hlen, Hent, Hact.
    repeat split; try assumption.
    + intros H E. apply Hact in H. rewrite E in Hlen. simpl in Hlen. congruence.
    + intros H. apply Hact. intros E. rewrite E in Hlen.
      destruct (entries t); [congruence|discriminate].
  - intros name w Hfull. change (enable_module name) with (run_call (CallEnable name)).
    unfold result. rewrite exec_run_call, run_call_eq. split; [reflexivity|].
    destruct (rejected (CallEnable name)); [reflexivity|]. cbv zeta.
    destruct (module_prelude_facts w) as (Hm & _).
    unfold with_modules. simpl. rewrite Hm. apply add_module_locked_full. exact Hfull.
  - intros w Hfull. rewrite exec_init_once. simpl. unfold initialised.
    destruct (g_init_once (globals w)); [reflexivity|]. simpl.
    destruct (g_modules_set_explicitly (globals w)); [reflexivity|].
    unfold env_modules. destruct (env_CT_DEBUG (process w)) as [s|]; [|reflexivity].
    destruct (negb (is_nul (deref s))); [|reflexivity].
    apply seed_modules_full. exact Hfull.
Qed.

Lemma module_table_invariant_witness :
  let t := g_modules (globals (exec (run_ops demo_ops) (initial_world demo_process_env))) in
  (count t <= MAX_MODULES)%nat /\
  length (entries t) = count t /\
  Forall (fun e => (1 <= length e <= 31)%nat) (entries t) /\
  (filter_active t = true <-> entries t <> []).
Proof.
  exact (proj1 (module_table_invariant demo_ops demo_process_env eq_refl)).
Defined.

(** C6, as stated, fails: on a fresh process started with
    [CT_DEBUG=alloc] the name [zzz] is not in the table, before or after
    the seeding, yet [disable_module] with it changes the state (it marks
    the modules as explicitly set and runs the one-time initialisation),
    and the change shows: afterwards a call tagged [net] is emitted,
    while without it the same call is filtered out by the seeded table. *)
Lemma disable_absent_module_changes_fresh_state :
  let w0 := initial_world demo_process_env in
  let tagged := enable_logging ;;
                log_module (demo_entry Error) (sv "net") (Ret (sv "x")) in
  ~ In (sv "zzz") (entries (g_modules (globals w0))) /\
  ~ In (sv "zzz") (entries (g_modules (globals (exec init_once w0)))) /\
  exec (disable_module (sv "zzz")) w0 <> w0 /\
  out (exec tagged (exec (disable_module (sv "zzz")) w0)) <> out (exec tagged w0).
Proof.
  cbv zeta. split; [|split; [|split]].
  - vm_compute. intros [].
  - vm_compute. intros [H|[]]. discriminate H.
  - intros H.
    apply (f_equal (fun w => g_modules_set_explicitly (globals w))) in H.
    vm_compute in H. discriminate H.
  - vm_compute. discriminate.
Qed.

(** C6, amended.  Calling [enable_module] twice with the same name (a C
    string) leaves the logger state exactly as after calling it once.
    Calling [disable_module] with a name that is not in the table, or
    [enable_all_modules] when no module is registered, leaves the module
    table unchanged; the rest of the state changes only by what every
    accepted module call does first, marking the modules as explicitly
    set and running the one-time initialisation, so that the whole state
    is unchanged once both have happened. *)
Theorem module_calls_idempotent (name : list ascii) (w : World) :
  (table_wf (g_modules (globals w)) -> nul_free name = true ->
   exec (enable_module name) (exec (enable_module name) w)
   = exec (enable_module name) w) /\
  (~ In name (entries (g_modules (globals w))) ->
   g_modules (globals (exec (disable_module name) w)) = g_modules (globals w) /\
   exec (disable_module name) w
   = (if Nat.eqb (length name) 0 then w else exec module_prelude w) /\
   (g_modules_set_explicitly (globals w) = true -> g_init_once (globals w) = true ->
    exec (disable_module name) w = w)) /\
  (count (g_modules (globals w)) = 0%nat ->
   filter_active (g_modules (globals w)) = false ->
   g_modules (globals (exec enable_all_modules w)) = g_modules (globals w) /\
   exec enable_all_modules w = exec module_prelude w /\
   (g_modules_set_explicitly (globals w) = true -> g_init_once (globals w) = true ->
    exec enable_all_modules w = w)).
Proof.
  split; [|split].
  - intros Hwf Hnul. change (enable_module name) with (run_call (CallEnable name)).
    destruct (rejected (CallEnable name)) eqn:Hrej.
    + rewrite !exec_run_call, Hrej. reflexivity.
    + destruct (modules_after_call (CallEnable name) w Hrej) as (Hm & He & Hi).
      set (w2 := exec (run_call (CallEnable name)) w) in *.
      rewrite (exec_run_call (CallEnable name) w2), Hrej. cbv zeta.
      rewrite (module_prelude_idem w2 He Hi), Hm. cbn [apply_call] in *.
      rewrite add_module_locked_idempotent; try assumption.
      * rewrite <- Hm. apply with_modules_same.
      * cbn [rejected] in Hrej. apply orb_false_elim in Hrej.
        destruct Hrej as [_ Hlen]. apply Nat.leb_gt in Hlen. exact Hlen.
  - intros Hin. change (disable_module name) with (run_call (CallDisable name)).
    rewrite exec_run_call. cbn [rejected apply_call].
    destruct (Nat.eqb (length name) 0); [auto|]. cbv zeta.
    destruct (module_prelude_facts w) as (Hm & _).
    rewrite Hm, remove_module_locked_absent by exact Hin.
    rewrite <- Hm, with_modules_same.
    repeat split.
    intros He Hi. apply module_prelude_idem; assumption.
  - intros Hc Hf. change enable_all_modules with (run_call CallEnableAll).
    rewrite exec_run_call. cbn [rejected apply_call]. cbv zeta.
    destruct (module_prelude_facts w) as (Hm & _).
    rewrite Hm, clear_modules_locked_empty by assumption.
    rewrite <- Hm, with_modules_same.
    repeat split.
    intros He Hi. apply module_prelude_idem; assumption.
Qed.

Lemma module_calls_idempotent_witness :
  exec (enable_module (sv "x")) (exec (enable_module (sv "x")) (initial_world demo_process))
  = exec (enable_module (sv "x")) (initial_world demo_process).
Proof.
  apply (proj1 (module_calls_idempotent (sv "x") (initial_world demo_process))).
  - apply initial_modules_inv.
  - reflexivity.
Defined.

(** C3, as stated, fails for the calls that the guards of
    [enable_module] and [disable_module] turn away: after
    [enable_module] with the empty name the process is still unmarked,
    and the first lazy initialisation applies [CT_DEBUG=alloc]. *)
Lemma rejected_call_leaves_environment_defaults :
  let w' := exec (enable_module []) (initial_world demo_process_env) in
  entries (g_modules (globals w')) = [] /\
  entries (g_modules (globals (exec init_once w'))) = [sv "alloc"] /\
  g_modules (globals (exec init_once w')) <> g_modules (globals w').
Proof.
  cbv zeta. split; [reflexivity|]. split; [vm_compute; reflexivity|].
  intros H. apply (f_equal count) in H. vm_compute in H. discriminate H.
Qed.

(** C3, amended.  For every level [X], after [set_min_level X] the
    minimum level is [X], whether the lazy initialisation had run before
    the call or not, and it stays [X]: a later [init_once] does nothing,
    and [init_from_env] itself, in any environment, would leave the level
    alone.  Likewise after every module call that its guard accepts (any
    [enable_all_modules], [disable_module] with a non-empty name,
    [enable_module] with a name of 1 to 31 bytes): the call acts on the
    table as it was, without seeding it, a later [init_once] does
    nothing, [init_from_env], in any environment, would leave the table
    alone, and through every later sequence of module operations the
    table follows the accepted explicit calls only. *)
Theorem explicit_calls_override_environment (X : Level) (c : ExplicitModuleCall)
    (w : World) :
  (let w' := exec (set_min_level X) w in
   result min_level w' = Ret (level_to_int X) /\
   exec init_once w' = w' /\
   forall p, g_min_level (globals (exec init_from_env (with_process p w')))
             = level_to_int X) /\
  (rejected c = false ->
   let w' := exec (run_call c) w in
   g_modules (globals w') = apply_call c (g_modules (globals w)) /\
   exec init_once w' = w' /\
   (forall p, g_modules (globals (exec init_from_env (with_process p w')))
              = g_modules (globals w')) /\
   (forall ops, g_modules (globals (exec (run_ops ops) w'))
                = replay ops (g_modules (globals w')))).
Proof.
  split.
  - assert (E : exec (set_min_level X) w
                = {| globals :=
                       store_min_level (level_to_int X)
                         (initialised
                            {| globals := store_min_level_set_explicitly true (globals w);
                               process := process w; out := out w |});
                     process := process w; out := out w |}).
    { unfold exec, set_min_level, bind, store. rewrite init_once_eq. reflexivity. }
    cbv zeta. rewrite E. clear E.
    set (wm := {| globals := store_min_level_set_explicitly true (globals w);
                  process := process w; out := out w |}).
    assert (Hflags : g_init_once (initialised wm) = true /\
                     g_min_level_set_explicitly (initialised wm) = true).
    { split; [apply initialised_fields|].
      unfold initialised, wm. simpl. destruct (g_init_once (globals w)); reflexivity. }
    destruct Hflags as [Hi He].
    split; [reflexivity|]. split.
    + apply init_once_done. simpl. destruct (initialised wm). simpl in *. exact Hi.
    + intros p. rewrite init_from_env_keeps_explicit_level.
      * reflexivity.
      * simpl. destruct (initialised wm). simpl in *. exact He.
  - intros Hrej. destruct (modules_after_call c w Hrej) as (Hm & He & Hi).
    cbv zeta. split; [exact Hm|]. split.
    + apply init_once_done. exact Hi.
    + split.
      * intros p.
        rewrite init_from_env_keeps_explicit_modules; [reflexivity|exact He].
      * intros ops. apply run_ops_explicit; assumption.
Qed.

Lemma explicit_calls_override_environment_witness :
  let w' := exec (run_call (CallEnable (sv "trace"))) (initial_world demo_process_env) in
  g_modules (globals w')
  = apply_call (CallEnable (sv "trace")) (g_modules (globals (initial_world demo_process_env))) /\
  exec init_once w' = w' /\
  (forall p, g_modules (globals (exec init_from_env (with_process p w')))
             = g_modules (globals w')) /\
  (forall ops, g_modules (globals (exec (run_ops ops) w'))
               = replay ops (g_modules (globals w'))).
Proof.
  exact (proj2 (explicit_calls_override_environment Error (CallEnable (sv "trace"))
                  (initial_world demo_process_env)) eq_refl).
Defined.

(** * Further properties of the code *)

(** ** String helpers *)

(** X1.  [sv_eq] is exact byte equality: it answers true exactly when the
    two views hold the same bytes, so that views of different lengths,
    or that differ in case, never compare equal. *)
Theorem sv_eq_is_byte_equality (a b : list ascii) :
  (sv_eq a b = true <-> a = b) /\
  (length a <> length b -> sv_eq a b = false).
Proof.
  split; [apply sv_eq_true|].
  intros Hlen. apply sv_eq_false. intros ->. apply Hlen. reflexivity.
Qed.

Lemma cstr_ieq_spec (a b : list ascii) :
  cstr_ieq a b = true <-> map lower (c_str a) = map lower (c_str b).
Proof.
  revert b. induction a as [|x a IH]; intros b.
  - destruct b as [|y b]; cbn [cstr_ieq deref hd c_str].
    + rewrite Ascii.eqb_refl. split; reflexivity.
    + unfold is_nul. rewrite (Ascii.eqb_sym NUL y).
      destruct (Ascii.eqb y NUL); cbn [map];
        split; intros H; first [reflexivity|discriminate H].
  - destruct b as [|y b]; cbn [cstr_ieq c_str deref hd].
    + unfold is_nul. destruct (Ascii.eqb x NUL); cbn [map];
        split; intros H; first [reflexivity|discriminate H].
    + destruct (is_nul x) eqn:Hx; destruct (is_nul y) eqn:Hy; cbn [orb map].
      * apply is_nul_true in Hx. apply is_nul_true in Hy. subst.
        rewrite Ascii.eqb_refl. split; reflexivity.
      * apply is_nul_true in Hx. subst x. unfold is_nul in Hy.
        rewrite Ascii.eqb_sym, Hy. split; intros H; discriminate H.
      * apply is_nul_true in Hy. subst y. unfold is_nul in Hx.
        rewrite Hx. split; intros H; discriminate H.
      * destruct (Ascii.eqb (lower x) (lower y)) eqn:E; cbn [negb].
        -- apply Ascii.eqb_eq in E. rewrite IH, E. split.
           ++ intros ->. reflexivity.
           ++ intros H. injection H as H. exact H.
        -- apply Ascii.eqb_neq in E. split; [intros H; discriminate H|].
           intros H. injection H as H _. contradiction.
Qed.

(** X2.  [cstr_ieq] compares two C strings up to their terminators and
    up to the case of the letters A to Z: it holds exactly when the two
    strings, each byte folded to lower case, are the same. *)
Theorem cstr_ieq_compares_folded_strings (a b : list ascii) :
  cstr_ieq a b = true <-> map lower (c_str a) = map lower (c_str b).
Proof. apply cstr_ieq_spec. Qed.

(** ** Defaults from the environment *)

(** X3.  On a process that has neither run the lazy initialisation nor
    set the level explicitly, [init_once] takes the minimum level from
    [CT_LOG_LEVEL], compared without regard to case: [warn] gives Warn,
    [error] gives Error, any other value (also [info], or the empty
    string) gives Info, and an unset variable leaves the level as it
    is. *)
Theorem environment_level_default (w : World) :
  g_init_once (globals w) = false ->
  g_min_level_set_explicitly (globals w) = false ->
  let lvl := g_min_level (globals (exec init_once w)) in
  match env_CT_LOG_LEVEL (process w) with
  | None => lvl = g_min_level (globals w)
  | Some s =>
      (map lower (c_str s) = sv "warn" -> lvl = level_to_int Warn) /\
      (map lower (c_str s) = sv "error" -> lvl = level_to_int Error) /\
      (map lower (c_str s) <> sv "warn" -> map lower (c_str s) <> sv "error" ->
       lvl = level_to_int Info)
  end.
Proof.
  intros Hi He lvl. subst lvl. rewrite exec_init_once. unfold initialised.
  rewrite Hi, He. cbn [globals g_min_level store_init_once store_modules store_min_level].
  unfold env_level. destruct (env_CT_LOG_LEVEL (process w)) as [s|]; [|reflexivity].
  pose proof (cstr_ieq_spec s (sv "warn")) as Hw.
  pose proof (cstr_ieq_spec s (sv "error")) as Hr.
  change (map lower (c_str (sv "warn"))) with (sv "warn") in Hw.
  change (map lower (c_str (sv "error"))) with (sv "error") in Hr.
  destruct (cstr_ieq s (sv "warn")) eqn:Ew.
  - assert (Hs : map lower (c_str s) = sv "warn") by (apply Hw; reflexivity).
    repeat split; try reflexivity.
    + intros H. rewrite Hs in H. discriminate H.
    + intros H. contradiction.
  - assert (Hnw : map lower (c_str s) <> sv "warn").
    { intros H. apply Hw in H. discriminate H. }
    destruct (cstr_ieq s (sv "error")) eqn:Er.
    + assert (Hs : map lower (c_str s) = sv "error") by (apply Hr; reflexivity).
      repeat split; try reflexivity.
      * intros H. contradiction.
      * intros _ H. contradiction.
    + assert (Hnr : map lower (c_str s) <> sv "error").
      { intros H. apply Hr in H. discriminate H. }
      repeat split; try reflexivity; intros H; contradiction.
Qed.

Lemma environment_level_default_witness :
  g_min_level
    (globals (exec init_once
                (initial_world
                   {| env_CT_LOG_LEVEL := Some (sv "WaRn"); env_CT_DEBUG := None;
                      env_NO_COLOR := None; stderr_isatty := false;
                      os_getpid := 12345; wall_clock := demo_clock |})))
  = level_to_int Warn.
Proof.
  apply (environment_level_default
           (initial_world
              {| env_CT_LOG_LEVEL := Some (sv "WaRn"); env_CT_DEBUG := None;
                 env_NO_COLOR := None; stderr_isatty := false;
                 os_getpid := 12345; wall_clock := demo_clock |})
           eq_refl eq_refl).
  reflexivity.
Defined.

(** The parser of [CT_DEBUG] against the list cut at its commas *)

Lemma split_commas_cons (s : list ascii) :
  exists tok rest, split_commas s = tok :: rest.
Proof.
  induction s as [|c s (tok & rest & IH)]; simpl; [eauto|].
  destruct (Ascii.eqb c comma); [eauto|]. rewrite IH. eauto.
Qed.

Lemma split_commas_token (tok r : list ascii) :
  ~ In comma tok ->
  split_commas tok = [tok] /\
  split_commas (tok ++ comma :: r) = tok :: split_commas r.
Proof.
  induction tok as [|c tok IH]; intros Hfree.
  - split; reflexivity.
  - assert (Hc : Ascii.eqb c comma = false).
    { apply Ascii.eqb_neq. intros ->. apply Hfree. left. reflexivity. }
    destruct IH as [IH1 IH2]; [intros H; apply Hfree; right; exact H|].
    simpl. rewrite Hc, IH1, IH2. split; reflexivity.
Qed.

(** What one scan takes off the string. *)
Lemma scan_token_c_str (p : list ascii) :
  let tok := fst (scan_token p) in
  let e := snd (scan_token p) in
  ~ In comma tok /\
  (at_end e = true -> c_str p = tok) /\
  (at_end e = false -> c_str p = tok ++ comma :: c_str (tl e)).
Proof.
  induction p as [|c p IH]; cbn [scan_token].
  - simpl. repeat split; auto. discriminate.
  - destruct (is_nul c) eqn:Hn; cbn [orb].
    + simpl. rewrite Hn. repeat split; auto. discriminate.
    + destruct (Ascii.eqb c comma) eqn:Hc.
      * apply Ascii.eqb_eq in Hc. subst c. simpl. repeat split; auto. discriminate.
      * destruct (scan_token p) as [tok e]. simpl in IH. simpl. rewrite Hn.
        destruct IH as (Hfree & Hend & Hmore). repeat split.
        -- intros [H|H]; [|auto]. subst c. rewrite Ascii.eqb_refl in Hc. discriminate.
        -- intros H. rewrite (Hend H). reflexivity.
        -- intros H. rewrite (Hmore H). reflexivity.
Qed.

Lemma seed_loop_at_end (fuel : nat) (start : list ascii) (t : ModuleTable) :
  at_end start = true -> seed_loop fuel start t = t.
Proof. intros H. destruct fuel; simpl; [reflexivity|]. rewrite H. reflexivity. Qed.

Lemma at_end_c_str (p : list ascii) : at_end p = true -> c_str p = [].
Proof. destruct p as [|c p]; simpl; [reflexivity|]. intros ->. reflexivity. Qed.

Lemma seed_loop_split (fuel : nat) :
  forall (start : list ascii) (t : ModuleTable),
    (length start <= fuel)%nat ->
    seed_loop fuel start t
    = register_all (List.filter valid_token (split_commas (c_str start))) t.
Proof.
  induction fuel as [|fuel IH]; intros start t Hlen.
  - destruct start; [reflexivity|simpl in Hlen; lia].
  - cbn [seed_loop]. destruct (at_end start) eqn:Hs.
    + rewrite (at_end_c_str start Hs). reflexivity.
    + pose proof (scan_token_advances start Hs) as Hadv. cbv zeta in Hadv.
      destruct (scan_token_c_str start) as (Hfree & Hend & Hmore).
      cbv zeta in Hfree, Hend, Hmore.
      destruct (split_commas_token (fst (scan_token start))
                  (c_str (tl (snd (scan_token start)))) Hfree) as [Hone Hcons].
      fold (valid_token (fst (scan_token start))).
      destruct (at_end (snd (scan_token start))) eqn:He.
      * rewrite (seed_loop_at_end _ _ _ He), (Hend eq_refl), Hone.
        cbn [List.filter]. destruct (valid_token (fst (scan_token start))); reflexivity.
      * rewrite IH by lia. rewrite (Hmore eq_refl), Hcons.
        cbn [List.filter]. destruct (valid_token (fst (scan_token start))); reflexivity.
Qed.

(** X4.  Seeding from [CT_DEBUG] registers, from left to right and as
    [enable_module] would, the pieces between the commas of the value
    (read up to its terminator) that have 1 to 31 bytes; empty pieces and
    longer ones are skipped, and no byte is trimmed. *)
Theorem seed_modules_registers_tokens (s : list ascii) (t : ModuleTable) :
  seed_modules s t
  = register_all (List.filter valid_token (split_commas (c_str s))) t.
Proof. unfold seed_modules. apply seed_loop_split. lia. Qed.

(** X5.  The lazy initialisation runs once: after a first [init_once] a
    further one changes nothing, whatever the environment has become in
    the meantime. *)
Theorem init_once_runs_once (w : World) (p : Process) :
  let w1 := exec init_once w in
  g_init_once (globals w1) = true /\
  exec init_once w1 = w1 /\
  exec init_once (with_process p w1) = with_process p w1.
Proof.
  cbv zeta.
  assert (H : g_init_once (globals (exec init_once w)) = true).
  { rewrite exec_init_once. apply initialised_fields. }
  split; [exact H|]. split; apply init_once_done; exact H.
Qed.

(** ** The prefix, for every length *)

(** X6.  [set_prefix] stores at most 63 bytes: whatever the string, the
    prefix read back is its first 63 bytes (the whole string when it has
    at most 63, the empty prefix included), the buffer keeps its 64
    bytes and holds the terminator right after the prefix, and nothing
    but the prefix buffer and its length is changed. *)
Theorem set_prefix_stores_bounded_prefix (s : list ascii) (w : World) :
  length (g_prefix_buf (globals w)) = prefix_buf_size ->
  let w' := exec (set_prefix s) w in
  result read_prefix_snapshot w' = Ret (take 63 s) /\
  ((length s <= 63)%nat -> result read_prefix_snapshot w' = Ret s) /\
  length (g_prefix_buf (globals w')) = prefix_buf_size /\
  g_prefix_len (globals w') = Nat.min (length s) 63 /\
  g_prefix_buf (globals w') !! g_prefix_len (globals w') = Some NUL /\
  w' = {| globals := store_prefix (g_prefix_buf (globals w')) (g_prefix_len (globals w'))
                                  (globals w);
          process := process w; out := out w |}.
Proof.
  intros Hbuf. cbv zeta. rewrite exec_set_prefix. cbv zeta.
  unfold prefix_buf_size in *.
  assert (Hlen : (if (64 <=? length s)%nat then (64 - 1)%nat else length s)
                 = Nat.min (length s) 63).
  { destruct (64 <=? length s)%nat eqn:E;
      [apply Nat.leb_le in E|apply Nat.leb_gt in E]; lia. }
  rewrite Hlen. clear Hlen.
  set (len := Nat.min (length s) 63).
  assert (Htake : length (take len s) = len) by (rewrite length_take; lia).
  assert (Hstore : store_name (take len s) (g_prefix_buf (globals w))
                   = take len s ++ NUL :: drop (S len) (g_prefix_buf (globals w))).
  { rewrite store_name_spec by lia. rewrite Htake. reflexivity. }
  assert (Hsnap : result read_prefix_snapshot
                    {| globals := store_prefix
                                    (store_name (take len s) (g_prefix_buf (globals w)))
                                    len (globals w);
                       process := process w; out := out w |}
                  = Ret (take 63 s)).
  { unfold result, read_prefix_snapshot, bind, load, ret. simpl.
    replace (prefix_buf_size <? len)%nat with false
      by (symmetry; apply Nat.ltb_ge; unfold prefix_buf_size; lia).
    rewrite Hstore, take_app_length' by (symmetry; exact Htake).
    f_equal. subst len. destruct (Nat.le_ge_cases (length s) 63).
    - rewrite Nat.min_l by lia. rewrite !firstn_all2 by lia. reflexivity.
    - rewrite Nat.min_r by lia. reflexivity. }
  split; [exact Hsnap|]. split; [|split; [|split; [|split]]].
  - intros Hs. rewrite Hsnap, firstn_all2 by lia. reflexivity.
  - simpl. rewrite store_name_length. exact Hbuf.
  - reflexivity.
  - simpl. rewrite Hstore. apply list_lookup_middle. symmetry. exact Htake.
  - reflexivity.
Qed.

Lemma set_prefix_stores_bounded_prefix_witness :
  result read_prefix_snapshot (exec (set_prefix (sv "==myapp==")) world_enabled)
  = Ret (sv "==myapp==").
Proof.
  apply (proj1 (proj2 (set_prefix_stores_bounded_prefix (sv "==myapp==") world_enabled
                         eq_refl))).
  vm_compute. lia.
Defined.

(** ** Membership in the module table *)

Lemma find_module_from_first (name : list ascii) (rows : list (list ascii)) :
  forall n i k,
    find_module_from name rows n i = Some k ->
    (i <= k)%nat /\ (k - i < n)%nat /\
    ~ In name (map c_str (take (k - i) rows)) /\
    map c_str rows !! (k - i)%nat = Some name.
Proof.
  induction rows as [|row rows IH]; intros n i k H.
  - destruct n; discriminate.
  - destruct n as [|n]; [discriminate|]. simpl in H.
    destruct (sv_eq name (c_str row)) eqn:E.
    + injection H as <-. apply sv_eq_true in E.
      rewrite Nat.sub_diag. simpl. repeat split; try lia; auto.
      rewrite E. reflexivity.
    + apply sv_eq_false in E. apply IH in H. destruct H as (Hk & Hn & Hnot & Hat).
      replace (k - i)%nat with (S (k - S i)) by lia. simpl.
      repeat split; try lia; auto.
      intros [H|H]; [congruence|auto].
Qed.

(** Removing a listed name drops its first occurrence and keeps the
    order of the others. *)
Lemma remove_module_locked_entries (name : list ascii) (t : ModuleTable) (i : nat) :
  table_wf t -> find_module name t = Some i ->
  (i < count t)%nat /\
  entries t = take i (entries t) ++ name :: drop (S i) (entries t) /\
  ~ In name (take i (entries t)) /\
  entries (remove_module_locked name t) = take i (entries t) ++ drop (S i) (entries t).
Proof.
  intros (Hl & Hrows & Hc) Hfind.
  unfold remove_module_locked. rewrite Hfind.
  apply find_module_from_first in Hfind. rewrite Nat.sub_0_r in Hfind.
  destruct Hfind as (_ & Hi & Hnot & Hat).
  assert (Hei : entries t !! i = Some name).
  { unfold entries. rewrite <- firstn_map. rewrite lookup_take_lt by lia. exact Hat. }
  assert (Htake : take i (entries t) = map c_str (take i (names t))).
  { unfold entries. rewrite <- !firstn_map, take_take. f_equal. lia. }
  assert (Hdrop : drop (S i) (entries t)
                  = map c_str (take (count t - 1 - i) (drop (S i) (names t)))).
  { unfold entries. rewrite skipn_map, skipn_firstn_comm.
    do 2 f_equal. lia. }
  split; [exact Hi|]. split; [|split].
  - symmetry. apply take_drop_middle. exact Hei.
  - rewrite Htake. exact Hnot.
  - unfold entries at 1. simpl.
    rewrite shift_rows_spec by lia.
    rewrite app_assoc, take_app_length'
      by (rewrite length_app, !length_take, length_drop; lia).
    rewrite map_app, Htake, Hdrop. reflexivity.
Qed.

Lemma filter_out_absent (name : list ascii) (l : list (list ascii)) :
  ~ In name l -> List.filter (fun e => negb (sv_eq name e)) l = l.
Proof.
  induction l as [|e l IH]; intros H; simpl; [reflexivity|].
  assert (He : sv_eq name e = false).
  { apply sv_eq_false. intros ->. apply H. left. reflexivity. }
  rewrite He. simpl. rewrite IH; [reflexivity|]. intros H'. apply H. right. exact H'.
Qed.

Lemma remove_module_locked_filter (name : list ascii) (t : ModuleTable) :
  table_wf t -> NoDup (entries t) ->
  entries (remove_module_locked name t)
  = List.filter (fun e => negb (sv_eq name e)) (entries t).
Proof.
  intros Hwf Hnd. destruct (find_module name t) as [i|] eqn:Hfind.
  - destruct (remove_module_locked_entries name t i Hwf Hfind)
      as (_ & Hsplit & Hnot1 & ->).
    rewrite Hsplit in Hnd. apply NoDup_ListNoDup in Hnd.
    apply List.NoDup_remove_2 in Hnd.
    assert (Hnot2 : ~ In name (drop (S i) (entries t))).
    { intros H. apply Hnd. apply in_or_app. right. exact H. }
    rewrite Hsplit at 3. rewrite List.filter_app. cbn [List.filter].
    assert (Hn : sv_eq name name = true) by (apply sv_eq_true; reflexivity).
    rewrite Hn. cbn [negb].
    rewrite !filter_out_absent by assumption. reflexivity.
  - pose proof Hfind as Habs. apply find_module_None in Habs.
    rewrite filter_out_absent by exact Habs.
    unfold remove_module_locked. rewrite Hfind. reflexivity.
Qed.

Lemma table_ok_add (name : list ascii) (t : ModuleTable) :
  nul_free name = true -> (1 <= length name <= 31)%nat ->
  table_ok t -> table_ok (add_module_locked name t).
Proof.
  intros Hnul Hlen [Hinv Hnd]. split; [apply add_module_locked_inv; assumption|].
  destruct (find_module name t) as [i|] eqn:Hfind.
  - rewrite add_module_locked_found by congruence. exact Hnd.
  - destruct Hinv as (Hwf & _).
    destruct (Nat.lt_ge_cases (count t) MAX_MODULES) as [Hroom|Hfull].
    + destruct (add_module_locked_new name t Hwf Hnul
                  ltac:(unfold MODULE_NAME_LEN; lia) Hfind Hroom) as (_ & _ & _ & ->).
      apply NoDup_ListNoDup. apply NoDup_ListNoDup in Hnd.
      apply List.NoDup_app; [exact Hnd|repeat constructor; intros []|].
      intros e He [<-|[]]. apply find_module_None in Hfind. contradiction.
    + destruct Hwf as (_ & _ & Hc).
      rewrite add_module_locked_full by lia. exact Hnd.
Qed.

Lemma table_ok_remove (name : list ascii) (t : ModuleTable) :
  table_ok t -> table_ok (remove_module_locked name t).
Proof.
  intros [Hinv Hnd]. split; [apply remove_module_locked_inv; exact Hinv|].
  destruct Hinv as (Hwf & _).
  rewrite remove_module_locked_filter by assumption.
  apply NoDup_ListNoDup. apply List.NoDup_filter. apply NoDup_ListNoDup. exact Hnd.
Qed.

Lemma table_ok_clear (t : ModuleTable) : table_ok t -> table_ok (clear_modules_locked t).
Proof.
  intros [Hinv _]. split; [apply clear_modules_locked_inv; exact Hinv|].
  unfold entries. simpl. constructor.
Qed.

Lemma table_ok_env (p : Process) (t : ModuleTable) : table_ok t -> table_ok (env_modules p t).
Proof.
  intros H. unfold env_modules.
  destruct (env_CT_DEBUG p) as [s|]; [|exact H].
  destruct (negb (is_nul (deref s))); [|exact H].
  apply seed_modules_preserves; [|exact H].
  intros name t' Hnul Hlen Ht'. apply table_ok_add; assumption.
Qed.

Lemma table_ok_initial : table_ok initial_modules.
Proof. split; [apply initial_modules_inv|]. unfold entries. simpl. constructor. Qed.

Lemma table_ok_run_op (op : ModuleOp) (w : World) :
  names_are_c_strings op = true ->
  table_ok (g_modules (globals w)) ->
  table_ok (g_modules (globals (exec (run_op op) w))).
Proof.
  intros Hop Hok. destruct op as [c|]; cbn [run_op].
  - destruct (rejected c) eqn:Hrej.
    + rewrite exec_run_call, Hrej. exact Hok.
    + destruct (modules_after_call c w Hrej) as (-> & _).
      destruct c as [name|name|];
        cbn [rejected apply_call names_are_c_strings] in *.
      * apply orb_false_elim in Hrej. destruct Hrej as [H0 Hlen].
        apply Nat.eqb_neq in H0. apply Nat.leb_gt in Hlen.
        unfold MODULE_NAME_LEN in Hlen.
        apply table_ok_add; [exact Hop|lia|exact Hok].
      * apply table_ok_remove. exact Hok.
      * apply table_ok_clear. exact Hok.
  - rewrite exec_init_once. simpl. unfold initialised.
    destruct (g_init_once (globals w)); [exact Hok|]. simpl.
    destruct (g_modules_set_explicitly (globals w)); [exact Hok|].
    apply table_ok_env. exact Hok.
Qed.

Lemma table_ok_run_ops (ops : list ModuleOp) :
  forall w,
    forallb names_are_c_strings ops = true ->
    table_ok (g_modules (globals w)) ->
    table_ok (g_modules (globals (exec (run_ops ops) w))).
Proof.
  induction ops as [|op ops IH]; intros w Hops Hok.
  - exact Hok.
  - simpl in Hops. apply andb_prop in Hops. destruct Hops as [Hop Hops].
    destruct (run_op_inv op w Hop (proj1 Hok)) as (E & _).
    unfold exec at 1. cbn [run_ops]. unfold bind. rewrite E.
    apply (IH _ Hops). apply table_ok_run_op; assumption.
Qed.

Lemma module_is_enabled_locked_spec (name : list ascii) (t : ModuleTable) :
  table_inv t ->
  module_is_enabled_locked name t = true <-> entries t = [] \/ In name (entries t).
Proof.
  intros (Hwf & Hlen & _ & Hact). unfold module_is_enabled_locked.
  destruct (filter_active t) eqn:Hf; cbn [negb].
  - assert (Hne : entries t <> []).
    { intros E. rewrite E in Hlen. simpl in Hlen.
      apply (proj1 Hact eq_refl). congruence. }
    destruct (find_module name t) as [i|] eqn:Hfind.
    + split; [intros _|reflexivity]. right.
      destruct (remove_module_locked_entries name t i Hwf Hfind) as (_ & -> & _).
      apply in_or_app. right. left. reflexivity.
    + apply find_module_None in Hfind.
      split; [discriminate|]. intros [E|H]; contradiction.
  - split; [intros _|reflexivity]. left.
    destruct (count t) as [|c] eqn:Hc.
    + destruct (entries t); [reflexivity|discriminate].
    + assert (H : false = true) by (apply (proj2 Hact); discriminate).
      discriminate H.
Qed.

Lemma module_is_enabled_eq (name : list ascii) (w : World) :
  module_is_enabled name w
  = (Ret (module_is_enabled_locked name (g_modules (globals w))), w).
Proof. reflexivity. Qed.

(** X7.  In every state reached from the initial one by module
    operations (the three module calls and the seeding from [CT_DEBUG],
    in any order and number, names being C strings), no name is listed
    twice in the table, and [module_is_enabled] returns [true] exactly
    for the names listed, or for every name when the table is empty; the
    lookup changes nothing. *)
Theorem reachable_table_lists_names_once (ops : list ModuleOp) (p : Process) :
  forallb names_are_c_strings ops = true ->
  let w := exec (run_ops ops) (initial_world p) in
  let t := g_modules (globals w) in
  NoDup (entries t) /\
  forall name,
    exec (module_is_enabled name) w = w /\
    exists b, result (module_is_enabled name) w = Ret b /\
              (b = true <-> entries t = [] \/ In name (entries t)).
Proof.
  intros Hops w t.
  destruct (table_ok_run_ops ops (initial_world p) Hops table_ok_initial)
    as [Hinv Hnd].
  fold w in Hinv, Hnd. fold t in Hinv, Hnd.
  split; [exact Hnd|]. intros name.
  unfold exec, result. rewrite module_is_enabled_eq. cbn [fst snd].
  split; [reflexivity|].
  exists (module_is_enabled_locked name t). split; [reflexivity|].
  apply module_is_enabled_locked_spec. exact Hinv.
Qed.

Lemma reachable_table_lists_names_once_witness :
  NoDup (entries (g_modules (globals (exec (run_ops demo_ops)
                                           (initial_world demo_process_env))))).
Proof.
  apply (proj1 (reachable_table_lists_names_once demo_ops demo_process_env eq_refl)).
Defined.

(** X8.  [enable_module] with a C-string name of 1 to 31 bytes, on a
    table that satisfies the invariant: when the name is listed already
    or the table has room, the name is listed afterwards (appended after
    the others when it is new) and [module_is_enabled] answers [true]
    for it; when the name is new and the table holds 32 names, the table
    is unchanged and [module_is_enabled] answers [false] for it.  No
    other name enters or leaves the table. *)
Theorem enable_module_registers_name (name : list ascii) (w : World) :
  table_ok (g_modules (globals w)) -> valid_name name ->
  let t := g_modules (globals w) in
  let w' := exec (enable_module name) w in
  let t' := g_modules (globals w') in
  (In name (entries t) \/ (count t < MAX_MODULES)%nat ->
   In name (entries t') /\ result (module_is_enabled name) w' = Ret true) /\
  (~ In name (entries t) -> count t = MAX_MODULES ->
   t' = t /\ result (module_is_enabled name) w' = Ret false) /\
  (entries t' = entries t \/ entries t' = entries t ++ [name]) /\
  (forall other, other <> name -> In other (entries t') <-> In other (entries t)) /\
  table_ok t'.
Proof.
  intros Hok (Hnul & Hlen) t w' t'. change (table_ok t) in Hok.
  assert (Hrej : rejected (CallEnable name) = false).
  { cbn [rejected]. apply orb_false_intro;
      [apply Nat.eqb_neq; lia|apply Nat.leb_gt; unfold MODULE_NAME_LEN; lia]. }
  destruct (modules_after_call (CallEnable name) w Hrej) as (Hm & _).
  cbn [run_call apply_call] in Hm. fold w' in Hm. fold t' t in Hm.
  assert (Hok' : table_ok t') by (rewrite Hm; apply table_ok_add; assumption).
  assert (Hres : result (module_is_enabled name) w'
                 = Ret (module_is_enabled_locked name t')) by reflexivity.
  rewrite Hres. clear Hres.
  pose proof (module_is_enabled_locked_spec name t' (proj1 Hok')) as Hspec.
  destruct Hok as [Hinv Hnd]. pose proof Hinv as (Hwf & Hcount & _ & _).
  destruct (find_module name t) as [i|] eqn:Hfind.
  - assert (Hin : In name (entries t)).
    { destruct (remove_module_locked_entries name t i Hwf Hfind) as (_ & -> & _).
      apply in_or_app. right. left. reflexivity. }
    assert (Ht : t' = t) by (rewrite Hm; apply add_module_locked_found; congruence).
    rewrite Ht in *.
    split; [|split; [|split; [|split]]].
    + intros _. split; [exact Hin|]. f_equal. apply Hspec. right. exact Hin.
    + intros H. contradiction.
    + left. reflexivity.
    + intros other _. reflexivity.
    + exact Hok'.
  - pose proof Hfind as Habs. apply find_module_None in Habs.
    destruct (Nat.lt_ge_cases (count t) MAX_MODULES) as [Hroom|Hfull].
    + destruct (add_module_locked_new name t Hwf Hnul
                  ltac:(unfold MODULE_NAME_LEN; lia) Hfind Hroom) as (_ & _ & _ & He).
      rewrite <- Hm in He.
      assert (Hin : In name (entries t'))
        by (rewrite He; apply in_or_app; right; left; reflexivity).
      split; [|split; [|split; [|split]]].
      * intros _. split; [exact Hin|]. f_equal. apply Hspec. right. exact Hin.
      * intros _ H. lia.
      * right. exact He.
      * intros other Hother. rewrite He. split.
        -- intros H. apply in_app_or in H. destruct H as [H|[H|[]]];
             [exact H|congruence].
        -- intros H. apply in_or_app. left. exact H.
      * exact Hok'.
    + destruct Hwf as (_ & _ & Hc).
      assert (Hmax : count t = MAX_MODULES) by lia.
      assert (Ht : t' = t) by (rewrite Hm; apply add_module_locked_full; exact Hmax).
      rewrite Ht in *.
      split; [|split; [|split; [|split]]].
      * intros [H|H]; [contradiction|lia].
      * intros _ _. split; [reflexivity|]. f_equal.
        destruct (module_is_enabled_locked name t); [|reflexivity].
        destruct (proj1 Hspec eq_refl) as [E|H]; [|contradiction].
        rewrite E in Hcount. simpl in Hcount. unfold MAX_MODULES in Hmax. lia.
      * left. reflexivity.
      * intros other _. reflexivity.
      * exact Hok'.
Qed.

Lemma enable_module_registers_name_witness :
  result (module_is_enabled (sv "alloc"))
         (exec (enable_module (sv "alloc")) (initial_world demo_process))
  = Ret true.
Proof.
  assert (Hname : valid_name (sv "alloc")) by (split; [reflexivity|vm_compute; lia]).
  apply (proj1 (enable_module_registers_name (sv "alloc") (initial_world demo_process)
                  table_ok_initial Hname)).
  right. vm_compute. lia.
Defined.

(** X9.  [disable_module] with a non-empty name, on a table that
    satisfies the invariant and lists no name twice: the entries
    afterwards are the former ones without the name, in their former
    order; the name is no longer listed; and [module_is_enabled] answers
    [false] for it unless the table has become empty, in which case the
    filter is off and every name passes. *)
Theorem disable_module_removes_name (name : list ascii) (w : World) :
  table_ok (g_modules (globals w)) -> name <> [] ->
  let t := g_modules (globals w) in
  let w' := exec (disable_module name) w in
  let t' := g_modules (globals w') in
  entries t' = List.filter (fun e => negb (sv_eq name e)) (entries t) /\
  ~ In name (entries t') /\
  (forall other, other <> name -> In other (entries t') <-> In other (entries t)) /\
  result (module_is_enabled name) w'
  = Ret (match entries t' with [] => true | _ => false end) /\
  (entries t' = [] -> forall any, result (module_is_enabled any) w' = Ret true) /\
  table_ok t'.
Proof.
  intros Hok Hname t w' t'. change (table_ok t) in Hok.
  assert (Hrej : rejected (CallDisable name) = false).
  { cbn [rejected]. apply Nat.eqb_neq. destruct name; [congruence|discriminate]. }
  destruct (modules_after_call (CallDisable name) w Hrej) as (Hm & _).
  cbn [run_call apply_call] in Hm. fold w' in Hm. fold t' t in Hm.
  assert (Hok' : table_ok t') by (rewrite Hm; apply table_ok_remove; exact Hok).
  assert (He : entries t' = List.filter (fun e => negb (sv_eq name e)) (entries t)).
  { rewrite Hm. destruct Hok as [(Hwf & _) Hnd].
    apply remove_module_locked_filter; assumption. }
  assert (Hout : ~ In name (entries t')).
  { rewrite He. intros H. apply List.filter_In in H. destruct H as [_ H].
    assert (Hn : sv_eq name name = true) by (apply sv_eq_true; reflexivity).
    rewrite Hn in H. discriminate H. }
  assert (Hres : forall any, result (module_is_enabled any) w'
                             = Ret (module_is_enabled_locked any t')) by reflexivity.
  split; [exact He|]. split; [exact Hout|]. split; [|split; [|split]].
  - intros other Hother. rewrite He. split.
    + intros H. apply List.filter_In in H. tauto.
    + intros H. apply List.filter_In. split; [exact H|].
      apply negb_true_iff. apply sv_eq_false. congruence.
  - rewrite Hres. f_equal.
    pose proof (module_is_enabled_locked_spec name t' (proj1 Hok')) as Hspec.
    destruct (entries t') as [|e es] eqn:E.
    + apply Hspec. left. reflexivity.
    + destruct (module_is_enabled_locked name t'); [|reflexivity].
      destruct (proj1 Hspec eq_refl) as [H|H]; [discriminate H|contradiction].
  - intros E any. rewrite Hres. f_equal.
    apply (module_is_enabled_locked_spec any t' (proj1 Hok')). left. exact E.
  - exact Hok'.
Qed.

Lemma table_ok_world_filtering : table_ok (g_modules (globals world_filtering)).
Proof.
  change world_filtering
    with (exec (run_op (Explicit (CallEnable (sv "alloc"))))
               (exec (set_sink (Some 1%nat) ;; enable_logging)
                     (initial_world demo_process))).
  apply table_ok_run_op; [reflexivity|]. apply table_ok_initial.
Qed.

Lemma disable_module_removes_name_witness :
  result (module_is_enabled (sv "net")) (exec (disable_module (sv "alloc")) world_filtering)
  = Ret true.
Proof.
  apply (proj1 (proj2 (proj2 (proj2 (proj2
           (disable_module_removes_name (sv "alloc") world_filtering
              table_ok_world_filtering ltac:(discriminate))))))).
  vm_compute. reflexivity.
Defined.

(** X10.  [enable_all_modules] empties the table and switches the filter
    off, whatever the state before: afterwards [module_is_enabled]
    answers [true] for every name, and a later lazy initialisation does
    not bring the names of [CT_DEBUG] back. *)
Theorem enable_all_modules_clears_filter (w : World) (name : list ascii) :
  let w' := exec enable_all_modules w in
  entries (g_modules (globals w')) = [] /\
  count (g_modules (globals w')) = 0%nat /\
  filter_active (g_modules (globals w')) = false /\
  result (module_is_enabled name) w' = Ret true /\
  exec init_once w' = w'.
Proof.
  cbv zeta.
  destruct (modules_after_call CallEnableAll w eq_refl) as (Hm & _ & Hi).
  cbn [run_call apply_call] in Hm, Hi.
  assert (Hres : result (module_is_enabled name) (exec enable_all_modules w)
                 = Ret (module_is_enabled_locked name
                          (g_modules (globals (exec enable_all_modules w)))))
    by reflexivity.
  rewrite Hres, Hm. unfold entries, module_is_enabled_locked, clear_modules_locked.
  cbn [count filter_active names negb]. rewrite take_0.
  repeat split. apply init_once_done. exact Hi.
Qed.

(** ** The low-level prefix writer *)

Lemma ok_write_prefix (w0 : World) (lvl : Level) :
  ok w0 (write_prefix lvl) tt (prefix_bytes w0 lvl).
Proof.
  unfold write_prefix. eapply ok_bytes.
  - ok_seq.
  - unfold prefix_bytes, pid_field, prefix_field, level_field.
    cbn [app]; rewrite <- ?app_assoc; cbn [app]; reflexivity.
Qed.

(** X11.  [write_prefix] returns normally and hands the current sink,
    and no other, the process-id field, the prefix tag, the level field
    and one space, in this order: never a timestamp, a call site or a
    module tag, whatever the settings; it changes no setting.  Followed
    by [write_raw] of a message it writes the bytes of the line that
    [write_log_line] writes for an untagged message when timestamps and
    call sites are switched off. *)
Theorem write_prefix_writes_line_head (w : World) (lvl : Level) (msg : list ascii)
    (loc : source_location) :
  (exists w',
     write_prefix lvl w = (Ret tt, w') /\
     emits w w' (current_dest w) (prefix_bytes w lvl) /\
     same_config w w') /\
  (g_timestamps_enabled (globals w) = false ->
   g_source_location_enabled (globals w) = false ->
   exists w',
     (write_prefix lvl ;; write_raw msg) w = (Ret tt, w') /\
     emits w w' (current_dest w) (line_bytes w lvl [] msg loc)).
Proof.
  split.
  - apply (ok_write_prefix w lvl w (same_config_refl w)).
  - intros Hts Hsl.
    assert (Hok : ok w (write_prefix lvl ;; write_raw msg) tt
                     (prefix_bytes w lvl ++ msg)).
    { eapply ok_bind; [apply ok_write_prefix|apply ok_write_raw]. }
    destruct (Hok w (same_config_refl w)) as (w' & E & Em & _).
    exists w'. split; [exact E|].
    assert (Hb : line_bytes w lvl [] msg loc = prefix_bytes w lvl ++ msg).
    { unfold line_bytes, prefix_bytes, timestamp_field, location_field, module_field.
      rewrite Hts, Hsl. cbn [length Nat.eqb negb app].
      rewrite <- !app_assoc. reflexivity. }
    rewrite Hb. exact Em.
Qed.

Lemma write_prefix_writes_line_head_witness :
  exists w',
    (write_prefix Warn ;; write_raw (sv "hello")) world_enabled = (Ret tt, w') /\
    emits world_enabled w' (current_dest world_enabled)
          (line_bytes world_enabled Warn [] (sv "hello") (loc (demo_entry Warn))).
Proof.
  apply (proj2 (write_prefix_writes_line_head world_enabled Warn (sv "hello")
                  (loc (demo_entry Warn)))); reflexivity.
Defined.

(** ** The two function-local caches *)

(** X12.  The color decision is taken once.  On the first call ([cached]
    still -1) [color] answers the empty string when [NO_COLOR] is set,
    whatever its value and also on a terminal, and otherwise the escape
    sequence exactly when descriptor 2 is a terminal.  The call writes
    nothing, leaves the cache decided, and every later call answers by
    the same decision even if the environment or the terminal has
    changed in between. *)
Theorem color_decision_is_cached (c : Color) (w : World) :
  let w1 := exec (color c) w in
  (use_color_cached (globals w) = -1 ->
   result (color c) w
   = Ret (match env_NO_COLOR (process w) with
          | Some _ => []
          | None => if stderr_isatty (process w) then color_code c else []
          end)) /\
  result (color c) w = Ret (col (color_on w) c) /\
  out w1 = out w /\
  use_color_cached (globals w1) <> -1 /\
  forall p' c', result (color c') (with_process p' w1) = Ret (col (color_on w) c').
Proof.
  unfold exec, result, color, use_color, bind, load, getenv, isatty_stderr, store,
    ret, with_process, col, color_on.
  destruct w as [g p o]. destruct g. cbn -[Z.eqb color_code].
  destruct (use_color_cached0 =? -1) eqn:Hcache; cbn -[Z.eqb color_code].
  - destruct (env_NO_COLOR p) eqn:Hnc; cbn -[Z.eqb color_code].
    + repeat split; discriminate.
    + destruct (stderr_isatty p) eqn:Htty; cbn -[Z.eqb color_code];
        repeat split; discriminate.
  - apply Z.eqb_neq in Hcache.
    split; [intros H; contradiction|].
    destruct (use_color_cached0 =? 0) eqn:Hz; cbn -[Z.eqb color_code];
      rewrite ?Hz; cbn -[Z.eqb color_code];
      (split; [reflexivity|]); (split; [reflexivity|]); (split; [exact Hcache|]);
      intros p' c'; destruct (use_color_cached0 =? -1) eqn:H1;
      try (apply Z.eqb_eq in H1; contradiction);
      cbn -[Z.eqb color_code]; rewrite ?Hz; reflexivity.
Qed.

Lemma color_decision_is_cached_witness :
  result (color Red) (initial_world demo_process) = Ret [].
Proof.
  apply (proj1 (color_decision_is_cached Red (initial_world demo_process))).
  reflexivity.
Defined.

(** X13.  [pid] asks the system once: with the cache still 0 it returns
    what [getpid] returns, otherwise the cached number; it writes
    nothing; and once a non-zero number is cached every later call
    returns it, also when the process id has changed in between. *)
Theorem pid_is_cached (w : World) :
  let w1 := exec pid w in
  (pid_cached (globals w) = 0 -> result pid w = Ret (os_getpid (process w))) /\
  (pid_cached (globals w) <> 0 ->
   result pid w = Ret (pid_cached (globals w)) /\ w1 = w) /\
  out w1 = out w /\
  (pid_cached (globals w) <> 0 \/ os_getpid (process w) <> 0 ->
   forall p', result pid (with_process p' w1) = result pid w).
Proof.
  unfold exec, result, pid, bind, load, getpid, store, ret, with_process.
  destruct w as [g p o]. destruct g. cbn -[Z.eqb].
  destruct (pid_cached0 =? 0) eqn:Hcache; cbn -[Z.eqb].
  - apply Z.eqb_eq in Hcache. subst pid_cached0.
    split; [reflexivity|]. split; [intros H; contradiction|].
    split; [reflexivity|]. intros [H|H] p'; [contradiction|].
    apply Z.eqb_neq in H. rewrite H. reflexivity.
  - pose proof Hcache as Hne. apply Z.eqb_neq in Hne.
    split; [intros H; contradiction|]. split; [intros _; split; reflexivity|].
    split; [reflexivity|]. intros _ p'. cbn -[Z.eqb]. rewrite Hcache. reflexivity.
Qed.

Lemma pid_is_cached_witness :
  result pid (initial_world demo_process) = Ret 12345.
Proof.
  apply (proj1 (pid_is_cached (initial_world demo_process))). reflexivity.
Defined.

(** ** What a log call leaves behind *)

(** X14.  A call whose rendered message is empty writes nothing, not
    even the prefix, whatever the flags, the level and the module: both
    overloads return normally and leave the state that the lazy
    initialisation alone leaves. *)
Theorem empty_message_writes_nothing (entry : LogEntry) (mod_name : list ascii)
    (w : World) :
  log entry (Ret []) w = (Ret tt, exec init_once w) /\
  log_module entry mod_name (Ret []) w = (Ret tt, exec init_once w) /\
  out (exec (log entry (Ret [])) w) = out w /\
  out (exec (log_module entry mod_name (Ret [])) w) = out w.
Proof.
  assert (H1 : log entry (Ret []) w = (Ret tt, exec init_once w)).
  { rewrite log_eq. cbv zeta. rewrite render_and_write_empty.
    destruct (negb (g_log_enabled (globals w))); [reflexivity|].
    destruct (level_to_int (level entry) <? g_min_level (globals (exec init_once w)));
      reflexivity. }
  assert (H2 : log_module entry mod_name (Ret []) w = (Ret tt, exec init_once w)).
  { rewrite log_module_eq. cbv zeta. rewrite render_and_write_empty.
    destruct (negb (g_log_enabled (globals w))); [reflexivity|].
    destruct (level_to_int (level entry) <? g_min_level (globals (exec init_once w)));
      [reflexivity|].
    destruct (negb (Nat.eqb (length mod_name) 0)
              && negb (module_is_enabled_locked mod_name
                         (g_modules (globals (exec init_once w)))));
      reflexivity. }
  split; [exact H1|]. split; [exact H2|].
  split; unfold exec at 1; rewrite ?H1, ?H2; cbn [snd]; apply out_exec_init_once.
Qed.

Lemma render_and_write_config (entry : LogEntry) (module : list ascii)
    (rendering : outcome (list ascii)) (w : World) :
  same_config w (snd (render_and_write entry module rendering w)).
Proof.
  destruct rendering as [msg|].
  - destruct msg as [|c msg]; [apply same_config_refl|].
    unfold render_and_write, try_catch, bind, vformat. cbn [length Nat.eqb].
    destruct (ok_write_log_line w (level entry) module (c :: msg) (loc entry) w
                (same_config_refl w)) as (w' & E & _ & Hc).
    rewrite E. exact Hc.
  - rewrite render_and_write_thrown. repeat split.
Qed.

(** X15.  A log call never changes the configuration: whatever the call
    does (returns early, writes its line, or writes the fallback text),
    the state afterwards differs from the one that the lazy
    initialisation alone leaves at most in the output and in the two
    caches, which keep their meaning.  The enabled flag, the minimum
    level, the module table, the sink and the prefix are as the
    initialisation left them. *)
Theorem log_preserves_configuration (entry : LogEntry) (mod_name : list ascii)
    (rendering : outcome (list ascii)) (w : World) :
  let w1 := exec init_once w in
  forall w',
    w' = exec (log entry rendering) w \/
    w' = exec (log_module entry mod_name rendering) w ->
    same_config w1 w' /\
    g_log_enabled (globals w') = g_log_enabled (globals w) /\
    g_min_level (globals w') = g_min_level (globals w1) /\
    g_modules (globals w') = g_modules (globals w1) /\
    g_sink (globals w') = g_sink (globals w) /\
    prefix_snapshot w' = prefix_snapshot w /\
    g_init_once (globals w') = true.
Proof.
  intros w1 w' Hw'.
  assert (Hc : same_config w1 w').
  { destruct Hw' as [-> | ->]; unfold exec at 1.
    - rewrite log_eq. fold w1. cbv zeta.
      destruct (negb (g_log_enabled (globals w))); [apply same_config_refl|].
      destruct (level_to_int (level entry) <? g_min_level (globals w1));
        [apply same_config_refl|].
      apply render_and_write_config.
    - rewrite log_module_eq. fold w1. cbv zeta.
      destruct (negb (g_log_enabled (globals w))); [apply same_config_refl|].
      destruct (level_to_int (level entry) <? g_min_level (globals w1));
        [apply same_config_refl|].
      destruct (negb (Nat.eqb (length mod_name) 0)
                && negb (module_is_enabled_locked mod_name (g_modules (globals w1))));
        [apply same_config_refl|].
      apply render_and_write_config. }
  split; [exact Hc|].
  assert (Hg : globals w1 = initialised w) by (unfold w1; rewrite exec_init_once; reflexivity).
  destruct (initialised_fields w) as (He & Hs & Hb & Hl & _ & _ & Hi).
  rewrite <- Hg in He, Hs, Hb, Hl, Hi.
  rewrite (same_config_field g_log_enabled w1 w' (fun g => eq_refl) Hc).
  rewrite (same_config_field g_min_level w1 w' (fun g => eq_refl) Hc).
  rewrite (same_config_field g_modules w1 w' (fun g => eq_refl) Hc).
  rewrite (same_config_field g_sink w1 w' (fun g => eq_refl) Hc).
  rewrite (same_config_field g_init_once w1 w' (fun g => eq_refl) Hc).
  unfold prefix_snapshot.
  rewrite (same_config_field g_prefix_len w1 w' (fun g => eq_refl) Hc).
  rewrite (same_config_field g_prefix_buf w1 w' (fun g => eq_refl) Hc).
  rewrite He, Hs, Hb, Hl, Hi. repeat split.
Qed.

Lemma log_preserves_configuration_witness :
  g_modules (globals (exec (log_module (demo_entry Info) (sv "alloc") (Ret (sv "hello")))
                           world_filtering))
  = g_modules (globals (exec init_once world_filtering)).
Proof.
  apply (log_preserves_configuration (demo_entry Info) (sv "alloc") (Ret (sv "hello"))
           world_filtering).
  right. reflexivity.
Defined.

(** ** The module table as an ordered list of names *)

Lemma listed_In (name : list ascii) (l : list (list ascii)) :
  listed name l = true <-> In name l.
Proof.
  unfold listed. rewrite existsb_exists. split.
  - intros (e & He & Heq). apply sv_eq_true in Heq. subst e. exact He.
  - intros H. exists name. split; [exact H|]. apply sv_eq_true. reflexivity.
Qed.

Lemma entries_add_module_locked (name : list ascii) (t : ModuleTable) :
  table_inv t -> nul_free name = true -> (1 <= length name <= 31)%nat ->
  entries (add_module_locked name t) = list_enable name (entries t).
Proof.
  intros (Hwf & Hlen & _ & _) Hnul Hname. unfold list_enable.
  destruct (find_module name t) as [i|] eqn:Hfind.
  - rewrite add_module_locked_found by congruence.
    assert (Hin : listed name (entries t) = true).
    { apply listed_In.
      destruct (remove_module_locked_entries name t i Hwf Hfind) as (_ & -> & _).
      apply in_or_app. right. left. reflexivity. }
    rewrite Hin. reflexivity.
  - assert (Hout : listed name (entries t) = false).
    { destruct (listed name (entries t)) eqn:E; [|reflexivity].
      apply listed_In in E. apply find_module_None in Hfind. contradiction. }
    rewrite Hout, Hlen.
    destruct (count t <? MAX_MODULES)%nat eqn:Hroom.
    + apply Nat.ltb_lt in Hroom.
      destruct (add_module_locked_new name t Hwf Hnul
                  ltac:(unfold MODULE_NAME_LEN; lia) Hfind Hroom) as (_ & _ & _ & ->).
      reflexivity.
    + apply Nat.ltb_ge in Hroom. destruct Hwf as (_ & _ & Hc).
      rewrite add_module_locked_full by lia. reflexivity.
Qed.

Lemma entries_after_call (c : ExplicitModuleCall) (w : World) :
  table_ok (g_modules (globals w)) ->
  names_are_c_strings (Explicit c) = true ->
  entries (g_modules (globals (exec (run_call c) w)))
  = list_call (entries (g_modules (globals w))) c.
Proof.
  intros [Hinv Hnd] Hname. unfold list_call.
  destruct (rejected c) eqn:Hrej.
  - rewrite exec_run_call, Hrej. reflexivity.
  - destruct (modules_after_call c w Hrej) as (-> & _).
    destruct c as [name|name|]; cbn [rejected apply_call names_are_c_strings] in *.
    + apply orb_false_elim in Hrej. destruct Hrej as [H0 Hlen].
      apply Nat.eqb_neq in H0. apply Nat.leb_gt in Hlen.
      unfold MODULE_NAME_LEN in Hlen.
      apply entries_add_module_locked; [exact Hinv|exact Hname|lia].
    + apply remove_module_locked_filter; [apply Hinv|exact Hnd].
    + unfold entries. simpl. reflexivity.
Qed.

(** X16.  On the list of its names the table behaves as a bounded
    ordered set.  For every sequence of explicit module calls, names
    being C strings, run from a state whose table satisfies the
    invariant and lists no name twice, the names listed at the end are
    those obtained by replaying the calls on the list: [enable_module]
    appends the name unless it is listed or 32 names are, [disable_module]
    deletes it and keeps the order, [enable_all_modules] empties the
    list, and a call turned away by its guard does nothing.  The
    environment plays no part. *)
Theorem module_table_refines_name_list (calls : list ExplicitModuleCall) :
  forall w,
    table_ok (g_modules (globals w)) ->
    forallb (fun c => names_are_c_strings (Explicit c)) calls = true ->
    entries (g_modules (globals (exec (run_ops (map Explicit calls)) w)))
    = fold_left list_call calls (entries (g_modules (globals w))).
Proof.
  induction calls as [|c calls IH]; intros w Hok Hnames; [reflexivity|].
  cbn [forallb] in Hnames. apply andb_prop in Hnames. destruct Hnames as [Hc Hcs].
  unfold exec at 1. cbn [map run_ops]. unfold bind. rewrite run_op_eq.
  change (snd (run_ops (map Explicit calls) (exec (run_op (Explicit c)) w)))
    with (exec (run_ops (map Explicit calls)) (exec (run_op (Explicit c)) w)).
  rewrite IH; [|apply table_ok_run_op; assumption|exact Hcs].
  cbn [fold_left run_op]. rewrite entries_after_call by assumption. reflexivity.
Qed.

Lemma module_table_refines_name_list_witness :
  entries (g_modules (globals
    (exec (run_ops (map Explicit [CallEnable (sv "alloc"); CallEnable (sv "net");
                                  CallEnable (sv "alloc"); CallDisable (sv "alloc")]))
          (initial_world demo_process_env))))
  = [sv "net"].
Proof.
  apply (module_table_refines_name_list
           [CallEnable (sv "alloc"); CallEnable (sv "net");
            CallEnable (sv "alloc"); CallDisable (sv "alloc")]
           (initial_world demo_process_env) table_ok_initial eq_refl).
Defined.

Lemma split_commas_nul_free (s : list ascii) :
  nul_free s = true -> Forall (fun tok => nul_free tok = true) (split_commas s).
Proof.
  induction s as [|c s IH]; intros H.
  - repeat constructor.
  - simpl in H. apply andb_prop in H. destruct H as [Hc Hs].
    specialize (IH Hs). cbn [split_commas].
    destruct (Ascii.eqb c comma).
    + constructor; [reflexivity|exact IH].
    + destruct (split_commas s) as [|tok rest].
      * repeat constructor. simpl. rewrite Hc. reflexivity.
      * inversion IH as [|? ? Htok Hrest]; subst.
        constructor; [|exact Hrest]. simpl. rewrite Hc, Htok. reflexivity.
Qed.

Lemma entries_register_all (toks : list (list ascii)) :
  forall t,
    table_ok t ->
    Forall (fun tok => nul_free tok = true /\ valid_token tok = true) toks ->
    table_ok (register_all toks t) /\
    entries (register_all toks t)
    = fold_left (fun l tok => list_enable tok l) toks (entries t).
Proof.
  induction toks as [|tok toks IH]; intros t Hok Htoks; [split; [exact Hok|reflexivity]|].
  inversion Htoks as [|? ? [Hnul Hvalid] Hrest]; subst.
  unfold valid_token in Hvalid. apply andb_prop in Hvalid.
  destruct Hvalid as [H0 H1]. apply Nat.ltb_lt in H0. apply Nat.ltb_lt in H1.
  unfold MODULE_NAME_LEN in H1.
  unfold register_all. cbn [fold_left].
  fold (register_all toks (add_module_locked tok t)).
  destruct (IH (add_module_locked tok t)) as [Hok' He];
    [apply table_ok_add; [exact Hnul|lia|exact Hok]|exact Hrest|].
  split; [exact Hok'|]. rewrite He.
  rewrite entries_add_module_locked; [reflexivity|apply Hok|exact Hnul|lia].
Qed.

(** X17.  The first lazy initialisation of a process whose modules were
    not set explicitly and whose [CT_DEBUG] is set: the value is read up
    to its terminator and cut at the commas; the pieces of 1 to 31
    bytes are registered from left to right as [enable_module] would
    register them (a piece listed already, or met when 32 names are
    listed, is dropped); empty and longer pieces are skipped, and no
    piece is trimmed. *)
Theorem environment_seeds_module_list (w : World) (s : list ascii) :
  g_init_once (globals w) = false ->
  g_modules_set_explicitly (globals w) = false ->
  env_CT_DEBUG (process w) = Some s ->
  table_ok (g_modules (globals w)) ->
  let t' := g_modules (globals (exec init_once w)) in
  entries t'
  = fold_left (fun l tok => list_enable tok l)
              (List.filter valid_token (split_commas (c_str s)))
              (entries (g_modules (globals w))) /\
  table_ok t'.
Proof.
  intros Hi He Hs Hok. cbv zeta. rewrite exec_init_once. cbn [globals].
  unfold initialised. rewrite Hi, He. cbn [g_modules store_init_once store_modules].
  unfold env_modules. rewrite Hs.
  assert (Hseed : seed_modules s (g_modules (globals w))
                  = register_all (List.filter valid_token (split_commas (c_str s)))
                                 (g_modules (globals w)))
    by (unfold seed_modules; apply seed_loop_split; lia).
  assert (Htoks : Forall (fun tok => nul_free tok = true /\ valid_token tok = true)
                         (List.filter valid_token (split_commas (c_str s)))).
  { apply List.Forall_forall. intros tok Hin. apply List.filter_In in Hin.
    destruct Hin as [Hin Hv]. split; [|exact Hv].
    pose proof (split_commas_nul_free (c_str s) (c_str_nul_free s)) as Hall.
    rewrite List.Forall_forall in Hall. apply Hall. exact Hin. }
  destruct (entries_register_all _ _ Hok Htoks) as [Hok' Hent].
  destruct (is_nul (deref s)) eqn:Hnul; cbn [negb].
  - assert (Hc : c_str s = []).
    { destruct s as [|c s]; [reflexivity|]. simpl in Hnul. simpl. rewrite Hnul.
      reflexivity. }
    rewrite Hc. simpl. split; [reflexivity|exact Hok].
  - rewrite Hseed. split; [exact Hent|exact Hok'].
Qed.

Lemma environment_seeds_module_list_witness :
  entries (g_modules (globals (exec init_once (initial_world demo_process_env))))
  = [sv "alloc"].
Proof.
  apply (proj1 (environment_seeds_module_list (initial_world demo_process_env)
                  (sv "alloc") eq_refl eq_refl eq_refl table_ok_initial)).
Defined.

(** ** The stack buffers of the writers *)

Lemma dec_loop_step (room : nat) (v : Z) (buf : list ascii) :
  v <> 0 ->
  dec_loop (S room) v buf = dec_loop room (v / 10) (buf ++ [char_of_Z (48 + v mod 10)]).
Proof. intros H. cbn [dec_loop]. apply Z.eqb_neq in H. rewrite H. reflexivity. Qed.

Lemma dec_loop_length_room (room : nat) :
  forall (v : Z) (buf : list ascii),
    (length (dec_loop room v buf) <= length buf + room)%nat.
Proof.
  induction room as [|room IH]; intros v buf; cbn [dec_loop]; [lia|].
  destruct (v =? 0); [lia|].
  specialize (IH (v / 10) (buf ++ [char_of_Z (48 + v mod 10)])).
  rewrite length_app in IH. simpl in IH. lia.
Qed.

Lemma dec_loop_length_digits (k : nat) :
  forall (room : nat) (v : Z),
    0 <= v < 10 ^ Z.of_nat k -> (length (dec_loop room v []) <= k)%nat.
Proof.
  induction k as [|k IH]; intros room v Hv.
  - assert (v = 0) by (simpl in Hv; lia). subst v. rewrite dec_loop_zero. simpl. lia.
  - destruct room as [|room]; cbn [dec_loop]; [simpl; lia|].
    destruct (v =? 0) eqn:Hz; [simpl; lia|].
    rewrite dec_loop_app, length_app. cbn [app length].
    assert (Hq : 0 <= v / 10 < 10 ^ Z.of_nat k).
    { split; [apply Z.div_pos; lia|].
      apply Z.div_lt_upper_bound; [lia|].
      rewrite Nat2Z.inj_succ, Z.pow_succ_r in Hv by lia. lia. }
    specialize (IH room (v / 10) Hq). lia.
Qed.

Lemma dec_digits_length (v : Z) :
  length (dec_digits v)
  = length (if v =? 0 then [char_of_Z 48] else dec_loop dec_buf_size v []).
Proof. unfold dec_digits. rewrite reverse_loop_rev. apply length_rev. Qed.

Lemma hex_loop_starts (k : nat) :
  forall (v : Z) (started : bool) (buf : list ascii),
    fst (hex_loop (S k) v started buf) = true.
Proof.
  induction k as [|k IH]; intros v started buf; rewrite hex_loop_step.
  - change (4 * Z.of_nat 0 =? 0) with true. cbn [negb]. rewrite andb_false_r.
    reflexivity.
  - destruct (negb started && (nibble_at (S k) v =? 0)
              && negb (4 * Z.of_nat (S k) =? 0)); apply IH.
Qed.

Lemma hex_loop_length (k : nat) :
  forall (v : Z) (started : bool) (buf : list ascii),
    (length (snd (hex_loop k v started buf)) <= length buf + k)%nat.
Proof.
  induction k as [|k IH]; intros v started buf.
  - simpl. lia.
  - rewrite hex_loop_step.
    destruct (negb started && (nibble_at k v =? 0) && negb (4 * Z.of_nat k =? 0)).
    + specialize (IH v started buf). lia.
    + specialize (IH v true (buf ++ [nibble_char (nibble_at k v)])).
      rewrite length_app in IH. simpl in IH. lia.
Qed.

Lemma hex_loop_unstarted_length (k : nat) :
  forall (v : Z) (buf : list ascii),
    exists ds, hex_loop (S k) v false buf = (true, buf ++ ds) /\ (1 <= length ds)%nat.
Proof.
  induction k as [|k IH]; intros v buf; rewrite hex_loop_step.
  - change (4 * Z.of_nat 0 =? 0) with true. cbn [negb]. rewrite andb_false_r.
    cbn [hex_loop]. eexists. split; [reflexivity|]. simpl. lia.
  - destruct (negb false && (nibble_at (S k) v =? 0)
              && negb (4 * Z.of_nat (S k) =? 0)); [apply IH|].
    rewrite hex_loop_started, <- app_assoc.
    eexists. split; [reflexivity|]. simpl. lia.
Qed.

(** X18.  The writers stay within their stack buffers.  [write_dec]
    hands over at most 32 bytes for every argument, and at most 20 for
    a 64-bit value, so that the bound of its digit loop is never what
    stops it.  In [write_hex] the loop over the sixteen nibbles always
    writes a digit (the last nibble is written even when it is zero), so
    the branch that adds a zero after the loop is never taken and the
    bytes handed over fit the 18 of the buffer.  The timestamp is 26
    bytes long for every clock value, within the 32 of its buffer. *)
Theorem writers_stay_within_buffers (v : Z) (now : WallClock) :
  (length (dec_digits v) <= dec_buf_size)%nat /\
  (0 <= v < 2 ^ size_t_bits -> (1 <= length (dec_digits v) <= 20)%nat) /\
  fst (hex_loop uintptr_nibbles v false (sv "0x")) = true /\
  hex_digits v = snd (hex_loop uintptr_nibbles v false (sv "0x")) /\
  (3 <= length (hex_digits v) <= 2 + 2 * 8)%nat /\
  length (write_timestamp_to now) = 26%nat.
Proof.
  split; [|split; [|split; [|split; [|split]]]].
  - rewrite dec_digits_length. destruct (v =? 0).
    + unfold dec_buf_size. simpl. lia.
    + apply (dec_loop_length_room dec_buf_size v []).
  - intros Hv. rewrite dec_digits_length. destruct (v =? 0) eqn:Hz.
    + cbn [length]. lia.
    + apply Z.eqb_neq in Hz. split.
      * change dec_buf_size with (S 31). rewrite dec_loop_step by exact Hz.
        rewrite dec_loop_app, length_app. cbn [app length]. lia.
      * apply dec_loop_length_digits. unfold size_t_bits in Hv.
        change (Z.of_nat 20) with 20. lia.
  - apply (hex_loop_starts 15).
  - unfold hex_digits.
    destruct (hex_loop_unstarted_length 15 v (sv "0x")) as (ds & Hrun & _).
    change (S 15) with uintptr_nibbles in Hrun. rewrite Hrun. reflexivity.
  - unfold hex_digits.
    destruct (hex_loop_unstarted_length 15 v (sv "0x")) as (ds & Hrun & Hmin).
    pose proof (hex_loop_length uintptr_nibbles v false (sv "0x")) as Hl.
    change (S 15) with uintptr_nibbles in Hrun. rewrite Hrun in *.
    cbn [snd negb] in *. rewrite length_app in *.
    change (length (sv "0x")) with 2%nat in *. unfold uintptr_nibbles in Hl. lia.
  - reflexivity.
Qed.

Lemma writers_stay_within_buffers_witness :
  (1 <= length (dec_digits 18446744073709551615) <= 20)%nat.
Proof.
  apply (proj1 (proj2 (writers_stay_within_buffers 18446744073709551615 demo_clock))).
  vm_compute. split; [discriminate|reflexivity].
Defined.

(** ** The sink *)

(** X19.  The sink set last receives every write.  After [set_sink fn]
    each non-empty [write_raw] invokes [fn] once with exactly its bytes
    and writes nothing to standard error, and a whole log line goes to
    [fn] alone; after [set_sink] with the null pointer, which is what
    [reset_sink] does, the bytes go to standard error.  An empty write
    invokes no sink, and [write_str] is [write_raw] on the bytes of the
    view. *)
Theorem sink_receives_every_write (fn : option SinkFn) (data : list ascii) (w : World) :
  let w1 := exec (set_sink fn) w in
  let d := match fn with Some f => Custom f | None => Stderr end in
  exec reset_sink w = exec (set_sink None) w /\
  (data <> [] -> out (exec (write_raw data) w1) = out w ++ [(d, data)]) /\
  exec (write_raw []) w1 = w1 /\
  write_str data w1 = write_raw data w1 /\
  forall lvl module msg loc,
    exists w', write_log_line lvl module msg loc w1 = (Ret tt, w') /\
               emits w1 w' d (line_bytes w1 lvl module msg loc).
Proof.
  intros w1 d.
  assert (Hd : current_dest w1 = d) by (destruct fn; reflexivity).
  split; [reflexivity|]. split; [|split; [|split]].
  - intros Hdata. unfold exec at 1. rewrite write_raw_eq.
    destruct data as [|c data]; [congruence|]. cbn [snd out]. rewrite Hd. reflexivity.
  - unfold exec at 1. rewrite write_raw_eq. reflexivity.
  - unfold write_str. destruct data; reflexivity.
  - intros lvl module msg loc.
    destruct (write_log_line_run w1 lvl module msg loc) as (w' & E & Em).
    exists w'. rewrite <- Hd. split; assumption.
Qed.

Lemma sink_receives_every_write_witness :
  out (exec (write_raw (sv "hello")) (exec (set_sink (Some 7%nat)) world_enabled))
  = out world_enabled ++ [(Custom 7%nat, sv "hello")].
Proof.
  apply (proj1 (proj2 (sink_receives_every_write (Some 7%nat) (sv "hello")
                         world_enabled))).
  discriminate.
Defined.

(** ** Colors *)

Lemma strips_app (a p a' p' : list ascii) :
  strips_to a p -> strips_to a' p' -> strips_to (a ++ a') (p ++ p').
Proof.
  intros H H' b. rewrite <- !app_assoc. rewrite H, H'. reflexivity.
Qed.

Lemma strips_plain (a : list ascii) : esc_free a = true -> strips_to a a.
Proof.
  intros H b. induction a as [|c a IH]; [reflexivity|].
  cbn [esc_free forallb] in H. apply andb_prop in H. destruct H as [Hc Ha].
  cbn [app strip_sgr]. apply negb_true_iff in Hc. rewrite Hc.
  rewrite IH by exact Ha. reflexivity.
Qed.

Lemma strips_nil : strips_to [] [].
Proof. intros b. reflexivity. Qed.

Lemma strips_col (on : bool) (c : Color) : strips_to (col on c) (col false c).
Proof. intros b. destruct on; [destruct c; reflexivity|reflexivity]. Qed.

Lemma strips_level_col (on : bool) (l : Level) :
  strips_to (level_col on l) (level_col false l).
Proof. destruct l; apply strips_col. Qed.

Lemma esc_free_digits (ds : list ascii) :
  forallb is_dec_digit ds = true -> esc_free ds = true.
Proof.
  intros H. unfold esc_free. rewrite forallb_forall in *. intros c Hc.
  specialize (H c Hc). apply negb_true_iff. apply Ascii.eqb_neq. intros ->.
  discriminate H.
Qed.

Lemma esc_free_dec_digits (v : Z) : esc_free (dec_digits (to_size_t v)) = true.
Proof.
  apply esc_free_digits.
  assert (Hv : 0 <= to_size_t v < 10 ^ Z.of_nat dec_buf_size).
  { unfold to_size_t, size_t_bits, dec_buf_size.
    pose proof (Z.mod_pos_bound v (2 ^ 64) ltac:(lia)).
    change (Z.of_nat 32) with 32. lia. }
  apply (dec_digits_canonical _ Hv).
Qed.

Lemma esc_free_timestamp (now : WallClock) :
  valid_clock now -> esc_free (write_timestamp_to now) = true.
Proof.
  intros Hnow. rewrite (write_timestamp_to_shape now Hnow).
  unfold esc_free. rewrite !forallb_app.
  fold (esc_free (zero_padded 4 (tm_year now + 1900))).
  fold (esc_free (zero_padded 2 (tm_mon now + 1))).
  fold (esc_free (zero_padded 2 (tm_mday now))).
  fold (esc_free (zero_padded 2 (tm_hour now))).
  fold (esc_free (zero_padded 2 (tm_min now))).
  fold (esc_free (zero_padded 2 (tm_sec now))).
  fold (esc_free (zero_padded 3 (tv_nsec now / 1000000))).
  rewrite !(esc_free_digits _ (zero_padded_digits _ _)). reflexivity.
Qed.

Lemma strips_pid_field (on : bool) (p : Z) :
  strips_to (pid_field on p) (pid_field false p).
Proof.
  unfold pid_field.
  apply strips_app; [apply strips_col|].
  apply strips_app; [apply strips_plain; reflexivity|].
  apply strips_app; [apply strips_plain; apply esc_free_dec_digits|].
  apply strips_app; [apply strips_plain; reflexivity|].
  apply strips_app; [apply strips_col|].
  apply strips_plain; reflexivity.
Qed.

Lemma strips_prefix_field (on : bool) (prefix : list ascii) :
  esc_free prefix = true ->
  strips_to (prefix_field on prefix) (prefix_field false prefix).
Proof.
  intros H. unfold prefix_field.
  apply strips_app; [apply strips_col|].
  apply strips_app; [apply strips_col|].
  apply strips_app; [apply strips_plain; exact H|].
  apply strips_app; [apply strips_plain; reflexivity|].
  apply strips_col.
Qed.

Lemma strips_level_field (on : bool) (lvl : Level) :
  strips_to (level_field on lvl) (level_field false lvl).
Proof.
  unfold level_field.
  apply strips_app; [apply strips_level_col|].
  apply strips_app; [apply strips_plain; reflexivity|].
  apply strips_app; [apply strips_plain; destruct lvl; reflexivity|].
  apply strips_app; [apply strips_plain; reflexivity|].
  apply strips_col.
Qed.

Lemma strips_location_field (on enabled : bool) (loc : source_location) :
  esc_free (c_str (basename_of (file_name loc))) = true ->
  strips_to (location_field on enabled loc) (location_field false enabled loc).
Proof.
  intros H. unfold location_field. destruct enabled; [|apply strips_nil].
  apply strips_app; [apply strips_plain; reflexivity|].
  apply strips_app; [apply strips_col|].
  apply strips_app; [apply strips_plain; exact H|].
  apply strips_app; [apply strips_plain; reflexivity|].
  apply strips_app; [apply strips_plain; apply esc_free_dec_digits|].
  apply strips_col.
Qed.

Lemma strips_module_field (on : bool) (module : list ascii) :
  esc_free module = true ->
  strips_to (module_field on module) (module_field false module).
Proof.
  intros H. unfold module_field.
  destruct (negb (Nat.eqb (length module) 0)); [|apply strips_nil].
  apply strips_app; [apply strips_plain; reflexivity|].
  apply strips_app; [apply strips_col|].
  apply strips_app; [apply strips_plain; reflexivity|].
  apply strips_app; [apply strips_plain; exact H|].
  apply strips_app; [apply strips_plain; reflexivity|].
  apply strips_col.
Qed.

(** X20.  Colors add escape sequences and nothing else.  When the
    prefix, the file name, the module and the message hold no escape
    byte (and the clock is in range when timestamps are on), the line
    that [write_log_line] writes, with its escape sequences removed, is
    byte for byte the line written when color is off: every sequence
    the code opens is a whole one, and no text is lost or reordered. *)
Theorem colored_line_strips_to_uncolored (w : World) (lvl : Level)
    (module msg : list ascii) (loc : source_location) :
  (g_timestamps_enabled (globals w) = true -> valid_clock (wall_clock (process w))) ->
  esc_free (prefix_snapshot w) = true ->
  esc_free (c_str (basename_of (file_name loc))) = true ->
  esc_free module = true ->
  esc_free msg = true ->
  color_on (uncolored w) = false /\
  strip_sgr false (line_bytes w lvl module msg loc)
  = line_bytes (uncolored w) lvl module msg loc /\
  exists w',
    write_log_line lvl module msg loc w = (Ret tt, w') /\
    emits w w' (current_dest w) (line_bytes w lvl module msg loc).
Proof.
  intros Hclock Hprefix Hfile Hmod Hmsg.
  assert (Hoff : color_on (uncolored w) = false) by reflexivity.
  split; [exact Hoff|]. split; [|apply write_log_line_run].
  unfold line_bytes. rewrite Hoff.
  change (pid_value (uncolored w)) with (pid_value w).
  change (prefix_snapshot (uncolored w)) with (prefix_snapshot w).
  change (g_timestamps_enabled (globals (uncolored w)))
    with (g_timestamps_enabled (globals w)).
  change (g_source_location_enabled (globals (uncolored w)))
    with (g_source_location_enabled (globals w)).
  change (wall_clock (process (uncolored w))) with (wall_clock (process w)).
  cbv zeta.
  match goal with
  | |- strip_sgr false ?a = ?p =>
      assert (H : strips_to a p); [|rewrite <- (app_nil_r a), H; apply app_nil_r]
  end.
  apply strips_app.
  { apply strips_plain. unfold timestamp_field.
    destruct (g_timestamps_enabled (globals w)); [|reflexivity].
    apply esc_free_timestamp. apply Hclock. reflexivity. }
  apply strips_app; [apply strips_pid_field|].
  apply strips_app; [apply strips_prefix_field; exact Hprefix|].
  apply strips_app; [apply strips_level_field|].
  apply strips_app; [apply strips_location_field; exact Hfile|].
  apply strips_app; [apply strips_module_field; exact Hmod|].
  apply strips_app; [apply strips_plain; reflexivity|].
  apply strips_plain. exact Hmsg.
Qed.

Lemma colored_line_strips_to_uncolored_witness :
  let w := exec (store (store_use_color_cached 1)) world_verbose in
  strip_sgr false (line_bytes w Warn (sv "alloc") (sv "hello") (loc (demo_entry Warn)))
  = line_bytes (uncolored w) Warn (sv "alloc") (sv "hello") (loc (demo_entry Warn)).
Proof.
  cbv zeta.
  apply (proj1 (proj2 (colored_line_strips_to_uncolored
                         (exec (store (store_use_color_cached 1)) world_verbose)
                         Warn (sv "alloc") (sv "hello") (loc (demo_entry Warn))
                         ltac:(intros _; unfold valid_clock; simpl; lia)
                         eq_refl eq_refl eq_refl eq_refl))).
Defined.

(** ** The switch and the level threshold *)

Lemma set_min_level_fields (X : Level) (w : World) :
  let w' := exec (set_min_level X) w in
  g_min_level (globals w') = level_to_int X /\
  g_init_once (globals w') = true /\
  g_log_enabled (globals w') = g_log_enabled (globals w) /\
  out w' = out w.
Proof.
  assert (E : exec (set_min_level X) w
              = {| globals :=
                     store_min_level (level_to_int X)
                       (initialised
                          {| globals := store_min_level_set_explicitly true (globals w);
                             process := process w; out := out w |});
                   process := process w; out := out w |}).
  { unfold exec, set_min_level, bind, store. rewrite init_once_eq. reflexivity. }
  cbv zeta. rewrite E. clear E.
  set (wm := {| globals := store_min_level_set_explicitly true (globals w);
                process := process w; out := out w |}).
  destruct (initialised_fields wm) as (Hen & _ & _ & _ & _ & _ & Hi).
  cbn [globals out g_min_level g_init_once g_log_enabled store_min_level].
  rewrite Hen, Hi. repeat split.
Qed.

Lemma emits_nonempty (w w' : World) (d : Dest) (bytes : list ascii) :
  emits w w' d bytes -> bytes <> [] -> out w' <> out w.
Proof.
  intros (chunks & Ho & _ & Hb) Hne E. rewrite Ho in E.
  rewrite <- (app_nil_r (out w)) in E at 2. apply app_inv_head in E.
  subst chunks. simpl in Hb. congruence.
Qed.

(** X21.  The switch and the threshold, end to end.  After
    [enable_logging] and [set_min_level X], an untagged call with a
    non-empty message writes nothing when its level is below [X], and
    otherwise writes its line, so that the output grows; the environment
    has no say any more.  After [disable_logging] the same call writes
    nothing, whatever its level. *)
Theorem level_threshold_end_to_end (X : Level) (entry : LogEntry) (msg : list ascii)
    (w : World) :
  msg <> [] ->
  let w1 := exec (enable_logging ;; set_min_level X) w in
  let w2 := exec (log entry (Ret msg)) w1 in
  (level_to_int (level entry) < level_to_int X -> out w2 = out w1) /\
  (level_to_int X <= level_to_int (level entry) ->
   emits w1 w2 (current_dest w1) (line_bytes w1 (level entry) [] msg (loc entry)) /\
   out w2 <> out w1) /\
  out (exec (disable_logging ;; log entry (Ret msg)) w1) = out w1.
Proof.
  intros Hmsg w1 w2.
  assert (Hw1 : w1 = exec (set_min_level X) (exec enable_logging w)) by reflexivity.
  destruct (set_min_level_fields X (exec enable_logging w)) as (Hlvl & Hi & Hen & _).
  rewrite <- Hw1 in Hlvl, Hi, Hen.
  change (g_log_enabled (globals (exec enable_logging w))) with true in Hen.
  pose proof (init_once_done w1 Hi) as Hdone.
  split; [|split].
  - intros Hlow. unfold w2, exec at 1. rewrite log_eq. cbv zeta.
    rewrite Hdone, Hen, Hlvl. cbn [negb].
    apply Z.ltb_lt in Hlow. rewrite Hlow. reflexivity.
  - intros Hge.
    assert (Hem : emits w1 w2 (current_dest w1)
                        (line_bytes w1 (level entry) [] msg (loc entry))).
    { pose proof (log_emits_line entry msg w1 Hen) as H. cbv zeta in H.
      rewrite Hdone, Hlvl in H. apply H; assumption. }
    split; [exact Hem|]. apply (emits_nonempty _ _ _ _ Hem).
    destruct (line_bytes_ends_with_message w1 (level entry) [] msg (loc entry))
      as (header & ->).
    intros E. apply app_eq_nil in E. destruct E as [_ E]. contradiction.
  - assert (E : exec (disable_logging ;; log entry (Ret msg)) w1
                = exec (log entry (Ret msg)) (exec disable_logging w1)) by reflexivity.
    rewrite E. unfold exec at 1. rewrite log_eq. cbv zeta.
    change (g_log_enabled (globals (exec disable_logging w1))) with false.
    cbn [negb snd]. rewrite out_exec_init_once. reflexivity.
Qed.

Lemma level_threshold_end_to_end_witness :
  out (exec (log (demo_entry Info) (Ret (sv "hello")))
            (exec (enable_logging ;; set_min_level Warn) (initial_world demo_process)))
  = out (exec (enable_logging ;; set_min_level Warn) (initial_world demo_process)).
Proof.
  apply (proj1 (level_threshold_end_to_end Warn (demo_entry Info) (sv "hello")
                  (initial_world demo_process) ltac:(discriminate))).
  reflexivity.
Defined.
